(** * arikawa: command schema codec, websocket connection and session lifecycle

    A shallow embedding of

    - [discord/command.go]: the [Command] / [CommandOption] model with its
      [MarshalJSON] and [UnmarshalJSON] methods;
    - [internal/wsutil/conn.go]: the default websocket [Conn];
    - [utils/bot/extras/middlewares/middlewares.go], its part that is
      package [session]: [Session.Open] and [Session.Close];

    followed by the properties of the natural-language specification that
    were checked against them.

    JSON documents are represented after lexing: a document is a tree of
    [json.value], a string carries its unescaped content and a number keeps
    the text of its literal.  The byte slice handed to an [UnmarshalJSON]
    method, and the byte slice returned by a [MarshalJSON] method, is such a
    document. *)

From Stdlib Require Import ZArith NArith List String Ascii Bool Lia.
From Stdlib Require Import DecimalString DecimalPos DecimalN DecimalZ.
Import ListNotations.
Local Open Scope string_scope.
Set Warnings "-register-all".

(* ================================================================= *)
(** ** Go values *)

Module golang.

(** A slice is [nil] or a (possibly empty) sequence of elements. *)
Definition slice (A : Type) : Type := option (list A).

Definition len {A : Type} (s : slice A) : nat :=
  match s with
  | None => 0
  | Some l => List.length l
  end.

(** The elements a [range] loop visits. *)
Definition elements {A : Type} (s : slice A) : list A :=
  match s with
  | None => []
  | Some l => l
  end.

(** A slice that is nil or has at least one element: [omitempty] drops a
    slice exactly when it is nil or empty, and a dropped member is read
    back as nil. *)
Definition nilOrNonEmpty {A : Type} (s : slice A) : bool :=
  match s with
  | Some [] => false
  | _ => true
  end.

(** A pointer is [nil] or points to a value. *)
Definition ptr (A : Type) : Type := option A.

(** [uint] and [int] are 64 bits wide. *)
Definition uint_max : N := 18446744073709551615.
Definition int_min : Z := -9223372036854775808.
Definition int_max : Z := 9223372036854775807.

Definition is_uint (n : N) : bool := (n <=? uint_max)%N.
Definition is_int (z : Z) : bool := ((int_min <=? z) && (z <=? int_max))%Z.

(** The outcome of a call that may run into a run-time panic. *)
Inductive outcome (A : Type) : Type :=
| Returns (a : A)
| Panics.
Arguments Returns {A} a.
Arguments Panics {A}.

(** [s[:n]] on a string of at least [n] bytes. *)
Fixpoint take (n : nat) (s : string) : string :=
  match n, s with
  | S n', String c r => String c (take n' r)
  | _, _ => EmptyString
  end.


End golang.

(* ================================================================= *)
(** ** JSON documents and the struct decoder's member matching *)

Module json.

(** A document, as the decoder's scanner delimits it: a string literal is
    kept as the string it denotes, a number as its literal. *)
Inductive value : Type :=
| JNull
| JBool (b : bool)
| JNum (literal : string)
| JStr (s : string)
| JArr (elements : list value)
| JObj (members : list (string * value)).

(** [json.Raw]: a byte slice holding a document, or [nil]. *)
Definition Raw : Type := option value.

Definition lower (c : ascii) : ascii :=
  let n := nat_of_ascii c in
  if (65 <=? n)%nat && (n <=? 90)%nat then ascii_of_nat (n + 32) else c.

(** Member names are matched to struct tags under Unicode simple case
    folding.  A tag made of ASCII letters, digits and underscores is
    matched by its ASCII case variants and by the two characters outside
    ASCII that fold to an ASCII letter: U+212A (Kelvin sign, bytes
    E2 84 AA) folds to k and U+017F (long s, bytes C5 BF) folds to s. *)
Fixpoint foldName (s : string) : string :=
  match s with
  | EmptyString => EmptyString
  | String c r =>
      match r with
      | String c2 r2 =>
          if Ascii.eqb c "197" && Ascii.eqb c2 "191"
          then String "s" (foldName r2)
          else
            match r2 with
            | String c3 r3 =>
                if Ascii.eqb c "226" && Ascii.eqb c2 "132" && Ascii.eqb c3 "170"
                then String "k" (foldName r3)
                else String (lower c) (foldName r)
            | EmptyString => String (lower c) (foldName r)
            end
      | EmptyString => String (lower c) (foldName r)
      end
  end.

(** [tag] is a lower-case struct tag. *)
Definition EqualFold (key tag : string) : bool := String.eqb (foldName key) tag.

(** [strconv.FormatUint(n, 10)] and [strconv.FormatInt(z, 10)]. *)
Definition FormatUint (n : N) : string := NilEmpty.string_of_uint (N.to_uint n).
Definition FormatInt (z : Z) : string := NilEmpty.string_of_int (Z.to_int z).

(** [strconv.ParseUint(s, 10, 64)] on a number literal: digits only. *)
Definition ParseUint (s : string) : option N :=
  if String.eqb s "" then None
  else
    match NilEmpty.uint_of_string s with
    | Some d => let n := N.of_uint d in
                if golang.is_uint n then Some n else None
    | None => None
    end.

(** [strconv.ParseInt(s, 10, 64)] on a number literal: an optional minus
    sign, then digits. *)
Definition ParseInt (s : string) : option Z :=
  if String.eqb s "" || String.eqb s "-" then None
  else
    match NilEmpty.int_of_string s with
    | Some d => let z := Z.of_int d in
                if golang.is_int z then Some z else None
    | None => None
    end.

(** [utf8.DecodeRuneInString] on a string: the width in bytes of the
    encoding it starts with, 0 when it starts with no valid encoding (the
    library then takes one byte as U+FFFD).  The lead bytes C2..DF start
    two bytes, E0..EF three and F0..F4 four; the second byte is a
    continuation byte 80..BF, narrowed to A0..BF after E0, 80..9F after ED,
    90..BF after F0 and 80..8F after F4. *)
Definition between (lo hi : nat) (c : ascii) : bool :=
  ((lo <=? nat_of_ascii c) && (nat_of_ascii c <=? hi))%nat.

Definition continuation (c : ascii) : bool := between 128 191 c.

Definition runeWidth (s : string) : nat :=
  match s with
  | EmptyString => 0
  | String c0 r0 =>
      if (nat_of_ascii c0 <? 128)%nat then 1
      else
        match r0 with
        | EmptyString => 0
        | String c1 r1 =>
            if between 194 223 c0 then (if continuation c1 then 2 else 0)
            else
              match r1 with
              | EmptyString => 0
              | String c2 r2 =>
                  let second3 :=
                    if between 224 224 c0 then between 160 191 c1
                    else if between 237 237 c0 then between 128 159 c1
                    else if between 225 239 c0 then continuation c1
                    else false in
                  if second3 then (if continuation c2 then 3 else 0)
                  else
                    match r2 with
                    | EmptyString => 0
                    | String c3 _ =>
                        let second4 :=
                          if between 240 240 c0 then between 144 191 c1
                          else if between 244 244 c0 then between 128 143 c1
                          else if between 241 243 c0 then continuation c1
                          else false in
                        if second4 && continuation c2 && continuation c3 then 4 else 0
                    end
              end
        end
  end.

(** A string as [json.Marshal] writes it and a decoder reads it back:
    every byte that starts no valid UTF-8 encoding is replaced by U+FFFD
    (bytes EF BF BD).  [skip] counts the bytes left of the encoding being
    passed over.  (The escapes the encoder writes for quotes, control
    characters and the like denote the characters they stand for.) *)
Fixpoint coerceFrom (skip : nat) (s : string) : string :=
  match s with
  | EmptyString => EmptyString
  | String c r =>
      match skip with
      | S k => String c (coerceFrom k r)
      | O =>
          match runeWidth s with
          | O => String "239" (String "191" (String "189" (coerceFrom 0 r)))
          | S k => String c (coerceFrom k r)
          end
      end
  end.

Definition toValidUTF8 (s : string) : string := coerceFrom 0 s.

(** [utf8.ValidString]. *)
Fixpoint validFrom (skip : nat) (s : string) : bool :=
  match s with
  | EmptyString => true
  | String c r =>
      match skip with
      | S k => validFrom k r
      | O =>
          match runeWidth s with
          | O => false
          | S k => validFrom k r
          end
      end
  end.

Definition ValidString (s : string) : bool := validFrom 0 s.

(** The document a struct decoder stores into a field of a basic type
    tagged [tag]: the last member of that name that is not [null]. *)
Definition pickMember (tag : string) (acc : option value) (kv : string * value)
    : option value :=
  if EqualFold (fst kv) tag
  then match snd kv with
       | JNull => acc
       | v => Some v
       end
  else acc.

Definition scalarMember (tag : string) (members : list (string * value)) : option value :=
  fold_left (pickMember tag) members None.

(** Whether an object has a member that matches [tag]. *)
Definition hasMember (tag : string) (members : list (string * value)) : bool :=
  existsb (fun kv => EqualFold (fst kv) tag) members.

End json.

(* ================================================================= *)
(** ** package discord: the command model *)

Module discord.
Import golang json.

(** Identifiers are snowflakes ([uint64]); their declaration and JSON
    methods live in another file of the package and enter through
    [Driver] below. *)
Definition Snowflake : Type := N.
Definition CommandID : Type := Snowflake.
Definition AppID : Type := Snowflake.
Definition GuildID : Type := Snowflake.
Definition UserID : Type := Snowflake.
Definition ChannelID : Type := Snowflake.
Definition RoleID : Type := Snowflake.

(** [ChannelType] is an unsigned integer type declared in another file. *)
Definition ChannelType : Type := N.

(** A [float64] is kept as its IEEE 754 datum; no arithmetic is done on
    it here. *)
Inductive float64 : Type :=
| FZero (sign : bool)
| FInf (sign : bool)
| FNaN
| FFinite (sign : bool) (mantissa : positive) (exponent : Z).

Definition CommandType : Type := N.
Definition ChatInputCommand : CommandType := 1%N.
Definition UserCommand : CommandType := 2%N.
Definition MessageCommand : CommandType := 3%N.

Definition CommandOptionType : Type := N.
Definition SubcommandOptionType : CommandOptionType := 1%N.
Definition SubcommandGroupOptionType : CommandOptionType := 2%N.
Definition StringOptionType : CommandOptionType := 3%N.
Definition IntegerOptionType : CommandOptionType := 4%N.
Definition BooleanOptionType : CommandOptionType := 5%N.
Definition UserOptionType : CommandOptionType := 6%N.
Definition ChannelOptionType : CommandOptionType := 7%N.
Definition RoleOptionType : CommandOptionType := 8%N.
Definition MentionableOptionType : CommandOptionType := 9%N.
Definition NumberOptionType : CommandOptionType := 10%N.
Definition maxOptionType : CommandOptionType := 11%N.

(** The eight choice structs are a name paired with a value. *)
Module Choice.
Record t (V : Type) : Type := mk { Name : string; Value : V }.
Arguments mk {V} Name Value.
Arguments Name {V} _.
Arguments Value {V} _.
End Choice.

Definition StringChoice : Type := Choice.t string.
Definition IntegerChoice : Type := Choice.t Z.
Definition BooleanChoice : Type := Choice.t bool.
Definition UserChoice : Type := Choice.t UserID.
Definition ChannelChoice : Type := Choice.t ChannelID.
Definition RoleChoice : Type := Choice.t RoleID.
Definition MentionableChoice : Type := Choice.t Snowflake.
Definition NumberChoice : Type := Choice.t float64.

Module StringOption.
Record t : Type := mk {
  OptionName : string;
  Description : string;
  Required : bool;
  Choices : slice StringChoice;
  Autocomplete : bool }.
Definition zero : t := mk "" "" false None false.
End StringOption.

Module ChannelOption.
Record t : Type := mk {
  OptionName : string;
  Description : string;
  Required : bool;
  Choices : slice ChannelChoice;
  ChannelTypes : slice ChannelType }.
Definition zero : t := mk "" "" false None None.
End ChannelOption.

(** [IntegerOption], [BooleanOption], [UserOption], [RoleOption],
    [MentionableOption] and [NumberOption] have the same four fields and
    differ in the type of their choices. *)
Module ValueOption.
Record t (C : Type) : Type := mk {
  OptionName : string;
  Description : string;
  Required : bool;
  Choices : slice C }.
Arguments mk {C} OptionName Description Required Choices.
Arguments OptionName {C} _.
Arguments Description {C} _.
Arguments Required {C} _.
Arguments Choices {C} _.
Definition zero {C : Type} : t C := mk "" "" false None.
End ValueOption.

Definition IntegerOption : Type := ValueOption.t IntegerChoice.
Definition BooleanOption : Type := ValueOption.t BooleanChoice.
Definition UserOption : Type := ValueOption.t UserChoice.
Definition RoleOption : Type := ValueOption.t RoleChoice.
Definition MentionableOption : Type := ValueOption.t MentionableChoice.
Definition NumberOption : Type := ValueOption.t NumberChoice.

(** The exported fields and [raw] of an [UnknownCommandOption].  Its
    [data] field is kept beside it, see [Decoded]. *)
Module UnknownCommandOption.
Record t : Type := mk {
  OptionName : string;
  OptionType : CommandOptionType;
  raw : Raw }.
Definition zero : t := mk "" 0%N None.
End UnknownCommandOption.

(** [CommandOptionValue]: the types with a [_val] method. *)
Inductive CommandOptionValue : Type :=
| VString (o : StringOption.t)
| VInteger (o : IntegerOption)
| VBoolean (o : BooleanOption)
| VUser (o : UserOption)
| VChannel (o : ChannelOption.t)
| VRole (o : RoleOption)
| VMentionable (o : MentionableOption)
| VNumber (o : NumberOption)
| VUnknown (u : UnknownCommandOption.t).

Module SubcommandOption.
Record t : Type := mk {
  OptionName : string;
  Description : string;
  Required : bool;
  Options : slice CommandOptionValue }.
Definition zero : t := mk "" "" false None.
End SubcommandOption.

Module SubcommandGroupOption.
Record t : Type := mk {
  OptionName : string;
  Description : string;
  Required : bool;
  Subcommands : slice (ptr SubcommandOption.t) }.
Definition zero : t := mk "" "" false None.
End SubcommandGroupOption.

(** [CommandOption]: the types with [Name] and [Type] methods. *)
Inductive CommandOption : Type :=
| OSubcommand (s : SubcommandOption.t)
| OSubcommandGroup (g : SubcommandGroupOption.t)
| OValue (v : CommandOptionValue).

(** The type assertion [data.(CommandOptionValue)]. *)
Definition asCommandOptionValue (data : CommandOption) : option CommandOptionValue :=
  match data with
  | OValue v => Some v
  | OSubcommand _ | OSubcommandGroup _ => None
  end.

Definition CommandOptions : Type := slice CommandOption.

Module Command.
Record t : Type := mk {
  ID : CommandID;
  Type_ : CommandType;
  AppID : AppID;
  GuildID : GuildID;
  Name : string;
  Description : string;
  Options : CommandOptions;
  NoDefaultPermission : bool;
  Version : Snowflake }.
Definition zero : t := mk 0%N 0%N 0%N 0%N "" "" None false 0%N.
End Command.

(** The [Type] and [Name] methods. *)
Definition CommandOptionValue_Type (v : CommandOptionValue) : CommandOptionType :=
  match v with
  | VString _ => StringOptionType
  | VInteger _ => IntegerOptionType
  | VBoolean _ => BooleanOptionType
  | VUser _ => UserOptionType
  | VChannel _ => ChannelOptionType
  | VRole _ => RoleOptionType
  | VMentionable _ => MentionableOptionType
  | VNumber _ => NumberOptionType
  | VUnknown u => UnknownCommandOption.OptionType u
  end.

Definition CommandOption_Type (o : CommandOption) : CommandOptionType :=
  match o with
  | OSubcommand _ => SubcommandOptionType
  | OSubcommandGroup _ => SubcommandGroupOptionType
  | OValue v => CommandOptionValue_Type v
  end.

Definition CommandOptionValue_Name (v : CommandOptionValue) : string :=
  match v with
  | VString o => StringOption.OptionName o
  | VInteger o => ValueOption.OptionName o
  | VBoolean o => ValueOption.OptionName o
  | VUser o => ValueOption.OptionName o
  | VChannel o => ChannelOption.OptionName o
  | VRole o => ValueOption.OptionName o
  | VMentionable o => ValueOption.OptionName o
  | VNumber o => ValueOption.OptionName o
  | VUnknown u => UnknownCommandOption.OptionName u
  end.

Definition CommandOption_Name (o : CommandOption) : string :=
  match o with
  | OSubcommand s => SubcommandOption.OptionName s
  | OSubcommandGroup g => SubcommandGroupOption.OptionName g
  | OValue v => CommandOptionValue_Name v
  end.

(* ----------------------------------------------------------------- *)
(** *** Errors *)

Inductive error : Type :=
| UnmarshalTypeError (value : string) (type : string)
| InvalidStringTag
| UnsupportedValueError
| MarshalerError
| SnowflakeError
| Errorf (msg : string)
| Wrap (cause : error) (msg : string)
| commandTypeCheckError (name : string) (got : CommandOption) (expect : string).



Inductive result (A : Type) : Type :=
| Ok (a : A)
| Err (e : error).
Arguments Ok {A} a.
Arguments Err {A} e.

Definition rbind {A B : Type} (m : result A) (f : A -> result B) : result B :=
  match m with
  | Ok a => f a
  | Err e => Err e
  end.

Definition mapR {A B : Type} (f : A -> result B) : list A -> result (list B) :=
  fix go (l : list A) : result (list B) :=
    match l with
    | [] => Ok []
    | x :: r => rbind (f x) (fun y => rbind (go r) (fun ys => Ok (y :: ys)))
    end.

(** The state of one [json.Unmarshal] call.  A value of the wrong kind is
    recorded ([Saved], the first one is kept) and decoding goes on with
    the destination left as it was; an error returned by an
    [UnmarshalJSON] method ends the call at once ([Abort]). *)
Inductive dec (A : Type) : Type :=
| Done (a : A)
| Saved (e : error) (a : A)
| Abort (e : error).
Arguments Done {A} a.
Arguments Saved {A} e a.
Arguments Abort {A} e.

Definition dbind {A B : Type} (m : dec A) (f : A -> dec B) : dec B :=
  match m with
  | Done a => f a
  | Saved e a =>
      match f a with
      | Done b => Saved e b
      | Saved _ b => Saved e b
      | Abort e' => Abort e'
      end
  | Abort e => Abort e
  end.

(** What [json.Unmarshal] returns at the end of the call. *)
Definition Unmarshal {A : Type} (m : dec A) : result A :=
  match m with
  | Done a => Ok a
  | Saved e _ => Err e
  | Abort e => Err e
  end.

(** An [UnmarshalJSON] method called from inside a decoding. *)
Definition callUnmarshaler {A : Type} (r : result A) : dec A :=
  match r with
  | Ok a => Done a
  | Err e => Abort e
  end.

Declare Scope dec_scope.
Delimit Scope dec_scope with dec.
Notation "x <- m ;; k" := (dbind m (fun x => k))
  (at level 61, m at next level, right associativity) : dec_scope.
Declare Scope result_scope.
Delimit Scope result_scope with result.
Notation "x <- m ;; k" := (rbind m (fun x => k))
  (at level 61, m at next level, right associativity) : result_scope.

Definition mapD {A B : Type} (f : A -> dec B) : list A -> dec (list B) :=
  fix go (l : list A) : dec (list B) :=
    match l with
    | [] => Done []
    | x :: r => (y <- f x ;; ys <- go r ;; Done (y :: ys))%dec
    end.

(* ----------------------------------------------------------------- *)
(** *** encoding/json on the kinds of field this package uses *)

Definition kind (v : value) : string :=
  match v with
  | JNull => "null"
  | JBool _ => "bool"
  | JNum _ => "number"
  | JStr _ => "string"
  | JArr _ => "array"
  | JObj _ => "object"
  end.

Definition decodeString (v : value) (old : string) : dec string :=
  match v with
  | JNull => Done old
  | JStr s => Done s
  | _ => Saved (UnmarshalTypeError (kind v) "string") old
  end.

Definition decodeBool (v : value) (old : bool) : dec bool :=
  match v with
  | JNull => Done old
  | JBool b => Done b
  | _ => Saved (UnmarshalTypeError (kind v) "bool") old
  end.

Definition decodeUint (v : value) (old : N) : dec N :=
  match v with
  | JNull => Done old
  | JNum lit =>
      match ParseUint lit with
      | Some n => Done n
      | None => Saved (UnmarshalTypeError ("number " ++ lit) "uint") old
      end
  | _ => Saved (UnmarshalTypeError (kind v) "uint") old
  end.

Definition decodeInt (v : value) (old : Z) : dec Z :=
  match v with
  | JNull => Done old
  | JNum lit =>
      match ParseInt lit with
      | Some z => Done z
      | None => Saved (UnmarshalTypeError ("number " ++ lit) "int") old
      end
  | _ => Saved (UnmarshalTypeError (kind v) "int") old
  end.

(** A struct: the members are taken in document order, each is stored
    into the field its name matches ([field]); [null] leaves the struct
    as it is. *)
Definition storeMember {S : Type} (field : string -> value -> S -> dec S)
    (acc : dec S) (kv : string * value) : dec S :=
  let '(k, x) := kv in dbind acc (field k x).

Definition decodeObject {S : Type} (field : string -> value -> S -> dec S)
    (v : value) (init : S) : dec S :=
  match v with
  | JNull => Done init
  | JObj members => fold_left (storeMember field) members (Done init)
  | _ => Saved (UnmarshalTypeError (kind v) "struct") init
  end.

(** A slice: [null] gives [nil], an array gives one element per entry,
    each decoded into a zero element ([elem]).  (The library reuses a
    slice's storage when its member occurs twice in one object; here the
    array met last is decoded into zero elements like the first.) *)
Definition decodeSlice {A : Type} (elem : value -> dec A)
    (v : value) (old : slice A) : dec (slice A) :=
  match v with
  | JNull => Done None
  | JArr elements => (l <- mapD elem elements ;; Done (Some l))%dec
  | _ => Saved (UnmarshalTypeError (kind v) "slice") old
  end.

Definition marshalSlice {A : Type} (enc : A -> result value) (s : slice A)
    : result value :=
  match s with
  | None => Ok JNull
  | Some l => (vs <- mapR enc l ;; Ok (JArr vs))%result
  end.

(** A slice member tagged [omitempty] is left out when its length is 0. *)
Definition omitemptySlice {A : Type} (name : string) (enc : A -> result value)
    (s : slice A) : result (list (string * value)) :=
  match s with
  | None => Ok []
  | Some [] => Ok []
  | Some l => (vs <- mapR enc l ;; Ok [(name, JArr vs)])%result
  end.

(** An unsigned member tagged [omitempty] is left out when it is 0. *)
Definition omitemptyN (name : string) (enc : N -> result value) (n : N)
    : result (list (string * value)) :=
  if (n =? 0)%N then Ok [] else (v <- enc n ;; Ok [(name, v)])%result.

(* ----------------------------------------------------------------- *)
(** *** What this file takes from elsewhere

    The JSON methods of [Snowflake] (and of the identifier types, which
    forward to them), the library's formatting and parsing of [float64],
    and the library's encoding of a [[]ChannelType], whose element type
    is declared in another file. *)

Class Imports : Type := {
  (** [Snowflake.MarshalJSON] *)
  Snowflake_MarshalJSON : Snowflake -> option value;
  (** [Snowflake.UnmarshalJSON] on a document *)
  Snowflake_UnmarshalJSON : value -> option Snowflake;
  (** [Snowflake.UnmarshalJSON] on the content of a string, which is what
      a field tagged [,string] passes to it *)
  Snowflake_UnmarshalQuoted : string -> option Snowflake;
  (** [strconv.FormatFloat]; [None] for NaN and the infinities, which
      JSON cannot express *)
  FormatFloat : float64 -> option string;
  (** [strconv.ParseFloat] on a number literal *)
  ParseFloat : string -> option float64;
  (** a [[]ChannelType] that is not nil, as a document, and back *)
  ChannelTypes_encode : list ChannelType -> value;
  ChannelTypes_decode : value -> option (list ChannelType) }.

(* ----------------------------------------------------------------- *)
(** *** Encoding *)

Section Encode.
Context `{Imports}.
Local Open Scope result_scope.

Definition encodeUint (n : N) : result value := Ok (JNum (FormatUint n)).

(** A [string]: the library writes it with the bytes that are no valid
    UTF-8 replaced. *)
Definition encodeString (s : string) : value := JStr (toValidUTF8 s).

Definition encodeSnowflake (x : Snowflake) : result value :=
  match Snowflake_MarshalJSON x with
  | Some v => Ok v
  | None => Err MarshalerError
  end.

Definition encodeFloat (f : float64) : result value :=
  match FormatFloat f with
  | Some lit => Ok (JNum lit)
  | None => Err UnsupportedValueError
  end.

(** A choice struct: [name], then [value]. *)
Definition encodeChoice {V : Type} (encV : V -> result value) (c : Choice.t V)
    : result value :=
  v <- encV (Choice.Value c) ;;
  Ok (JObj [("name", encodeString (Choice.Name c)); ("value", v)]).

Definition encodeStringChoice : StringChoice -> result value :=
  encodeChoice (fun s => Ok (encodeString s)).
Definition encodeIntegerChoice : IntegerChoice -> result value :=
  encodeChoice (fun z => Ok (JNum (FormatInt z))).
Definition encodeBooleanChoice : BooleanChoice -> result value :=
  encodeChoice (fun b => Ok (JBool b)).
(** The value of a [UserChoice], [ChannelChoice], [RoleChoice] or
    [MentionableChoice] is written by its own [MarshalJSON]. *)
Definition encodeSnowflakeChoice : Choice.t Snowflake -> result value :=
  encodeChoice encodeSnowflake.
Definition encodeNumberChoice : NumberChoice -> result value :=
  encodeChoice encodeFloat.

(** [struct { Type CommandOptionType `json:"type"`; *raw }]: the
    discriminant first, then the fields of the option. *)
Definition StringOption_MarshalJSON (s : StringOption.t) : result value :=
  choices <- omitemptySlice "choices" encodeStringChoice (StringOption.Choices s) ;;
  Ok (JObj ([("type", JNum (FormatUint StringOptionType));
             ("name", encodeString (StringOption.OptionName s));
             ("description", encodeString (StringOption.Description s));
             ("required", JBool (StringOption.Required s))]
            ++ choices
            ++ [("autocomplete", JBool (StringOption.Autocomplete s))])).

Definition marshalValueOption {C : Type} (type : CommandOptionType)
    (encC : C -> result value) (o : ValueOption.t C) : result value :=
  choices <- omitemptySlice "choices" encC (ValueOption.Choices o) ;;
  Ok (JObj ([("type", JNum (FormatUint type));
             ("name", encodeString (ValueOption.OptionName o));
             ("description", encodeString (ValueOption.Description o));
             ("required", JBool (ValueOption.Required o))]
            ++ choices)).

Definition IntegerOption_MarshalJSON : IntegerOption -> result value :=
  marshalValueOption IntegerOptionType encodeIntegerChoice.
Definition BooleanOption_MarshalJSON : BooleanOption -> result value :=
  marshalValueOption BooleanOptionType encodeBooleanChoice.
Definition UserOption_MarshalJSON : UserOption -> result value :=
  marshalValueOption UserOptionType encodeSnowflakeChoice.

(** Modelled from the spec: the generated marshalers of [ChannelOption],
    [RoleOption], [MentionableOption] and [NumberOption] come after the
    six above in the generated part of the file; like them, each one
    injects its own fixed discriminant alongside its fields. *)
Definition ChannelOption_MarshalJSON (c : ChannelOption.t) : result value :=
  choices <- omitemptySlice "choices" encodeSnowflakeChoice (ChannelOption.Choices c) ;;
  Ok (JObj ([("type", JNum (FormatUint ChannelOptionType));
             ("name", encodeString (ChannelOption.OptionName c));
             ("description", encodeString (ChannelOption.Description c));
             ("required", JBool (ChannelOption.Required c))]
            ++ choices
            ++ match ChannelOption.ChannelTypes c with
               | None => []
               | Some [] => []
               | Some l => [("channel_types", ChannelTypes_encode l)]
               end)).
Definition RoleOption_MarshalJSON : RoleOption -> result value :=
  marshalValueOption RoleOptionType encodeSnowflakeChoice.
Definition MentionableOption_MarshalJSON : MentionableOption -> result value :=
  marshalValueOption MentionableOptionType encodeSnowflakeChoice.
Definition NumberOption_MarshalJSON : NumberOption -> result value :=
  marshalValueOption NumberOptionType encodeNumberChoice.

(** [UnknownCommandOption] declares no [MarshalJSON]: the library writes
    its exported fields, [name] and [type]; [raw] and [data] are not
    exported and are not written. *)
Definition UnknownCommandOption_Marshal (u : UnknownCommandOption.t) : result value :=
  Ok (JObj [("name", encodeString (UnknownCommandOption.OptionName u));
            ("type", JNum (FormatUint (UnknownCommandOption.OptionType u)))]).

(** [json.Marshal] of a [CommandOptionValue]: the method of the type the
    interface value holds. *)
Definition CommandOptionValue_Marshal (v : CommandOptionValue) : result value :=
  match v with
  | VString o => StringOption_MarshalJSON o
  | VInteger o => IntegerOption_MarshalJSON o
  | VBoolean o => BooleanOption_MarshalJSON o
  | VUser o => UserOption_MarshalJSON o
  | VChannel o => ChannelOption_MarshalJSON o
  | VRole o => RoleOption_MarshalJSON o
  | VMentionable o => MentionableOption_MarshalJSON o
  | VNumber o => NumberOption_MarshalJSON o
  | VUnknown u => UnknownCommandOption_Marshal u
  end.

Definition SubcommandOption_MarshalJSON (s : SubcommandOption.t) : result value :=
  options <- marshalSlice CommandOptionValue_Marshal (SubcommandOption.Options s) ;;
  Ok (JObj [("type", JNum (FormatUint SubcommandOptionType));
            ("name", encodeString (SubcommandOption.OptionName s));
            ("description", encodeString (SubcommandOption.Description s));
            ("required", JBool (SubcommandOption.Required s));
            ("options", options)]).

(** A [*SubcommandOption] element: [null] for a nil pointer. *)
Definition encodeSubcommandPtr (p : ptr SubcommandOption.t) : result value :=
  match p with
  | None => Ok JNull
  | Some s => SubcommandOption_MarshalJSON s
  end.

Definition SubcommandGroupOption_MarshalJSON (s : SubcommandGroupOption.t)
    : result value :=
  options <- marshalSlice encodeSubcommandPtr (SubcommandGroupOption.Subcommands s) ;;
  Ok (JObj [("type", JNum (FormatUint SubcommandGroupOptionType));
            ("name", encodeString (SubcommandGroupOption.OptionName s));
            ("description", encodeString (SubcommandGroupOption.Description s));
            ("required", JBool (SubcommandGroupOption.Required s));
            ("options", options)]).

(** [json.Marshal] of a [CommandOption]. *)
Definition CommandOption_Marshal (o : CommandOption) : result value :=
  match o with
  | OSubcommand s => SubcommandOption_MarshalJSON s
  | OSubcommandGroup g => SubcommandGroupOption_MarshalJSON g
  | OValue v => CommandOptionValue_Marshal v
  end.

(** [Command.MarshalJSON]: the fields of [RawCommand], then
    [default_permission]. *)
Definition Command_MarshalJSON (c : Command.t) : result value :=
  let DefaultPermission := negb (Command.NoDefaultPermission c) in
  id <- encodeSnowflake (Command.ID c) ;;
  type <- omitemptyN "type" encodeUint (Command.Type_ c) ;;
  application_id <- encodeSnowflake (Command.AppID c) ;;
  guild_id <- omitemptyN "guild_id" encodeSnowflake (Command.GuildID c) ;;
  options <- omitemptySlice "options" CommandOption_Marshal (Command.Options c) ;;
  version <- omitemptyN "version" encodeSnowflake (Command.Version c) ;;
  Ok (JObj ([("id", id)]
            ++ type
            ++ [("application_id", application_id)]
            ++ guild_id
            ++ [("name", encodeString (Command.Name c));
                ("description", encodeString (Command.Description c))]
            ++ options
            ++ version
            ++ [("default_permission", JBool DefaultPermission)])).

End Encode.

(* ----------------------------------------------------------------- *)
(** *** Decoding *)

(** An [UnknownCommandOption] after [UnmarshalJSON]: its fields, and
    what its [data] field holds.  When the type is not known [data] is
    the option itself, [OValue (VUnknown header)]. *)
Record Decoded : Type := mkDecoded {
  header : UnknownCommandOption.t;
  data : CommandOption }.

(** [UnknownCommandOption.Raw] and [UnknownCommandOption.Data]. *)
Definition UnknownCommandOption_Raw (u : Decoded) : Raw :=
  UnknownCommandOption.raw (header u).
Definition UnknownCommandOption_Data (u : Decoded) : CommandOption := data u.

Section Decode.
Context `{Imports}.
Local Open Scope dec_scope.

Definition decodeFloat (v : value) (old : float64) : dec float64 :=
  match v with
  | JNull => Done old
  | JNum lit =>
      match ParseFloat lit with
      | Some f => Done f
      | None => Saved (UnmarshalTypeError ("number " ++ lit) "float64") old
      end
  | _ => Saved (UnmarshalTypeError (kind v) "float64") old
  end.

(** A snowflake field: its [UnmarshalJSON] is given the document,
    whatever it is. *)
Definition decodeSnowflake (v : value) (old : Snowflake) : dec Snowflake :=
  match Snowflake_UnmarshalJSON v with
  | Some x => Done x
  | None => Abort SnowflakeError
  end.

(** A snowflake field tagged [,string]: a string hands its content to
    [UnmarshalJSON], [null] hands it [null], anything else is an invalid
    use of the tag. *)
Definition decodeSnowflakeString (v : value) (old : Snowflake) : dec Snowflake :=
  match v with
  | JNull =>
      match Snowflake_UnmarshalJSON JNull with
      | Some x => Done x
      | None => Abort SnowflakeError
      end
  | JStr EmptyString => Saved InvalidStringTag old
  | JStr s =>
      match Snowflake_UnmarshalQuoted s with
      | Some x => Done x
      | None => Abort SnowflakeError
      end
  | _ => Saved InvalidStringTag old
  end.

Definition decodeChannelTypes (v : value) (old : slice ChannelType)
    : dec (slice ChannelType) :=
  match v with
  | JNull => Done None
  | _ =>
      match ChannelTypes_decode v with
      | Some l => Done (Some l)
      | None => Saved (UnmarshalTypeError (kind v) "[]discord.ChannelType") old
      end
  end.

Definition Choice_field {V : Type} (decV : value -> V -> dec V)
    (k : string) (v : value) (c : Choice.t V) : dec (Choice.t V) :=
  if EqualFold k "name" then
    x <- decodeString v (Choice.Name c) ;; Done (Choice.mk x (Choice.Value c))
  else if EqualFold k "value" then
    x <- decV v (Choice.Value c) ;; Done (Choice.mk (Choice.Name c) x)
  else Done c.

Definition decodeChoice {V : Type} (decV : value -> V -> dec V) (zero : V)
    (v : value) : dec (Choice.t V) :=
  decodeObject (Choice_field decV) v (Choice.mk "" zero).

Definition decodeStringChoice : value -> dec StringChoice :=
  decodeChoice decodeString "".
Definition decodeIntegerChoice : value -> dec IntegerChoice :=
  decodeChoice decodeInt 0%Z.
Definition decodeBooleanChoice : value -> dec BooleanChoice :=
  decodeChoice decodeBool false.
Definition decodeSnowflakeChoice : value -> dec (Choice.t Snowflake) :=
  decodeChoice decodeSnowflakeString 0%N.
Definition decodeNumberChoice : value -> dec NumberChoice :=
  decodeChoice decodeFloat (FZero false).

Definition StringOption_field (k : string) (v : value) (o : StringOption.t)
    : dec StringOption.t :=
  let '(StringOption.mk n d r c a) := o in
  if EqualFold k "name" then
    x <- decodeString v n ;; Done (StringOption.mk x d r c a)
  else if EqualFold k "description" then
    x <- decodeString v d ;; Done (StringOption.mk n x r c a)
  else if EqualFold k "required" then
    x <- decodeBool v r ;; Done (StringOption.mk n d x c a)
  else if EqualFold k "choices" then
    x <- decodeSlice decodeStringChoice v c ;; Done (StringOption.mk n d r x a)
  else if EqualFold k "autocomplete" then
    x <- decodeBool v a ;; Done (StringOption.mk n d r c x)
  else Done o.

Definition ChannelOption_field (k : string) (v : value) (o : ChannelOption.t)
    : dec ChannelOption.t :=
  let '(ChannelOption.mk n d r c t) := o in
  if EqualFold k "name" then
    x <- decodeString v n ;; Done (ChannelOption.mk x d r c t)
  else if EqualFold k "description" then
    x <- decodeString v d ;; Done (ChannelOption.mk n x r c t)
  else if EqualFold k "required" then
    x <- decodeBool v r ;; Done (ChannelOption.mk n d x c t)
  else if EqualFold k "choices" then
    x <- decodeSlice decodeSnowflakeChoice v c ;; Done (ChannelOption.mk n d r x t)
  else if EqualFold k "channel_types" then
    x <- decodeChannelTypes v t ;; Done (ChannelOption.mk n d r c x)
  else Done o.

Definition ValueOption_field {C : Type} (decC : value -> dec C)
    (k : string) (v : value) (o : ValueOption.t C) : dec (ValueOption.t C) :=
  let '(ValueOption.mk n d r c) := o in
  if EqualFold k "name" then
    x <- decodeString v n ;; Done (ValueOption.mk x d r c)
  else if EqualFold k "description" then
    x <- decodeString v d ;; Done (ValueOption.mk n x r c)
  else if EqualFold k "required" then
    x <- decodeBool v r ;; Done (ValueOption.mk n d x c)
  else if EqualFold k "choices" then
    x <- decodeSlice decC v c ;; Done (ValueOption.mk n d r x)
  else Done o.

(** [type unknown UnknownCommandOption]: [name] and [type]. *)
Definition unknown_field (k : string) (v : value) (u : UnknownCommandOption.t)
    : dec UnknownCommandOption.t :=
  let '(UnknownCommandOption.mk n t raw) := u in
  if EqualFold k "name" then
    x <- decodeString v n ;; Done (UnknownCommandOption.mk x t raw)
  else if EqualFold k "type" then
    x <- decodeUint v t ;; Done (UnknownCommandOption.mk n x raw)
  else Done u.

(** The local struct [opt] of [SubcommandOption.UnmarshalJSON]: the
    embedded [*raw], which points to the receiver, with [Type] and
    [Options]; its member [options] hides the one of [raw]. *)
Record subcommandOpt : Type := mkSubcommandOpt {
  opt_raw : SubcommandOption.t;
  opt_Type : CommandOptionType;
  opt_Options : slice Decoded }.

Definition subcommandOpt_field (elem : value -> dec Decoded)
    (k : string) (v : value) (o : subcommandOpt) : dec subcommandOpt :=
  let '(mkSubcommandOpt (SubcommandOption.mk n d r c) t os) := o in
  if EqualFold k "name" then
    x <- decodeString v n ;;
    Done (mkSubcommandOpt (SubcommandOption.mk x d r c) t os)
  else if EqualFold k "description" then
    x <- decodeString v d ;;
    Done (mkSubcommandOpt (SubcommandOption.mk n x r c) t os)
  else if EqualFold k "required" then
    x <- decodeBool v r ;;
    Done (mkSubcommandOpt (SubcommandOption.mk n d x c) t os)
  else if EqualFold k "type" then
    x <- decodeUint v t ;;
    Done (mkSubcommandOpt (SubcommandOption.mk n d r c) x os)
  else if EqualFold k "options" then
    x <- decodeSlice elem v os ;;
    Done (mkSubcommandOpt (SubcommandOption.mk n d r c) t x)
  else Done o.

(** The loop of [SubcommandOption.UnmarshalJSON] over [opt.Options]:
    the first element whose [data] is not a [CommandOptionValue] ends
    it with a [commandTypeCheckError]. *)
Fixpoint checkOptionValues (opts : list Decoded) : result (list CommandOptionValue) :=
  match opts with
  | [] => Ok []
  | opt :: rest =>
      match asCommandOptionValue (data opt) with
      | None =>
          Err (commandTypeCheckError
                 (UnknownCommandOption.OptionName (header opt)) (data opt)
                 "CommandOptionValue")
      | Some ov => rbind (checkOptionValues rest) (fun ovs => Ok (ov :: ovs))
      end
  end.

(** [SubcommandOption.UnmarshalJSON], given the decoder of the elements
    of [opt.Options] (which is [UnknownCommandOption.UnmarshalJSON]). *)
Definition SubcommandOption_UnmarshalJSON_with (elem : value -> dec Decoded)
    (b : value) (s : SubcommandOption.t) : result SubcommandOption.t :=
  match Unmarshal (decodeObject (subcommandOpt_field elem) b
                     (mkSubcommandOpt s 0%N None)) with
  | Err err => Err err
  | Ok opt =>
      if negb (opt_Type opt =? SubcommandOptionType)%N then
        Err (Errorf ("unexpected (not SubcommandOption) type "
                     ++ FormatUint SubcommandOptionType))
      else
        match checkOptionValues (match opt_Options opt with
                                 | None => []
                                 | Some l => l
                                 end) with
        | Err err => Err err
        | Ok ovs =>
            let s' := opt_raw opt in
            Ok (SubcommandOption.mk (SubcommandOption.OptionName s')
                  (SubcommandOption.Description s')
                  (SubcommandOption.Required s') (Some ovs))
        end
  end.

(** An element of [[]*SubcommandOption]: [null] gives a nil pointer,
    any other document goes to the [UnmarshalJSON] of a new
    [SubcommandOption]. *)
Definition decodeSubcommandPtr (elem : value -> dec Decoded) (v : value)
    : dec (ptr SubcommandOption.t) :=
  match v with
  | JNull => Done None
  | _ =>
      match SubcommandOption_UnmarshalJSON_with elem v SubcommandOption.zero with
      | Ok s => Done (Some s)
      | Err err => Abort err
      end
  end.

Definition SubcommandGroupOption_field (elem : value -> dec Decoded)
    (k : string) (v : value) (o : SubcommandGroupOption.t)
    : dec SubcommandGroupOption.t :=
  let '(SubcommandGroupOption.mk n d r c) := o in
  if EqualFold k "name" then
    x <- decodeString v n ;; Done (SubcommandGroupOption.mk x d r c)
  else if EqualFold k "description" then
    x <- decodeString v d ;; Done (SubcommandGroupOption.mk n x r c)
  else if EqualFold k "required" then
    x <- decodeBool v r ;; Done (SubcommandGroupOption.mk n d x c)
  else if EqualFold k "options" then
    x <- decodeSlice (decodeSubcommandPtr elem) v c ;;
    Done (SubcommandGroupOption.mk n d r x)
  else Done o.

(** The second parse of [UnknownCommandOption.UnmarshalJSON]:
    [json.Unmarshal(b, u.data)] into a new option of the type that was
    found, its error wrapped with the type. *)
Definition unmarshalData {A : Type} (u : UnknownCommandOption.t)
    (inject : A -> CommandOption) (r : result A) : result Decoded :=
  match r with
  | Ok a => Ok (mkDecoded u (inject a))
  | Err err =>
      Err (Wrap err ("failed to unmarshal type "
                     ++ FormatUint (UnknownCommandOption.OptionType u)))
  end.

Definition unmarshalValueOption {C : Type} (decC : value -> dec C) (b : value)
    : result (ValueOption.t C) :=
  Unmarshal (decodeObject (ValueOption_field decC) b ValueOption.zero).

Fixpoint UnknownCommandOption_UnmarshalJSON (b : value) (u : UnknownCommandOption.t)
    {struct b} : result Decoded :=
  match Unmarshal (decodeObject unknown_field b u) with
  | Err err => Err (Wrap err "failed to unmarshal unknown")
  | Ok u =>
      let elem := fun v : value =>
        callUnmarshaler
          (UnknownCommandOption_UnmarshalJSON v UnknownCommandOption.zero) in
      let type := UnknownCommandOption.OptionType u in
      if (type =? SubcommandOptionType)%N then
        unmarshalData u OSubcommand
          (SubcommandOption_UnmarshalJSON_with elem b SubcommandOption.zero)
      else if (type =? SubcommandGroupOptionType)%N then
        unmarshalData u OSubcommandGroup
          (Unmarshal (decodeObject (SubcommandGroupOption_field elem) b
                        SubcommandGroupOption.zero))
      else if (type =? StringOptionType)%N then
        unmarshalData u (fun o => OValue (VString o))
          (Unmarshal (decodeObject StringOption_field b StringOption.zero))
      else if (type =? IntegerOptionType)%N then
        unmarshalData u (fun o => OValue (VInteger o))
          (unmarshalValueOption decodeIntegerChoice b)
      else if (type =? BooleanOptionType)%N then
        unmarshalData u (fun o => OValue (VBoolean o))
          (unmarshalValueOption decodeBooleanChoice b)
      else if (type =? UserOptionType)%N then
        unmarshalData u (fun o => OValue (VUser o))
          (unmarshalValueOption decodeSnowflakeChoice b)
      else if (type =? ChannelOptionType)%N then
        unmarshalData u (fun o => OValue (VChannel o))
          (Unmarshal (decodeObject ChannelOption_field b ChannelOption.zero))
      else if (type =? RoleOptionType)%N then
        unmarshalData u (fun o => OValue (VRole o))
          (unmarshalValueOption decodeSnowflakeChoice b)
      else if (type =? MentionableOptionType)%N then
        unmarshalData u (fun o => OValue (VMentionable o))
          (unmarshalValueOption decodeSnowflakeChoice b)
      else if (type =? NumberOptionType)%N then
        unmarshalData u (fun o => OValue (VNumber o))
          (unmarshalValueOption decodeNumberChoice b)
      else
        let u' := UnknownCommandOption.mk (UnknownCommandOption.OptionName u)
                    type (Some b) in
        Ok (mkDecoded u' (OValue (VUnknown u')))
  end.

(** An element of a [[]UnknownCommandOption]. *)
Definition decodeUnknown (v : value) : dec Decoded :=
  callUnmarshaler (UnknownCommandOption_UnmarshalJSON v UnknownCommandOption.zero).

Definition SubcommandOption_UnmarshalJSON
    : value -> SubcommandOption.t -> result SubcommandOption.t :=
  SubcommandOption_UnmarshalJSON_with decodeUnknown.

Definition CommandOptions_UnmarshalJSON (b : value) : result CommandOptions :=
  match Unmarshal (decodeSlice decodeUnknown b None) with
  | Err err => Err err
  | Ok unknowns =>
      if (len unknowns =? 0)%nat then Ok None
      else Ok (Some (map data (match unknowns with
                               | None => []
                               | Some l => l
                               end)))
  end.

(** The local struct [cmd] of [Command.UnmarshalJSON]: the embedded
    [*rawCommand], which points to the receiver, and
    [DefaultPermission]. *)
Record rawCmd : Type := mkRawCmd {
  cmd_raw : Command.t;
  cmd_DefaultPermission : bool }.

Definition cmd_field (k : string) (v : value) (cmd : rawCmd) : dec rawCmd :=
  let '(mkRawCmd (Command.mk id type app guild name desc opts nodef version) dp) := cmd in
  if EqualFold k "id" then
    x <- decodeSnowflake v id ;;
    Done (mkRawCmd (Command.mk x type app guild name desc opts nodef version) dp)
  else if EqualFold k "type" then
    x <- decodeUint v type ;;
    Done (mkRawCmd (Command.mk id x app guild name desc opts nodef version) dp)
  else if EqualFold k "application_id" then
    x <- decodeSnowflake v app ;;
    Done (mkRawCmd (Command.mk id type x guild name desc opts nodef version) dp)
  else if EqualFold k "guild_id" then
    x <- decodeSnowflake v guild ;;
    Done (mkRawCmd (Command.mk id type app x name desc opts nodef version) dp)
  else if EqualFold k "name" then
    x <- decodeString v name ;;
    Done (mkRawCmd (Command.mk id type app guild x desc opts nodef version) dp)
  else if EqualFold k "description" then
    x <- decodeString v desc ;;
    Done (mkRawCmd (Command.mk id type app guild name x opts nodef version) dp)
  else if EqualFold k "options" then
    x <- callUnmarshaler (CommandOptions_UnmarshalJSON v) ;;
    Done (mkRawCmd (Command.mk id type app guild name desc x nodef version) dp)
  else if EqualFold k "version" then
    x <- decodeSnowflake v version ;;
    Done (mkRawCmd (Command.mk id type app guild name desc opts nodef x) dp)
  else if EqualFold k "default_permission" then
    x <- decodeBool v dp ;;
    Done (mkRawCmd (Command.mk id type app guild name desc opts nodef version) x)
  else Done cmd.

Definition Command_UnmarshalJSON (data : value) (c : Command.t) : result Command.t :=
  match Unmarshal (decodeObject cmd_field data (mkRawCmd c false)) with
  | Err err => Err err
  | Ok cmd =>
      let '(Command.mk id type app guild name desc opts _ version) := cmd_raw cmd in
      let nodef := negb (cmd_DefaultPermission cmd) in
      let type := if (type =? 0)%N then ChatInputCommand else type in
      Ok (Command.mk id type app guild name desc opts nodef version)
  end.

End Decode.

(* ----------------------------------------------------------------- *)
(** *** Trees that are written and read back unchanged *)

Definition float64_eqb (f g : float64) : bool :=
  match f, g with
  | FZero s, FZero s' => Bool.eqb s s'
  | FInf s, FInf s' => Bool.eqb s s'
  | FNaN, FNaN => true
  | FFinite s m e, FFinite s' m' e' => Bool.eqb s s' && Pos.eqb m m' && Z.eqb e e'
  | _, _ => false
  end.

Fixpoint list_eqb {A : Type} (eqb : A -> A -> bool) (l l' : list A) : bool :=
  match l, l' with
  | [], [] => true
  | x :: r, x' :: r' => eqb x x' && list_eqb eqb r r'
  | _, _ => false
  end.

(** Built from the ten known types only. *)
Definition knownValue (v : CommandOptionValue) : bool :=
  match v with
  | VUnknown _ => false
  | _ => true
  end.

Definition knownSubcommand (s : SubcommandOption.t) : bool :=
  forallb knownValue (elements (SubcommandOption.Options s)).

Definition known (o : CommandOption) : bool :=
  match o with
  | OSubcommand s => knownSubcommand s
  | OSubcommandGroup g =>
      forallb (fun p : ptr SubcommandOption.t =>
                 match p with
                 | None => true
                 | Some s => knownSubcommand s
                 end)
              (elements (SubcommandGroupOption.Subcommands g))
  | OValue v => knownValue v
  end.

(** The slices are as the decoder leaves them: the options of a subcommand
    are not nil (the decoder makes the slice, even for no element), and a
    slice tagged [omitempty] is nil or has an element. *)
Definition canonicalValue (v : CommandOptionValue) : bool :=
  match v with
  | VString o => nilOrNonEmpty (StringOption.Choices o)
  | VInteger o => nilOrNonEmpty (ValueOption.Choices o)
  | VBoolean o => nilOrNonEmpty (ValueOption.Choices o)
  | VUser o => nilOrNonEmpty (ValueOption.Choices o)
  | VChannel o =>
      nilOrNonEmpty (ChannelOption.Choices o)
      && nilOrNonEmpty (ChannelOption.ChannelTypes o)
  | VRole o => nilOrNonEmpty (ValueOption.Choices o)
  | VMentionable o => nilOrNonEmpty (ValueOption.Choices o)
  | VNumber o => nilOrNonEmpty (ValueOption.Choices o)
  | VUnknown _ => true
  end.

Definition canonicalSubcommand (s : SubcommandOption.t) : bool :=
  match SubcommandOption.Options s with
  | None => false
  | Some l => forallb canonicalValue l
  end.

Definition canonical (o : CommandOption) : bool :=
  match o with
  | OSubcommand s => canonicalSubcommand s
  | OSubcommandGroup g =>
      forallb (fun p : ptr SubcommandOption.t =>
                 match p with
                 | None => true
                 | Some s => canonicalSubcommand s
                 end)
              (elements (SubcommandGroupOption.Subcommands g))
  | OValue v => canonicalValue v
  end.

Section Portable.
Context `{Imports}.

(** The values whose codec is not in this file are written by it and read
    back by it as they were; an [int] is within its 64 bits. *)
Definition portableSnowflake (x : Snowflake) : bool :=
  match Snowflake_MarshalJSON x with
  | Some v =>
      match decodeSnowflakeString v 0%N with
      | Done y => N.eqb y x
      | _ => false
      end
  | None => false
  end.

Definition portableFloat (f : float64) : bool :=
  match FormatFloat f with
  | Some lit =>
      match ParseFloat lit with
      | Some g => float64_eqb g f
      | None => false
      end
  | None => false
  end.

Definition portableChannelTypes (l : list ChannelType) : bool :=
  match ChannelTypes_encode l with
  | JNull => false
  | v =>
      match ChannelTypes_decode v with
      | Some l' => list_eqb N.eqb l' l
      | None => false
      end
  end.

Definition portableChoices {V : Type} (ok : V -> bool) (s : slice (Choice.t V)) : bool :=
  forallb (fun c => ok (Choice.Value c)) (elements s).

Definition portableValue (v : CommandOptionValue) : bool :=
  match v with
  | VString _ => true
  | VInteger o => portableChoices is_int (ValueOption.Choices o)
  | VBoolean _ => true
  | VUser o => portableChoices portableSnowflake (ValueOption.Choices o)
  | VChannel o =>
      portableChoices portableSnowflake (ChannelOption.Choices o)
      && forallb portableChannelTypes
           (match ChannelOption.ChannelTypes o with
            | None => []
            | Some l => [l]
            end)
  | VRole o => portableChoices portableSnowflake (ValueOption.Choices o)
  | VMentionable o => portableChoices portableSnowflake (ValueOption.Choices o)
  | VNumber o => portableChoices portableFloat (ValueOption.Choices o)
  | VUnknown _ => true
  end.

Definition portableSubcommand (s : SubcommandOption.t) : bool :=
  forallb portableValue (elements (SubcommandOption.Options s)).

Definition portable (o : CommandOption) : bool :=
  match o with
  | OSubcommand s => portableSubcommand s
  | OSubcommandGroup g =>
      forallb (fun p : ptr SubcommandOption.t =>
                 match p with
                 | None => true
                 | Some s => portableSubcommand s
                 end)
              (elements (SubcommandGroupOption.Subcommands g))
  | OValue v => portableValue v
  end.

(** A snowflake in a field without the [,string] tag. *)
Definition portableID (x : Snowflake) : bool :=
  match Snowflake_MarshalJSON x with
  | Some v =>
      match Snowflake_UnmarshalJSON v with
      | Some y => N.eqb y x
      | None => false
      end
  | None => false
  end.

(** A command that is written and read back: its identifiers and its type
    pass through their codecs, and its options are as above. *)
Definition portableCommand (c : Command.t) : bool :=
  portableID (Command.ID c)
  && portableID (Command.AppID c)
  && ((Command.GuildID c =? 0)%N || portableID (Command.GuildID c))
  && ((Command.Version c =? 0)%N || portableID (Command.Version c))
  && is_uint (Command.Type_ c)
  && nilOrNonEmpty (Command.Options c)
  && forallb (fun o => known o && canonical o && portable o)
       (elements (Command.Options c)).

(** [Command.UnmarshalJSON] sets a type that is 0 to [ChatInputCommand]. *)
Definition withDefaultType (c : Command.t) : Command.t :=
  Command.mk (Command.ID c)
    (if (Command.Type_ c =? 0)%N then ChatInputCommand else Command.Type_ c)
    (Command.AppID c) (Command.GuildID c) (Command.Name c) (Command.Description c)
    (Command.Options c) (Command.NoDefaultPermission c) (Command.Version c).

End Portable.

(** A tree as it is read back after it was written: every string with
    the bytes that are no valid UTF-8 replaced, as [encodeString] writes
    it; [norm] is what becomes of the value of a choice. *)
Definition utf8Choice {V : Type} (norm : V -> V) (c : Choice.t V) : Choice.t V :=
  Choice.mk (toValidUTF8 (Choice.Name c)) (norm (Choice.Value c)).

Definition utf8Choices {V : Type} (norm : V -> V) (s : slice (Choice.t V))
    : slice (Choice.t V) :=
  match s with
  | None => None
  | Some l => Some (map (utf8Choice norm) l)
  end.

Definition utf8ValueOption {V : Type} (o : ValueOption.t (Choice.t V))
    : ValueOption.t (Choice.t V) :=
  ValueOption.mk (toValidUTF8 (ValueOption.OptionName o))
    (toValidUTF8 (ValueOption.Description o)) (ValueOption.Required o)
    (utf8Choices (fun v => v) (ValueOption.Choices o)).

Definition utf8Value (v : CommandOptionValue) : CommandOptionValue :=
  match v with
  | VString o =>
      VString (StringOption.mk (toValidUTF8 (StringOption.OptionName o))
                 (toValidUTF8 (StringOption.Description o)) (StringOption.Required o)
                 (utf8Choices toValidUTF8 (StringOption.Choices o))
                 (StringOption.Autocomplete o))
  | VInteger o => VInteger (utf8ValueOption o)
  | VBoolean o => VBoolean (utf8ValueOption o)
  | VUser o => VUser (utf8ValueOption o)
  | VChannel o =>
      VChannel (ChannelOption.mk (toValidUTF8 (ChannelOption.OptionName o))
                  (toValidUTF8 (ChannelOption.Description o)) (ChannelOption.Required o)
                  (utf8Choices (fun v => v) (ChannelOption.Choices o))
                  (ChannelOption.ChannelTypes o))
  | VRole o => VRole (utf8ValueOption o)
  | VMentionable o => VMentionable (utf8ValueOption o)
  | VNumber o => VNumber (utf8ValueOption o)
  | VUnknown u =>
      VUnknown (UnknownCommandOption.mk (toValidUTF8 (UnknownCommandOption.OptionName u))
                  (UnknownCommandOption.OptionType u) (UnknownCommandOption.raw u))
  end.

Definition utf8Subcommand (s : SubcommandOption.t) : SubcommandOption.t :=
  SubcommandOption.mk (toValidUTF8 (SubcommandOption.OptionName s))
    (toValidUTF8 (SubcommandOption.Description s)) (SubcommandOption.Required s)
    (match SubcommandOption.Options s with
     | None => None
     | Some l => Some (map utf8Value l)
     end).

Definition utf8SubcommandPtr (p : ptr SubcommandOption.t) : ptr SubcommandOption.t :=
  match p with
  | None => None
  | Some s => Some (utf8Subcommand s)
  end.

Definition utf8Option (o : CommandOption) : CommandOption :=
  match o with
  | OSubcommand s => OSubcommand (utf8Subcommand s)
  | OSubcommandGroup g =>
      OSubcommandGroup
        (SubcommandGroupOption.mk (toValidUTF8 (SubcommandGroupOption.OptionName g))
           (toValidUTF8 (SubcommandGroupOption.Description g))
           (SubcommandGroupOption.Required g)
           (match SubcommandGroupOption.Subcommands g with
            | None => None
            | Some l => Some (map utf8SubcommandPtr l)
            end))
  | OValue v => OValue (utf8Value v)
  end.

Definition utf8Command (c : Command.t) : Command.t :=
  Command.mk (Command.ID c) (Command.Type_ c) (Command.AppID c) (Command.GuildID c)
    (toValidUTF8 (Command.Name c)) (toValidUTF8 (Command.Description c))
    (match Command.Options c with
     | None => None
     | Some l => Some (map utf8Option l)
     end)
    (Command.NoDefaultPermission c) (Command.Version c).

(** The strings of a tree are valid UTF-8: names, descriptions, the names
    of choices and the values of string choices. *)
Definition validChoices {V : Type} (ok : V -> bool) (s : slice (Choice.t V)) : bool :=
  forallb (fun c => ValidString (Choice.Name c) && ok (Choice.Value c)) (elements s).

Definition validValueOption {V : Type} (o : ValueOption.t (Choice.t V)) : bool :=
  ValidString (ValueOption.OptionName o) && ValidString (ValueOption.Description o)
  && validChoices (fun _ => true) (ValueOption.Choices o).

Definition validValue (v : CommandOptionValue) : bool :=
  match v with
  | VString o =>
      ValidString (StringOption.OptionName o) && ValidString (StringOption.Description o)
      && validChoices ValidString (StringOption.Choices o)
  | VInteger o => validValueOption o
  | VBoolean o => validValueOption o
  | VUser o => validValueOption o
  | VChannel o =>
      ValidString (ChannelOption.OptionName o)
      && ValidString (ChannelOption.Description o)
      && validChoices (fun _ => true) (ChannelOption.Choices o)
  | VRole o => validValueOption o
  | VMentionable o => validValueOption o
  | VNumber o => validValueOption o
  | VUnknown u => ValidString (UnknownCommandOption.OptionName u)
  end.

Definition validSubcommand (s : SubcommandOption.t) : bool :=
  ValidString (SubcommandOption.OptionName s)
  && ValidString (SubcommandOption.Description s)
  && forallb validValue (elements (SubcommandOption.Options s)).

Definition validStrings (o : CommandOption) : bool :=
  match o with
  | OSubcommand s => validSubcommand s
  | OSubcommandGroup g =>
      ValidString (SubcommandGroupOption.OptionName g)
      && ValidString (SubcommandGroupOption.Description g)
      && forallb (fun p : ptr SubcommandOption.t =>
                    match p with
                    | None => true
                    | Some s => validSubcommand s
                    end)
                 (elements (SubcommandGroupOption.Subcommands g))
  | OValue v => validValue v
  end.

Definition validCommand (c : Command.t) : bool :=
  ValidString (Command.Name c) && ValidString (Command.Description c)
  && forallb validStrings (elements (Command.Options c)).

(** A value codec that writes the values accepted by [ok] and reads them
    back as [norm] makes them. *)
Definition codecTo {V : Type} (encV : V -> result value) (decV : value -> V -> dec V)
    (ok : V -> bool) (norm : V -> V) : Prop :=
  forall v, ok v = true -> exists j, encV v = Ok j /\ forall old, decV j old = Done (norm v).

(** A value codec that writes the values accepted by [ok] and reads them
    back. *)
Definition codecOk {V : Type} (encV : V -> result value) (decV : value -> V -> dec V)
    (ok : V -> bool) : Prop :=
  forall v, ok v = true -> exists j, encV v = Ok j /\ forall old, decV j old = Done v.

(** A property of the destination that holds as far as a decoding got:
    at its end, or where it recorded an error and went on. *)
Definition reached {A : Type} (P : A -> Prop) (m : dec A) : Prop :=
  match m with
  | Done a => P a
  | Saved _ a => P a
  | Abort _ => True
  end.

(** What a field of type [uint], and one of type [bool], take from a
    document that is not [null]. *)
Definition readUint (x : value) : option N :=
  match x with
  | JNum lit => ParseUint lit
  | _ => None
  end.

Definition readBool (x : value) : option bool :=
  match x with
  | JBool b => Some b
  | _ => None
  end.

(** A member of a wire option that the first parse of
    [UnknownCommandOption.UnmarshalJSON] takes without error: a [name] that
    is a string, a [type] that is a number a [uint] holds (or [null] for
    either), or any member of another name. *)
Definition headerOk (kv : string * value) : bool :=
  let '(k, v) := kv in
  if EqualFold k "name" then
    match v with
    | JNull => true
    | JStr _ => true
    | _ => false
    end
  else if EqualFold k "type" then
    match v with
    | JNull => true
    | _ => match readUint v with
           | Some _ => true
           | None => false
           end
    end
  else true.

(** The discriminant and the name a wire option carries; 0 and the empty
    string when it has no such member. *)
Definition wireType (members : list (string * value)) : CommandOptionType :=
  match scalarMember "type" members with
  | Some x => match readUint x with
              | Some n => n
              | None => 0%N
              end
  | None => 0%N
  end.

Definition wireName (members : list (string * value)) : string :=
  match scalarMember "name" members with
  | Some (JStr s) => s
  | _ => ""
  end.

(** The types the [switch] of [UnknownCommandOption.UnmarshalJSON] has a
    case for: 1 to 10. *)
Definition recognized (type : CommandOptionType) : bool :=
  (1 <=? type)%N && (type <? maxOptionType)%N.


(** What [UnknownCommandOption.UnmarshalJSON] leaves for an option of a
    known type: its name and type, no raw bytes, and the option. *)
Definition decodedAs (o : CommandOption) : Decoded :=
  mkDecoded (UnknownCommandOption.mk (CommandOption_Name o) (CommandOption_Type o) None) o.







(** The member names of a command wire object: the tags of [Command]'s
    fields (all but [NoDefaultPermission], tagged ["-"]) and of
    [DefaultPermission]. *)
Definition commandTags : list string :=
  ["id"; "type"; "application_id"; "guild_id"; "name"; "description"; "options";
   "version"; "default_permission"].

Definition matchesNone (k : string) (tags : list string) : bool :=
  forallb (fun tag => negb (EqualFold k tag)) tags.

(** The options written by the marshalers from [SubcommandOption]'s to
    [UserOption]'s, and by the library for an [UnknownCommandOption]. *)
Definition listedValue (v : CommandOptionValue) : bool :=
  match v with
  | VChannel _ => false
  | VRole _ => false
  | VMentionable _ => false
  | VNumber _ => false
  | _ => true
  end.

Definition listed (o : CommandOption) : bool :=
  match o with
  | OSubcommand s => forallb listedValue (elements (SubcommandOption.Options s))
  | OSubcommandGroup g =>
      forallb (fun p : ptr SubcommandOption.t =>
                 match p with
                 | None => true
                 | Some s => forallb listedValue (elements (SubcommandOption.Options s))
                 end)
              (elements (SubcommandGroupOption.Subcommands g))
  | OValue v => listedValue v
  end.

(** What a field of type [string] takes from a document that is not
    [null]. *)
Definition readString (x : value) : option string :=
  match x with
  | JStr s => Some s
  | _ => None
  end.

(** The subcommands of a tree have an options slice that is not nil. *)
Definition optionsMade (o : CommandOption) : Prop :=
  match o with
  | OSubcommand s => SubcommandOption.Options s <> None
  | OSubcommandGroup g =>
      Forall (fun p : ptr SubcommandOption.t =>
                match p with
                | None => True
                | Some s => SubcommandOption.Options s <> None
                end)
             (elements (SubcommandGroupOption.Subcommands g))
  | OValue _ => True
  end.

End discord.

(* ================================================================= *)
(** ** Errors of the connection and session code *)

Module errors.

(** An error value: one made by [errors.New], a websocket close error
    (status code and reason), or one made by [errors.Wrap]. *)
Inductive error : Type :=
| New (msg : string)
| CloseError (code : Z) (reason : string)
| Wrap (cause : error) (msg : string).

(** The [Error] method. *)
Fixpoint Error (e : error) : string :=
  match e with
  | New msg => msg
  | CloseError code reason =>
      "status = " ++ json.FormatInt code ++ " and reason = " ++ reason
  | Wrap cause msg => msg ++ ": " ++ Error cause
  end.

End errors.

(* ================================================================= *)
(** ** package wsutil: the default websocket connection *)

Module wsutil.
Import golang errors.

Definition WSBuffer : nat := 12.
Definition WSReadLimit : Z := 8192000%Z.

Definition StatusCode : Type := Z.
Definition StatusNormalClosure : StatusCode := 1000%Z.
Definition StatusProtocolError : StatusCode := 1002%Z.

(** [websocket.CloseStatus]: the code of the close error found in the
    chain of [err], -1 when there is none. *)
Fixpoint CloseStatus (err : error) : StatusCode :=
  match err with
  | New _ => (-1)%Z
  | CloseError code _ => code
  | Wrap cause _ => CloseStatus cause
  end.

Inductive MessageType : Type := MessageText | MessageBinary.

(** What the socket has for one call of [Reader]: an error, or a message
    with its type; [zlibHeader] is the error of [zlib.NewReader] on the
    message, if it has one, and [content] is what [ioutil.ReadAll] gets
    from its reader (through the decompressor for a binary message). *)
Record Message : Type := mkMessage {
  type : MessageType;
  zlibHeader : option error;
  content : string + error }.

Inductive Incoming : Type :=
| ReaderError (err : error)
| NextMessage (m : Message).

(** The state of a [*websocket.Conn] as this package sees it: what it
    will deliver, how it answers [Close], and the calls it received. *)
Record Socket : Type := mkSocket {
  incoming : list Incoming;
  closeAnswer : StatusCode -> string -> option error;
  readLimit : option Z;
  closeReads : nat;
  closes : list (StatusCode * string) }.

(** [websocket.Dial] returns a connection, or nil and an error. *)
Inductive DialResult : Type :=
| Connected (sock : Socket)
| DialFailed (err : error).

Record Event : Type := mkEvent {
  Data : option string;
  Error : option error }.

(** [Conn]: the embedded [*websocket.Conn], the events sent to the
    channel so far, and the number of read loops started. *)
Record Conn : Type := mkConn {
  Conn_ : ptr Socket;
  events : list Event;
  readLoops : nat }.

Definition NewConn : Conn := mkConn None [] 0.

(** [Conn.Dial], with [network] standing for [websocket.Dial]. *)
Definition Dial (network : string -> DialResult) (c : Conn) (addr : string)
    : outcome (Conn * option error) :=
  let '(sock, err) :=
    match network addr with
    | Connected sock => (Some sock, None)
    | DialFailed err => (None, Some err)
    end in
  (* c.Conn, _, err = websocket.Dial(...) *)
  let c := mkConn sock (events c) (readLoops c) in
  (* c.Conn.SetReadLimit(WSReadLimit) *)
  match Conn_ c with
  | None => Panics
  | Some sock =>
      let sock := mkSocket (incoming sock) (closeAnswer sock) (Some WSReadLimit)
                    (closeReads sock) (closes sock) in
      (* go func() { c.readLoop(c.events) }() *)
      let c := mkConn (Some sock) (events c) (S (readLoops c)) in
      Returns (c, err)
  end.

(** [Conn.readAll] on what the socket has next: the bytes or the error,
    and whether [CloseRead] was called. *)
Definition readAll (next : Incoming) : (string + error) * bool :=
  match next with
  | ReaderError err => (inr err, false)
  | NextMessage m =>
      match type m, zlibHeader m with
      | MessageBinary, Some err =>
          (inr (Wrap err "Failed to create a zlib reader"), true)
      | _, _ =>
          match content m with
          | inl b => (inl b, false)
          | inr err => (inr err, true)
          end
      end
  end.

(** How [readLoop] stands once the socket has nothing more at hand. *)
Inductive LoopState : Type :=
| Reading    (* inside [readAll], waiting for the socket *)
| Returned.  (* left through [return] *)

(** [Conn.readLoop]: the events sent to [ch], in order, while the socket
    delivers [input]. *)
Fixpoint readLoop (input : list Incoming) : list Event * LoopState :=
  match input with
  | [] => ([], Reading)
  | next :: rest =>
      match fst (readAll next) with
      | inr err =>
          let code := CloseStatus err in
          if (code >? -1)%Z then
            if negb (code =? StatusNormalClosure)%Z
            then ([mkEvent None (Some (Wrap err "WS fatal"))], Returned)
            else ([], Returned)
          else
            let '(evs, st) := readLoop rest in
            (mkEvent None (Some (Wrap err "WS error")) :: evs, st)
      | inl b =>
          let '(evs, st) := readLoop rest in
          (mkEvent (Some b) None :: evs, st)
      end
  end.

(** [c.Conn.Close(code, reason)]: the connection once its socket has
    received the call. *)
Definition closedWith (c : Conn) (sock : Socket) (code : StatusCode) (reason : string)
    : Conn :=
  mkConn (Some (mkSocket (incoming sock) (closeAnswer sock) (readLimit sock)
                  (closeReads sock) (closes sock ++ [(code, reason)])))
         (events c) (readLoops c).

(** The close status [readLoop] finds in what [readAll] returns for [next]:
    [None] when [readAll] returns bytes or an error that is no closure. *)
Definition closureStatus (next : Incoming) : option StatusCode :=
  match fst (readAll next) with
  | inl _ => None
  | inr err => if (CloseStatus err >? -1)%Z then Some (CloseStatus err) else None
  end.

(** [Conn.Close]. *)
Definition Close (c : Conn) (err : option error) : outcome (Conn * option error) :=
  let close (code : StatusCode) (reason : string) :=
    match Conn_ c with
    | None => Panics
    | Some sock => Returns (closedWith c sock code reason, closeAnswer sock code reason)
    end in
  match err with
  | None => close StatusNormalClosure ""
  | Some err =>
      let msg := errors.Error err in
      let msg := if (125 <? String.length msg)%nat then take 125 msg else msg in
      close StatusProtocolError msg
  end.

(** The reads [readLoop] handles before it returns: those before the
    first closure. *)
Fixpoint beforeClosure (input : list Incoming) : list Incoming :=
  match input with
  | [] => []
  | next :: rest =>
      match closureStatus next with
      | Some _ => []
      | None => next :: beforeClosure rest
      end
  end.

(** The bytes a read gives, if it gives any, and the bytes an event
    carries, if it carries any. *)
Definition payloadRead (next : Incoming) : list string :=
  match fst (readAll next) with
  | inl b => [b]
  | inr _ => []
  end.

Definition payloadSent (ev : Event) : list string :=
  match Data ev with
  | Some b => [b]
  | None => []
  end.

(** The status and the reason [Close] hands to the socket for [err]. *)
Definition closeArguments (err : option error) : StatusCode * string :=
  match err with
  | None => (StatusNormalClosure, "")
  | Some err =>
      let msg := errors.Error err in
      (StatusProtocolError, if (125 <? String.length msg)%nat then take 125 msg else msg)
  end.

(** Calls of [Close] in a row, one for each of [errs]: the connection at
    the end and what each call returned; a panic ends it. *)
Fixpoint CloseEach (errs : list (option error)) (c : Conn)
    : outcome (Conn * list (option error)) :=
  match errs with
  | [] => Returns (c, [])
  | err :: rest =>
      match Close c err with
      | Panics => Panics
      | Returns (c', r) =>
          match CloseEach rest c' with
          | Panics => Panics
          | Returns (c'', rs) => Returns (c'', r :: rs)
          end
      end
  end.



(** Sockets to run the connection on: one that accepts every close, and
    a delivery of a text message, a binary message that is no zlib stream,
    a read error, an abnormal closure and a message that is never read. *)
Definition quietSocket (input : list Incoming) : Socket :=
  mkSocket input (fun _ _ => None) None 0 [].

Definition sampleInput : list Incoming :=
  [ NextMessage (mkMessage MessageText None (inl "A"));
    NextMessage (mkMessage MessageBinary (Some (New "zlib: invalid header")) (inl ""));
    ReaderError (New "failed to get reader: timeout");
    ReaderError (Wrap (CloseError 1006 "") "failed to get reader");
    NextMessage (mkMessage MessageText None (inl "E")) ].

Definition refusingNetwork (addr : string) : DialResult :=
  DialFailed (New "failed to WebSocket dial: connection refused").

End wsutil.

(* ================================================================= *)
(** ** package session *)

Module session.
Import golang errors.

(** A channel of [struct{}] that is only ever closed. *)
Inductive chan : Type := ChanOpen | ChanClosed.

(** [sync.Once]: whether [Do] has run its function. *)
Definition Once : Type := bool.

Record sessionState : Type := mkState {
  hstop : ptr chan;
  wstop : Once }.

(** [sessionState.Reset]. *)
Definition Reset (state : sessionState) : sessionState :=
  mkState (Some ChanOpen) false.

(** The gateway as the session sees it: how it answers [Open], how it
    answers its n-th [Close], and the calls it received. *)
Record Gateway : Type := mkGateway {
  openAnswer : option error;
  closeAnswer : nat -> option error;
  afterClose : bool;
  opens : nat;
  closes : nat }.

Definition Gateway_Open (g : Gateway) : Gateway * option error :=
  (mkGateway (openAnswer g) (closeAnswer g) (afterClose g) (S (opens g)) (closes g),
   openAnswer g).

Definition Gateway_Close (g : Gateway) : Gateway * option error :=
  (mkGateway (openAnswer g) (closeAnswer g) (afterClose g) (opens g) (S (closes g)),
   closeAnswer g (S (closes g))).

(** [Session]: the gateway, the state, the number of handler loops
    started and the number of times [hstop] was closed. *)
Record Session : Type := mkSession {
  gateway : Gateway;
  state : sessionState;
  handlers : nat;
  stops : nat }.

Definition NewWithGateway (gw : Gateway) : Session :=
  mkSession gw (mkState None false) 0 0.

(** [Session.Open]. *)
Definition Open (s : Session) : Session * option error :=
  (* s.sessionState.Reset(); go s.startHandler() *)
  let st := Reset (state s) in
  let handlers := S (handlers s) in
  (* s.Gateway.AfterClose = ... *)
  let g := gateway s in
  let g := mkGateway (openAnswer g) (closeAnswer g) true (opens g) (closes g) in
  let '(g, err) := Gateway_Open g in
  (mkSession g st handlers (stops s),
   match err with
   | Some err => Some (Wrap err "failed to start gateway")
   | None => None
   end).

(** [close(ch)]: a nil or closed channel panics. *)
Definition close (ch : ptr chan) : outcome (ptr chan) :=
  match ch with
  | Some ChanOpen => Returns (Some ChanClosed)
  | Some ChanClosed => Panics
  | None => Panics
  end.

(** [Session.Close]. *)
Definition Close (s : Session) : outcome (Session * option error) :=
  (* s.wstop.Do(func() { close(s.hstop) }) *)
  let stopped :=
    if wstop (state s) then Returns (state s, stops s)
    else
      match close (hstop (state s)) with
      | Returns ch => Returns (mkState ch true, S (stops s))
      | Panics => Panics
      end in
  match stopped with
  | Panics => Panics
  | Returns (st, n) =>
      (* return s.Gateway.Close() *)
      let '(g, err) := Gateway_Close (gateway s) in
      Returns (mkSession g st (handlers s) n, err)
  end.

(** [n] calls of [Close] in a row: the session at the end and what each
    call returned; a panic ends it. *)
Fixpoint CloseTimes (n : nat) (s : Session) : outcome (Session * list (option error)) :=
  match n with
  | O => Returns (s, [])
  | S n' =>
      match Close s with
      | Panics => Panics
      | Returns (s', err) =>
          match CloseTimes n' s' with
          | Panics => Panics
          | Returns (s'', errs) => Returns (s'', err :: errs)
          end
      end
  end.

(** A sequence of calls of [Open] and [Close] on one session; a panic
    ends it. *)
Inductive call : Type := CallOpen | CallClose.

Fixpoint run (calls : list call) (s : Session) : outcome Session :=
  match calls with
  | [] => Returns s
  | CallOpen :: rest => run rest (fst (Open s))
  | CallClose :: rest =>
      match Close s with
      | Panics => Panics
      | Returns (s', _) => run rest s'
      end
  end.

(** The lifecycle state [Open] leaves and [Close] keeps: there is a stop
    channel, and it is closed exactly when the guard has run. *)
Definition armed (st : sessionState) : bool :=
  match hstop st, wstop st with
  | Some ChanOpen, false => true
  | Some ChanClosed, true => true
  | _, _ => false
  end.

(** [n] times: one [Open], then [k] calls of [Close]. *)
Definition cycles (n k : nat) : list call :=
  List.concat (List.repeat (CallOpen :: List.repeat CallClose k) n).

(** [ErrMFA]. *)
Definition ErrMFA : error := errors.New "account has 2FA enabled".

(** What [Login] reads of the answer of [client.Login] and [client.TOTP]. *)
Record LoginResponse : Type := mkLoginResponse {
  MFA : bool;
  Token : string;
  Ticket : string }.

(** [New], with [NewGateway] standing for [gateway.NewGateway]. *)
Definition New (NewGateway : string -> Gateway + error) (token : string)
    : Session + error :=
  match NewGateway token with
  | inr err => inr (Wrap err "failed to connect to Gateway")
  | inl g => inl (NewWithGateway g)
  end.

(** [Login], with [clientLogin] and [clientTOTP] standing for the two
    calls on the scratch client. *)
Definition Login (NewGateway : string -> Gateway + error)
    (clientLogin : string -> string -> LoginResponse + error)
    (clientTOTP : string -> string -> LoginResponse + error)
    (email password mfa : string) : Session + error :=
  match clientLogin email password with
  | inr err => inr (Wrap err "failed to login")
  | inl l =>
      if negb (String.eqb (Token l) "") && negb (MFA l) then
        New NewGateway (Token l)
      else if String.eqb mfa "" then inr ErrMFA
      else
        match clientTOTP mfa (Ticket l) with
        | inr err => inr (Wrap err "failed to login with 2FA")
        | inl l => New NewGateway (Token l)
        end
  end.

(** A gateway that opens and closes without error. *)
Definition quietGateway : Gateway := mkGateway None (fun _ => None) false 0 0.

End session.

(* ================================================================= *)
(** ** A reference instance of [discord.Imports]

    Snowflakes travel as decimal strings, channel types as an array of
    numbers, and the floats that are whole numbers are written without
    fraction or exponent.  It is used to run the codec on examples. *)

Module reference.
Import golang json discord.

Definition Snowflake_MarshalJSON (x : Snowflake) : option value :=
  Some (JStr (FormatUint x)).

Definition Snowflake_UnmarshalJSON (v : value) : option Snowflake :=
  match v with
  | JStr s => ParseUint s
  | JNum lit => ParseUint lit
  | _ => None
  end.

Definition FormatFloat (f : float64) : option string :=
  match f with
  | FZero false => Some "0"
  | FFinite false m 0%Z => Some (FormatUint (Npos m))
  | FFinite true m 0%Z => Some ("-" ++ FormatUint (Npos m))
  | _ => None
  end.

Definition ParseFloat (lit : string) : option float64 :=
  match ParseInt lit with
  | Some Z0 => Some (FZero false)
  | Some (Zpos m) => Some (FFinite false m 0%Z)
  | Some (Zneg m) => Some (FFinite true m 0%Z)
  | None => None
  end.

Definition ChannelTypes_encode (l : list ChannelType) : value :=
  JArr (map (fun t => JNum (FormatUint t)) l).

Fixpoint parseAll (l : list value) : option (list N) :=
  match l with
  | [] => Some []
  | JNum lit :: r =>
      match ParseUint lit, parseAll r with
      | Some n, Some ns => Some (n :: ns)
      | _, _ => None
      end
  | _ :: _ => None
  end.

Definition ChannelTypes_decode (v : value) : option (list ChannelType) :=
  match v with
  | JArr l => parseAll l
  | _ => None
  end.

Definition imports : Imports :=
  {| discord.Snowflake_MarshalJSON := Snowflake_MarshalJSON;
     discord.Snowflake_UnmarshalJSON := Snowflake_UnmarshalJSON;
     discord.Snowflake_UnmarshalQuoted := ParseUint;
     discord.FormatFloat := FormatFloat;
     discord.ParseFloat := ParseFloat;
     discord.ChannelTypes_encode := ChannelTypes_encode;
     discord.ChannelTypes_decode := ChannelTypes_decode |}.

(** Sample trees and documents. *)
Definition bareSubcommand : SubcommandOption.t :=
  SubcommandOption.mk "ban" "Ban a member" true None.

Definition sampleSubcommand : SubcommandOption.t :=
  SubcommandOption.mk "add" "Add a role" true
    (Some [ VString (StringOption.mk "reason" "Why" false
                       (Some [Choice.mk "spam" "spam"]) true);
            VInteger (ValueOption.mk "days" "How long" false
                        (Some [Choice.mk "week" 7%Z; Choice.mk "never" (-1)%Z]));
            VBoolean (ValueOption.mk "silent" "No notice" false None);
            VUser (ValueOption.mk "user" "Who" true
                     (Some [Choice.mk "owner" 80351110224678912%N]));
            VChannel (ChannelOption.mk "where" "Channel" false None (Some [0%N; 2%N]));
            VRole (ValueOption.mk "role" "Which role" true None);
            VMentionable (ValueOption.mk "target" "Role or user" false None);
            VNumber (ValueOption.mk "weight" "Weight" false
                       (Some [Choice.mk "double" (FFinite false 2 0)])) ]).

Definition sampleGroup : SubcommandGroupOption.t :=
  SubcommandGroupOption.mk "roles" "Manage roles" false
    (Some [ Some sampleSubcommand; None;
            Some (SubcommandOption.mk "list" "List roles" false (Some [])) ]).

(** An option of a type this package does not know, with a member beside
    its name and type. *)
Definition attachmentOption : value :=
  JObj [("type", JNum "11"); ("name", JStr "file"); ("description", JStr "A file")].





Definition flatSubcommand : value :=
  JObj [("type", JNum "1"); ("name", JStr "outer");
        ("options", JArr [ JObj [("type", JNum "3"); ("name", JStr "text")];
                           JObj [("type", JNum "11"); ("name", JStr "file")] ])].

(** A wire option of type 5 with a name and nothing else, and what it is
    decoded to. *)
Definition silentOption : value :=
  JObj [("type", JNum "5"); ("name", JStr "silent")].

Definition silentDecoded : Decoded :=
  mkDecoded (UnknownCommandOption.mk "silent" BooleanOptionType None)
    (OValue (VBoolean (ValueOption.mk "silent" "" false None))).

(** A string option with a slice of choices that is empty and not nil. *)
Definition reasonOption : StringOption.t :=
  StringOption.mk "reason" "Why" false (Some []) true.

(** A command with a subcommand of a string and a user option. *)
Definition plainCommand : Command.t :=
  Command.mk 1%N UserCommand 2%N 3%N "mod" "Moderation"
    (Some [OSubcommand
             (SubcommandOption.mk "add" "Add a role" true
                (Some [ VString (StringOption.mk "reason" "Why" false
                                   (Some [Choice.mk "spam" "spam"]) true);
                        VUser (ValueOption.mk "user" "Who" true
                                 (Some [Choice.mk "owner" 80351110224678912%N])) ]))])
    true 4%N.

Definition sampleCommand (NoDefaultPermission : bool) : Command.t :=
  Command.mk 1%N ChatInputCommand 2%N 0%N "mod" "Moderation"
    (Some [OSubcommandGroup sampleGroup]) NoDefaultPermission 0%N.

End reference.

(* ================================================================= *)
(** * Properties *)

(* ================================================================= *)
(** ** Numbers on the wire *)

Module json_props.
Import golang json.

Lemma string_of_uint_nonempty (d : Decimal.uint) :
  d <> Decimal.Nil -> NilEmpty.string_of_uint d <> "".
Proof. destruct d; simpl; congruence. Qed.

Lemma string_of_uint_digit (d : Decimal.uint) (c : ascii) (r : string) :
  NilEmpty.string_of_uint d = String c r -> c <> "-"%char.
Proof. destruct d; simpl; intros [= <- _]; discriminate. Qed.

Lemma FormatUint_nonempty (n : N) : FormatUint n <> "".
Proof.
  unfold FormatUint. apply string_of_uint_nonempty.
  destruct n as [|p]; simpl; [discriminate|].
  apply DecimalPos.Unsigned.to_uint_nonnil.
Qed.

Lemma ParseUint_FormatUint (n : N) :
  is_uint n = true -> ParseUint (FormatUint n) = Some n.
Proof.
  intros Hn. unfold ParseUint.
  destruct (String.eqb_spec (FormatUint n) "") as [He|_].
  - destruct (FormatUint_nonempty n He).
  - unfold FormatUint. rewrite NilEmpty.usu, DecimalN.Unsigned.of_to, Hn. reflexivity.
Qed.

Lemma FormatInt_shape (z : Z) : FormatInt z <> "" /\ FormatInt z <> "-".
Proof.
  unfold FormatInt. destruct z as [|p|p]; simpl; try (split; discriminate).
  - split; [|intros He; apply string_of_uint_digit in He; congruence].
    apply string_of_uint_nonempty, DecimalPos.Unsigned.to_uint_nonnil.
  - split; [discriminate|]. intros [= He].
    exact (string_of_uint_nonempty _ (DecimalPos.Unsigned.to_uint_nonnil p) He).
Qed.

Lemma ParseInt_FormatInt (z : Z) :
  is_int z = true -> ParseInt (FormatInt z) = Some z.
Proof.
  intros Hz. unfold ParseInt. destruct (FormatInt_shape z) as [H1 H2].
  destruct (String.eqb_spec (FormatInt z) "") as [He|_]; [congruence|].
  destruct (String.eqb_spec (FormatInt z) "-") as [He|_]; [congruence|].
  simpl. unfold FormatInt. rewrite NilEmpty.isi, DecimalZ.of_to, Hz. reflexivity.
Qed.

Lemma coerceFrom_valid (s : string) :
  forall skip, validFrom skip s = true -> coerceFrom skip s = s.
Proof.
  induction s as [|c r IH]; intros skip; [reflexivity|].
  cbn [validFrom coerceFrom]. destruct skip as [|k].
  - destruct (runeWidth (String c r)) as [|k]; [discriminate|].
    intros Hvalid. rewrite (IH k Hvalid). reflexivity.
  - intros Hvalid. rewrite (IH k Hvalid). reflexivity.
Qed.

(** A valid string is written as it is. *)
Lemma toValidUTF8_valid (s : string) : ValidString s = true -> toValidUTF8 s = s.
Proof. apply coerceFrom_valid. Qed.

End json_props.

(* ================================================================= *)
(** ** The command codec *)

Module discord_props.
Import golang json discord json_props.
Local Open Scope list_scope.

#[local] Arguments decodeChoice : simpl never.
#[local] Arguments encodeChoice : simpl never.
#[local] Arguments decodeSlice : simpl never.
#[local] Arguments mapD : simpl never.
#[local] Arguments mapR : simpl never.
#[local] Arguments ParseUint : simpl never.
#[local] Arguments FormatUint : simpl never.
#[local] Arguments toValidUTF8 : simpl never.

Section Roundtrip.
Context `{Imports}.

(** The body of [UnknownCommandOption.UnmarshalJSON], with the calls on
    the elements folded back. *)
Lemma UnknownCommandOption_UnmarshalJSON_eq (b : value) (u0 : UnknownCommandOption.t) :
  UnknownCommandOption_UnmarshalJSON b u0
  = match Unmarshal (decodeObject unknown_field b u0) with
    | Err err => Err (Wrap err "failed to unmarshal unknown")
    | Ok u =>
        let type := UnknownCommandOption.OptionType u in
        if (type =? SubcommandOptionType)%N then
          unmarshalData u OSubcommand
            (SubcommandOption_UnmarshalJSON b SubcommandOption.zero)
        else if (type =? SubcommandGroupOptionType)%N then
          unmarshalData u OSubcommandGroup
            (Unmarshal (decodeObject (SubcommandGroupOption_field decodeUnknown) b
                          SubcommandGroupOption.zero))
        else if (type =? StringOptionType)%N then
          unmarshalData u (fun o => OValue (VString o))
            (Unmarshal (decodeObject StringOption_field b StringOption.zero))
        else if (type =? IntegerOptionType)%N then
          unmarshalData u (fun o => OValue (VInteger o))
            (unmarshalValueOption decodeIntegerChoice b)
        else if (type =? BooleanOptionType)%N then
          unmarshalData u (fun o => OValue (VBoolean o))
            (unmarshalValueOption decodeBooleanChoice b)
        else if (type =? UserOptionType)%N then
          unmarshalData u (fun o => OValue (VUser o))
            (unmarshalValueOption decodeSnowflakeChoice b)
        else if (type =? ChannelOptionType)%N then
          unmarshalData u (fun o => OValue (VChannel o))
            (Unmarshal (decodeObject ChannelOption_field b ChannelOption.zero))
        else if (type =? RoleOptionType)%N then
          unmarshalData u (fun o => OValue (VRole o))
            (unmarshalValueOption decodeSnowflakeChoice b)
        else if (type =? MentionableOptionType)%N then
          unmarshalData u (fun o => OValue (VMentionable o))
            (unmarshalValueOption decodeSnowflakeChoice b)
        else if (type =? NumberOptionType)%N then
          unmarshalData u (fun o => OValue (VNumber o))
            (unmarshalValueOption decodeNumberChoice b)
        else
          let u' := UnknownCommandOption.mk (UnknownCommandOption.OptionName u)
                      type (Some b) in
          Ok (mkDecoded u' (OValue (VUnknown u')))
    end.
Proof. destruct b; reflexivity. Qed.

Lemma mapR_cons {A B : Type} (f : A -> result B) (x : A) (l : list A) :
  mapR f (x :: l) = rbind (f x) (fun y => rbind (mapR f l) (fun ys => Ok (y :: ys))).
Proof. reflexivity. Qed.

Lemma mapD_cons {A B : Type} (f : A -> dec B) (x : A) (l : list A) :
  mapD f (x :: l) = dbind (f x) (fun y => dbind (mapD f l) (fun ys => Done (y :: ys))).
Proof. reflexivity. Qed.

Lemma choices_roundtrip {V : Type} (encV : V -> result value)
    (decV : value -> V -> dec V) (ok : V -> bool) (norm : V -> V) (zero : V) :
  codecTo encV decV ok norm ->
  forall l : list (Choice.t V),
    forallb (fun c => ok (Choice.Value c)) l = true ->
    exists vs, mapR (encodeChoice encV) l = Ok vs /\
               mapD (decodeChoice decV zero) vs = Done (map (utf8Choice norm) l).
Proof.
  intros Hcodec. induction l as [|[n v] l IH]; cbn [forallb]; intros Hok.
  - exists []. split; reflexivity.
  - apply andb_prop in Hok as [Hv Hl]. cbn [Choice.Value] in Hv.
    destruct (Hcodec v Hv) as (j & Henc & Hdec).
    destruct (IH Hl) as (vs & Hencs & Hdecs).
    rewrite mapR_cons, Hencs. unfold encodeChoice. cbn [Choice.Value Choice.Name].
    rewrite Henc. cbn [rbind].
    eexists. split; [reflexivity|].
    rewrite mapD_cons, Hdecs. unfold decodeChoice, decodeObject, Choice_field. simpl.
    rewrite Hdec. reflexivity.
Qed.

Lemma omitempty_choices {V : Type} (encV : V -> result value)
    (decV : value -> V -> dec V) (ok : V -> bool) (norm : V -> V) (zero : V)
    (c : slice (Choice.t V)) :
  codecTo encV decV ok norm ->
  nilOrNonEmpty c = true ->
  portableChoices ok c = true ->
  exists ms, omitemptySlice "choices" (encodeChoice encV) c = Ok ms /\
    ((c = None /\ ms = []) \/
     exists vs, ms = [("choices", JArr vs)] /\
       forall old, decodeSlice (decodeChoice decV zero) (JArr vs) old
                   = Done (utf8Choices norm c)).
Proof.
  intros Hcodec Hc Hok. destruct c as [[|c l]|]; try discriminate.
  - destruct (choices_roundtrip _ _ _ _ zero Hcodec (c :: l) Hok) as (vs & Henc & Hdec).
    unfold omitemptySlice. rewrite Henc. eexists; split; [reflexivity|].
    right. eexists; split; [reflexivity|]. intros old. unfold decodeSlice.
    rewrite Hdec. reflexivity.
  - exists []. split; [reflexivity|]. left; auto.
Qed.

Lemma codec_string :
  codecTo (fun s : string => Ok (encodeString s)) decodeString (fun _ => true) toValidUTF8.
Proof. intros v _. eexists; split; reflexivity. Qed.

(** A codec that reads back what it wrote leaves the value as it is. *)
Lemma codecOk_codecTo {V : Type} (encV : V -> result value) (decV : value -> V -> dec V)
    (ok : V -> bool) :
  codecOk encV decV ok -> codecTo encV decV ok (fun v => v).
Proof. intros Hcodec. exact Hcodec. Qed.

Lemma portableChoices_true {V : Type} (c : slice (Choice.t V)) :
  portableChoices (fun _ => true) c = true.
Proof. unfold portableChoices. induction (elements c); simpl; auto. Qed.

Lemma StringOption_roundtrip (o : StringOption.t) :
  nilOrNonEmpty (StringOption.Choices o) = true ->
  exists j, StringOption_MarshalJSON o = Ok j /\
    UnknownCommandOption_UnmarshalJSON j UnknownCommandOption.zero
      = Ok (decodedAs (OValue (utf8Value (VString o)))).
Proof.
  destruct o as [n d r c a]. cbn [StringOption.Choices]. intros Hc.
  destruct (omitempty_choices _ _ _ _ "" c codec_string Hc (portableChoices_true c))
    as (ms & Henc & [[-> ->]|(vs & -> & Hdec)]);
    (eexists; split;
     [unfold StringOption_MarshalJSON, encodeStringChoice, StringChoice;
      cbn [StringOption.Choices]; rewrite Henc; reflexivity|]);
    rewrite UnknownCommandOption_UnmarshalJSON_eq.
  - reflexivity.
  - unfold decodeObject, unknown_field, StringOption_field. simpl.
    unfold decodeStringChoice. rewrite Hdec. reflexivity.
Qed.
Lemma codec_bool : codecOk (fun b : bool => Ok (JBool b)) decodeBool (fun _ => true).
Proof. intros v _. eexists; split; reflexivity. Qed.

Lemma codec_int : codecOk (fun z : Z => Ok (JNum (FormatInt z))) decodeInt is_int.
Proof.
  intros z Hz. eexists; split; [reflexivity|]. intros old.
  unfold decodeInt. rewrite (ParseInt_FormatInt z Hz). reflexivity.
Qed.

Lemma decodeSnowflakeString_old (v : value) (x old old' : Snowflake) :
  decodeSnowflakeString v old = Done x -> decodeSnowflakeString v old' = Done x.
Proof.
  unfold decodeSnowflakeString.
  destruct v as [| | |[|c s]| |]; try discriminate; auto.
Qed.

Lemma codec_snowflake :
  codecOk encodeSnowflake decodeSnowflakeString portableSnowflake.
Proof.
  intros x Hx. unfold portableSnowflake in Hx. unfold encodeSnowflake.
  destruct (Snowflake_MarshalJSON x) as [v|]; [|discriminate].
  exists v. split; [reflexivity|]. intros old.
  destruct (decodeSnowflakeString v 0%N) as [y| |] eqn:Hdec; try discriminate.
  apply N.eqb_eq in Hx. subst y.
  exact (decodeSnowflakeString_old v x 0%N old Hdec).
Qed.

Lemma float64_eqb_eq (f g : float64) : float64_eqb f g = true -> f = g.
Proof.
  destruct f, g; simpl; try discriminate; auto.
  - intros Hs. apply eqb_prop in Hs. congruence.
  - intros Hs. apply eqb_prop in Hs. congruence.
  - intros Hall. apply andb_prop in Hall as [Hsm He].
    apply andb_prop in Hsm as [Hs Hm].
    apply eqb_prop in Hs. apply Pos.eqb_eq in Hm. apply Z.eqb_eq in He. congruence.
Qed.

Lemma codec_float : codecOk encodeFloat decodeFloat portableFloat.
Proof.
  intros f Hf. unfold portableFloat in Hf. unfold encodeFloat.
  destruct (FormatFloat f) as [lit|]; [|discriminate].
  eexists. split; [reflexivity|]. intros old. unfold decodeFloat.
  destruct (ParseFloat lit) as [g|]; [|discriminate].
  apply float64_eqb_eq in Hf. subst g. reflexivity.
Qed.

Lemma list_eqb_eq (l l' : list N) : list_eqb N.eqb l l' = true -> l = l'.
Proof.
  revert l'. induction l as [|x l IH]; intros [|x' l']; simpl; try discriminate; auto.
  intros Hall. apply andb_prop in Hall as [Hx Hl].
  apply N.eqb_eq in Hx. f_equal; auto.
Qed.

Lemma channelTypes_roundtrip (l : list ChannelType) (old : slice ChannelType) :
  portableChannelTypes l = true ->
  decodeChannelTypes (ChannelTypes_encode l) old = Done (Some l).
Proof.
  unfold portableChannelTypes, decodeChannelTypes.
  destruct (ChannelTypes_encode l) as [| | | | |] eqn:Henc; try discriminate;
    (destruct (ChannelTypes_decode _) as [l'|]; [|discriminate]);
    intros Heq; apply list_eqb_eq in Heq; subst l'; reflexivity.
Qed.

(** The first parse of an option written by a generated marshaler: the
    name and the discriminant. *)
Ltac first_parse :=
  unfold decodeObject, unknown_field; simpl;
  rewrite ParseUint_FormatUint by reflexivity; simpl.

Lemma ValueOption_roundtrip {V : Type} (type : CommandOptionType)
    (encV : V -> result value) (decV : value -> V -> dec V) (ok : V -> bool)
    (zero : V) (o : ValueOption.t (Choice.t V)) :
  codecOk encV decV ok ->
  is_uint type = true ->
  nilOrNonEmpty (ValueOption.Choices o) = true ->
  portableChoices ok (ValueOption.Choices o) = true ->
  exists j,
    marshalValueOption type (encodeChoice encV) o = Ok j /\
    Unmarshal (decodeObject unknown_field j UnknownCommandOption.zero)
      = Ok (UnknownCommandOption.mk (toValidUTF8 (ValueOption.OptionName o)) type None) /\
    unmarshalValueOption (decodeChoice decV zero) j = Ok (utf8ValueOption o).
Proof.
  destruct o as [n d r c]. cbn [ValueOption.Choices ValueOption.OptionName].
  intros Hcodec Htype Hc Hok.
  destruct (omitempty_choices _ _ _ _ zero c (codecOk_codecTo _ _ _ Hcodec) Hc Hok)
    as (ms & Henc & [[-> ->]|(vs & -> & Hdec)]);
    (eexists; split;
     [unfold marshalValueOption; cbn [ValueOption.Choices]; rewrite Henc; reflexivity|]);
    (split;
     [unfold decodeObject, unknown_field; simpl;
      rewrite (ParseUint_FormatUint type Htype); reflexivity|]).
  - reflexivity.
  - unfold unmarshalValueOption, decodeObject, ValueOption_field. simpl.
    rewrite Hdec. reflexivity.
Qed.

Ltac unalias :=
  unfold IntegerOption, BooleanOption, UserOption, RoleOption, MentionableOption,
    NumberOption, StringChoice, IntegerChoice, BooleanChoice, UserChoice,
    ChannelChoice, RoleChoice, MentionableChoice, NumberChoice,
    UserID, ChannelID, RoleID, Snowflake in *.

(** The [switch] of [UnknownCommandOption.UnmarshalJSON] on a type that is
    known. *)
Ltac select_branch :=
  unfold SubcommandOptionType, SubcommandGroupOptionType, StringOptionType,
    IntegerOptionType, BooleanOptionType, UserOptionType, ChannelOptionType,
    RoleOptionType, MentionableOptionType, NumberOptionType;
  cbn [UnknownCommandOption.OptionType N.eqb Pos.eqb].

Ltac value_option type codec zero :=
  match goal with
  | Hc : nilOrNonEmpty (ValueOption.Choices ?o) = true,
    Hp : portableChoices ?ok (ValueOption.Choices ?o) = true |- _ =>
      destruct (ValueOption_roundtrip type _ _ _ zero o codec eq_refl Hc Hp)
        as (j & Henc & Hfirst & Hsecond);
      exists j; split; [exact Henc|];
      rewrite UnknownCommandOption_UnmarshalJSON_eq, Hfirst; cbv zeta;
      select_branch;
      unfold decodeIntegerChoice, decodeBooleanChoice, decodeSnowflakeChoice,
        decodeNumberChoice; unalias; rewrite Hsecond;
      reflexivity
  end.

Lemma ChannelOption_roundtrip (o : ChannelOption.t) :
  canonicalValue (VChannel o) = true ->
  portableValue (VChannel o) = true ->
  exists j, ChannelOption_MarshalJSON o = Ok j /\
    UnknownCommandOption_UnmarshalJSON j UnknownCommandOption.zero
      = Ok (decodedAs (OValue (utf8Value (VChannel o)))).
Proof.
  destruct o as [n d r c t]. cbn [canonicalValue portableValue ChannelOption.Choices
                                   ChannelOption.ChannelTypes].
  intros Hcan Hport. unalias.
  apply andb_prop in Hcan as [Hc Ht]. apply andb_prop in Hport as [Hpc Hpt].
  destruct (omitempty_choices _ _ _ _ 0%N c (codecOk_codecTo _ _ _ codec_snowflake)
              Hc Hpc)
    as (ms & Henc & Hms).
  assert (Htypes : t = None \/ exists x l, t = Some (x :: l) /\
                     forall old, decodeChannelTypes (ChannelTypes_encode (x :: l)) old
                                 = Done (Some (x :: l))).
  { destruct t as [[|x l]|]; try discriminate; auto.
    right. exists x, l. split; [reflexivity|]. intros old.
    apply channelTypes_roundtrip. simpl in Hpt. rewrite andb_true_r in Hpt. exact Hpt. }
  destruct Hms as [[-> ->]|(vs & -> & Hdec)];
    destruct Htypes as [->|(x & l & -> & Hdect)];
    (eexists; split;
     [unfold ChannelOption_MarshalJSON, encodeSnowflakeChoice;
      cbn [ChannelOption.Choices ChannelOption.ChannelTypes]; unalias;
      rewrite Henc; reflexivity|]);
    rewrite UnknownCommandOption_UnmarshalJSON_eq;
    unfold decodeObject, unknown_field, ChannelOption_field; simpl;
    unfold decodeSnowflakeChoice; rewrite ?Hdec; simpl; rewrite ?Hdect; reflexivity.
Qed.

(** Every value of a known type is written, and read back with its
    strings as they were written. *)
Lemma CommandOptionValue_roundtrip (v : CommandOptionValue) :
  knownValue v = true ->
  canonicalValue v = true ->
  portableValue v = true ->
  exists j, CommandOptionValue_Marshal v = Ok j /\
    UnknownCommandOption_UnmarshalJSON j UnknownCommandOption.zero
      = Ok (decodedAs (OValue (utf8Value v))).
Proof.
  destruct v as [o|o|o|o|o|o|o|o|u]; cbn [knownValue canonicalValue portableValue];
    intros Hknown Hc Hp; try discriminate;
    cbn [CommandOptionValue_Marshal]; unalias.
  - apply StringOption_roundtrip, Hc.
  - unfold IntegerOption_MarshalJSON, encodeIntegerChoice.
    value_option IntegerOptionType codec_int 0%Z.
  - pose proof (portableChoices_true (ValueOption.Choices o)) as Hp'.
    unfold BooleanOption_MarshalJSON, encodeBooleanChoice.
    value_option BooleanOptionType codec_bool false.
  - unfold UserOption_MarshalJSON, encodeSnowflakeChoice.
    value_option UserOptionType codec_snowflake 0%N.
  - apply ChannelOption_roundtrip; assumption.
  - unfold RoleOption_MarshalJSON, encodeSnowflakeChoice.
    value_option RoleOptionType codec_snowflake 0%N.
  - unfold MentionableOption_MarshalJSON, encodeSnowflakeChoice.
    value_option MentionableOptionType codec_snowflake 0%N.
  - unfold NumberOption_MarshalJSON, encodeNumberChoice.
    value_option NumberOptionType codec_float (FZero false).
Qed.

Lemma values_roundtrip (l : list CommandOptionValue) :
  forallb knownValue l = true ->
  forallb canonicalValue l = true ->
  forallb portableValue l = true ->
  exists vs,
    mapR CommandOptionValue_Marshal l = Ok vs /\
    mapD decodeUnknown vs = Done (map (fun v => decodedAs (OValue v)) (map utf8Value l)).
Proof.
  induction l as [|v l IH]; cbn [forallb]; intros Hk Hc Hp.
  - exists []. split; reflexivity.
  - apply andb_prop in Hk as [Hkv Hkl]. apply andb_prop in Hc as [Hcv Hcl].
    apply andb_prop in Hp as [Hpv Hpl].
    destruct (CommandOptionValue_roundtrip v Hkv Hcv Hpv) as (j & Henc & Hdec).
    destruct (IH Hkl Hcl Hpl) as (vs & Hencs & Hdecs).
    exists (j :: vs). rewrite mapR_cons, Henc, Hencs, mapD_cons, Hdecs.
    unfold decodeUnknown at 1. rewrite Hdec. split; reflexivity.
Qed.

Lemma checkOptionValues_values (l : list CommandOptionValue) :
  checkOptionValues (map (fun v => decodedAs (OValue v)) l) = Ok l.
Proof.
  induction l as [|v l IH]; simpl; [reflexivity|]. rewrite IH. reflexivity.
Qed.

(** A subcommand is written as an object, and its own [UnmarshalJSON]
    reads it back, with its strings as they were written. *)
Lemma SubcommandOption_roundtrip (s : SubcommandOption.t) :
  knownSubcommand s = true ->
  canonicalSubcommand s = true ->
  portableSubcommand s = true ->
  exists members,
    SubcommandOption_MarshalJSON s = Ok (JObj members) /\
    Unmarshal (decodeObject unknown_field (JObj members) UnknownCommandOption.zero)
      = Ok (UnknownCommandOption.mk (toValidUTF8 (SubcommandOption.OptionName s))
              SubcommandOptionType None) /\
    SubcommandOption_UnmarshalJSON (JObj members) SubcommandOption.zero
      = Ok (utf8Subcommand s).
Proof.
  destruct s as [n d r [l|]]; unfold knownSubcommand, canonicalSubcommand,
    portableSubcommand; cbn [SubcommandOption.Options elements];
    intros Hk Hc Hp; [|discriminate].
  destruct (values_roundtrip l Hk Hc Hp) as (vs & Henc & Hdec).
  eexists. split; [|split].
  - unfold SubcommandOption_MarshalJSON, marshalSlice.
    cbn [SubcommandOption.Options]. rewrite Henc. reflexivity.
  - reflexivity.
  - unfold SubcommandOption_UnmarshalJSON, SubcommandOption_UnmarshalJSON_with,
      decodeObject, subcommandOpt_field. simpl.
    unfold decodeSlice. rewrite Hdec. simpl.
    rewrite checkOptionValues_values. reflexivity.
Qed.

Lemma subcommands_roundtrip (l : list (ptr SubcommandOption.t)) :
  forallb (fun p : ptr SubcommandOption.t =>
             match p with None => true | Some s => knownSubcommand s end) l = true ->
  forallb (fun p : ptr SubcommandOption.t =>
             match p with None => true | Some s => canonicalSubcommand s end) l = true ->
  forallb (fun p : ptr SubcommandOption.t =>
             match p with None => true | Some s => portableSubcommand s end) l = true ->
  exists vs,
    mapR encodeSubcommandPtr l = Ok vs /\
    mapD (decodeSubcommandPtr decodeUnknown) vs = Done (map utf8SubcommandPtr l).
Proof.
  induction l as [|p l IH]; cbn [forallb]; intros Hk Hc Hp.
  - exists []. split; reflexivity.
  - apply andb_prop in Hk as [Hkv Hkl]. apply andb_prop in Hc as [Hcv Hcl].
    apply andb_prop in Hp as [Hpv Hpl].
    destruct (IH Hkl Hcl Hpl) as (vs & Hencs & Hdecs).
    destruct p as [s|].
    + destruct (SubcommandOption_roundtrip s Hkv Hcv Hpv) as (ms & Henc & _ & Hdec).
      exists (JObj ms :: vs). rewrite mapR_cons, mapD_cons, Hencs, Hdecs.
      cbn [encodeSubcommandPtr]. rewrite Henc.
      unfold decodeSubcommandPtr at 1.
      change (SubcommandOption_UnmarshalJSON_with decodeUnknown)
        with SubcommandOption_UnmarshalJSON.
      rewrite Hdec. split; reflexivity.
    + exists (JNull :: vs). rewrite mapR_cons, mapD_cons, Hencs, Hdecs.
      split; reflexivity.
Qed.

(** The round trip of a tree of known types: it is written, and
    [UnknownCommandOption.UnmarshalJSON] on what was written gives the tree
    back as its [data], its strings as they were written, with its name
    and type and no raw bytes. *)
Lemma CommandOption_roundtrip (o : CommandOption) :
  known o = true ->
  canonical o = true ->
  portable o = true ->
  exists j,
    CommandOption_Marshal o = Ok j /\
    UnknownCommandOption_UnmarshalJSON j UnknownCommandOption.zero
      = Ok (decodedAs (utf8Option o)).
Proof.
  destruct o as [s|g|v]; cbn [known canonical portable CommandOption_Marshal];
    intros Hk Hc Hp.
  - destruct (SubcommandOption_roundtrip s Hk Hc Hp) as (ms & Henc & Hfirst & Hdec).
    exists (JObj ms). split; [exact Henc|].
    rewrite UnknownCommandOption_UnmarshalJSON_eq, Hfirst. cbv zeta. select_branch.
    rewrite Hdec. reflexivity.
  - destruct g as [n d r c]. cbn [SubcommandGroupOption.Subcommands] in *.
    destruct c as [l|]; cbn [elements] in *.
    + destruct (subcommands_roundtrip l Hk Hc Hp) as (vs & Henc & Hdec).
      eexists. split.
      * unfold SubcommandGroupOption_MarshalJSON, marshalSlice.
        cbn [SubcommandGroupOption.Subcommands]. rewrite Henc. reflexivity.
      * rewrite UnknownCommandOption_UnmarshalJSON_eq.
        unfold decodeObject, unknown_field, SubcommandGroupOption_field. simpl.
        unfold decodeSlice. rewrite Hdec. reflexivity.
    + eexists. split; [reflexivity|].
      rewrite UnknownCommandOption_UnmarshalJSON_eq. reflexivity.
  - apply CommandOptionValue_roundtrip; assumption.
Qed.


End Roundtrip.

(* ----------------------------------------------------------------- *)
(** *** Decoding an object member by member *)

Section Members.
Context {S : Type} (field : string -> value -> S -> dec S).

Lemma fold_Abort (members : list (string * value)) (e : error) :
  fold_left (storeMember field) members (Abort e) = Abort e.
Proof. induction members as [|[k x] ms IH]; simpl; auto. Qed.

Lemma fold_Saved (members : list (string * value)) (e : error) (s : S) :
  forall s', fold_left (storeMember field) members (Saved e s) <> Done s'.
Proof.
  revert e s. induction members as [|[k x] ms IH]; simpl; intros e s s'.
  - discriminate.
  - destruct (field k x s) as [a|e' a|e']; simpl.
    + apply IH.
    + apply IH.
    + rewrite fold_Abort. discriminate.
Qed.

(** A decoding that ends without error went through every member without
    error. *)
Lemma fold_Done_cons (k : string) (x : value) (members : list (string * value))
    (s s' : S) :
  fold_left (storeMember field) ((k, x) :: members) (Done s) = Done s' ->
  exists s1, field k x s = Done s1 /\
             fold_left (storeMember field) members (Done s1) = Done s'.
Proof.
  simpl. destruct (field k x s) as [a|e a|e]; intros Hfold.
  - eauto.
  - destruct (fold_Saved _ _ _ _ Hfold).
  - rewrite fold_Abort in Hfold. discriminate.
Qed.

(** A property of the struct that every stored member keeps holds at the
    end. *)
Lemma fold_Done_invariant (P : S -> Prop) (members : list (string * value)) :
  (forall k x s s1, In (k, x) members -> P s -> field k x s = Done s1 -> P s1) ->
  forall s s', P s ->
    fold_left (storeMember field) members (Done s) = Done s' -> P s'.
Proof.
  induction members as [|[k x] ms IH]; intros Hkeep s s' Hs Hfold.
  - simpl in Hfold. congruence.
  - apply fold_Done_cons in Hfold as (s1 & Hstep & Hrest).
    apply (IH (fun k' x' a a' Hin => Hkeep k' x' a a' (or_intror Hin)) s1 s');
      [|exact Hrest].
    exact (Hkeep k x s s1 (or_introl eq_refl) Hs Hstep).
Qed.

Lemma Unmarshal_Ok {A : Type} (m : dec A) (a : A) : Unmarshal m = Ok a -> m = Done a.
Proof. destruct m; simpl; congruence. Qed.

End Members.

Lemma dbind_Done {A B : Type} (m : dec A) (f : A -> dec B) (b : B) :
  dbind m f = Done b -> exists a, m = Done a /\ f a = Done b.
Proof.
  destruct m as [a|e a|e]; simpl; [eauto| |discriminate].
  destruct (f a); discriminate.
Qed.

Lemma mapD_Done {A B : Type} (f : A -> dec B) (l : list A) (r : list B) :
  mapD f l = Done r -> Forall2 (fun x y => f x = Done y) l r.
Proof.
  revert r. induction l as [|x l IH]; intros r.
  - intros [= <-]. constructor.
  - rewrite mapD_cons. intros Hall.
    apply dbind_Done in Hall as (y & Hy & Hall).
    apply dbind_Done in Hall as (ys & Hys & [= <-]).
    constructor; auto.
Qed.

(* ----------------------------------------------------------------- *)
(** *** The fields of a decoded object and the members of the document *)

Lemma EqualFold_exclusive (k tag tag' : string) :
  EqualFold k tag = true -> String.eqb tag tag' = false -> EqualFold k tag' = false.
Proof.
  unfold EqualFold. intros Hk Hne. apply String.eqb_eq in Hk. rewrite Hk. exact Hne.
Qed.

Section Scalar.
Context {S X : Type} (field : string -> value -> S -> dec S).
Context (tag : string) (get : S -> X) (read : value -> option X).

(** A member of another name leaves the field as it is. *)
Hypothesis other_member :
  forall k x s s1, EqualFold k tag = false -> field k x s = Done s1 -> get s1 = get s.
(** A member of that name leaves it as it is when it is [null], and
    otherwise stores what [read] makes of the document. *)
Hypothesis that_member :
  forall k x s s1, EqualFold k tag = true -> field k x s = Done s1 ->
    match x with
    | JNull => get s1 = get s
    | _ => read x = Some (get s1)
    end.

Lemma scalar_after_from (members : list (string * value)) :
  forall (s s' : S) (acc : option value),
    fold_left (storeMember field) members (Done s) = Done s' ->
    (fold_left (pickMember tag) members acc = acc /\ get s' = get s) \/
    (exists x, fold_left (pickMember tag) members acc = Some x /\ read x = Some (get s')).
Proof.
  induction members as [|[k x] ms IH]; intros s s' acc Hfold.
  - simpl in Hfold. injection Hfold as <-. left. split; reflexivity.
  - apply fold_Done_cons in Hfold as (s1 & Hstep & Hrest).
    cbn [fold_left]. unfold pickMember at 2 4. cbn [fst snd].
    destruct (EqualFold k tag) eqn:Hk.
    + pose proof (that_member k x s s1 Hk Hstep) as Hread.
      destruct x;
        try match goal with
            | |- context [fold_left (pickMember tag) ms (Some ?v)] =>
                destruct (IH s1 s' (Some v) Hrest) as [[Hm Hget]|Hlast];
                [right; exists v; split; [exact Hm|rewrite Hget; exact Hread]
                |right; exact Hlast]
            end.
      destruct (IH s1 s' acc Hrest) as [[Hm Hget]|Hlast];
        [left; split; [exact Hm|congruence]|right; exact Hlast].
    + pose proof (other_member k x s s1 Hk Hstep) as Hsame.
      destruct (IH s1 s' acc Hrest) as [[Hm Hget]|Hlast];
        [left; split; [exact Hm|congruence]|right; exact Hlast].
Qed.

(** The field after the decoding of an object: what it was before when
    the document has no member for it, and what [read] makes of that
    member otherwise. *)
Lemma scalar_after (members : list (string * value)) (s s' : S) :
  fold_left (storeMember field) members (Done s) = Done s' ->
  match scalarMember tag members with
  | None => get s' = get s
  | Some x => read x = Some (get s')
  end.
Proof.
  intros Hfold.
  destruct (scalar_after_from members s s' None Hfold) as [[Hm Hget]|(x & Hm & Hx)];
    unfold scalarMember; rewrite Hm; assumption.
Qed.

End Scalar.

Section Unknown.
Context `{Imports}.

(** What [UnknownCommandOption.UnmarshalJSON] does with a type it has no
    case for: it keeps the bytes and makes the option its own [data]. *)
Lemma unknown_default (b : value) (u0 u : UnknownCommandOption.t) :
  Unmarshal (decodeObject unknown_field b u0) = Ok u ->
  recognized (UnknownCommandOption.OptionType u) = false ->
  let u' := UnknownCommandOption.mk (UnknownCommandOption.OptionName u)
              (UnknownCommandOption.OptionType u) (Some b) in
  UnknownCommandOption_UnmarshalJSON b u0 = Ok (mkDecoded u' (OValue (VUnknown u'))).
Proof.
  intros Hfirst Hrec. rewrite UnknownCommandOption_UnmarshalJSON_eq, Hfirst.
  cbv zeta. unfold recognized, maxOptionType in Hrec.
  repeat match goal with
         | |- context [N.eqb ?a ?b] =>
             destruct (N.eqb_spec a b) as [Heq|_];
             [rewrite Heq in Hrec; discriminate Hrec|]
         end.
  reflexivity.
Qed.


End Unknown.

(* ----------------------------------------------------------------- *)
(** *** Trees whose strings are valid UTF-8 are written as they are *)

Lemma map_fixed {A : Type} (f : A -> A) (ok : A -> bool) (l : list A) :
  (forall x, ok x = true -> f x = x) -> forallb ok l = true -> map f l = l.
Proof.
  intros Hf. induction l as [|x l IH]; cbn [forallb map]; [reflexivity|].
  intros Hall. apply andb_prop in Hall as [Hx Hl]. rewrite (Hf x Hx), (IH Hl).
  reflexivity.
Qed.

Lemma utf8Choices_valid {V : Type} (ok : V -> bool) (norm : V -> V)
    (c : slice (Choice.t V)) :
  (forall v, ok v = true -> norm v = v) ->
  validChoices ok c = true -> utf8Choices norm c = c.
Proof.
  intros Hnorm. destruct c as [l|]; [|reflexivity].
  unfold validChoices, utf8Choices. cbn [elements]. intros Hall. f_equal.
  apply (map_fixed _ _ l) with (2 := Hall).
  intros [n v] Hc. apply andb_prop in Hc as [Hn Hv]. unfold utf8Choice.
  cbn [Choice.Name Choice.Value] in *.
  rewrite (toValidUTF8_valid n Hn), (Hnorm v Hv). reflexivity.
Qed.

Lemma utf8ValueOption_valid {V : Type} (o : ValueOption.t (Choice.t V)) :
  validValueOption o = true -> utf8ValueOption o = o.
Proof.
  destruct o as [n d r c]. unfold validValueOption, utf8ValueOption.
  cbn [ValueOption.OptionName ValueOption.Description ValueOption.Required
       ValueOption.Choices].
  intros Hall. apply andb_prop in Hall as [Hnd Hc]. apply andb_prop in Hnd as [Hn Hd].
  rewrite (toValidUTF8_valid n Hn), (toValidUTF8_valid d Hd),
    (utf8Choices_valid (fun _ => true) (fun v => v) c (fun v _ => eq_refl) Hc).
  reflexivity.
Qed.

Lemma utf8Value_valid (v : CommandOptionValue) :
  validValue v = true -> utf8Value v = v.
Proof.
  destruct v as [o|o|o|o|o|o|o|o|u]; cbn [validValue utf8Value]; intros Hall;
    try (rewrite (utf8ValueOption_valid o Hall); reflexivity).
  - destruct o as [n d r c a].
    cbn [StringOption.OptionName StringOption.Description StringOption.Required
         StringOption.Choices StringOption.Autocomplete] in *.
    apply andb_prop in Hall as [Hnd Hc]. apply andb_prop in Hnd as [Hn Hd].
    rewrite (toValidUTF8_valid n Hn), (toValidUTF8_valid d Hd),
      (utf8Choices_valid ValidString toValidUTF8 c toValidUTF8_valid Hc).
    reflexivity.
  - destruct o as [n d r c t].
    cbn [ChannelOption.OptionName ChannelOption.Description ChannelOption.Required
         ChannelOption.Choices ChannelOption.ChannelTypes] in *.
    apply andb_prop in Hall as [Hnd Hc]. apply andb_prop in Hnd as [Hn Hd].
    rewrite (toValidUTF8_valid n Hn), (toValidUTF8_valid d Hd),
      (utf8Choices_valid (fun _ => true) (fun v => v) c (fun v _ => eq_refl) Hc).
    reflexivity.
  - destruct u as [n t raw]. cbn [UnknownCommandOption.OptionName] in *.
    rewrite (toValidUTF8_valid n Hall). reflexivity.
Qed.

Lemma utf8Subcommand_valid (s : SubcommandOption.t) :
  validSubcommand s = true -> utf8Subcommand s = s.
Proof.
  destruct s as [n d r c]. unfold validSubcommand, utf8Subcommand.
  cbn [SubcommandOption.OptionName SubcommandOption.Description
       SubcommandOption.Required SubcommandOption.Options].
  intros Hall. apply andb_prop in Hall as [Hnd Hc]. apply andb_prop in Hnd as [Hn Hd].
  rewrite (toValidUTF8_valid n Hn), (toValidUTF8_valid d Hd).
  destruct c as [l|]; [|reflexivity]. cbn [elements] in Hc.
  rewrite (map_fixed utf8Value validValue l utf8Value_valid Hc). reflexivity.
Qed.

Lemma utf8Option_valid (o : CommandOption) :
  validStrings o = true -> utf8Option o = o.
Proof.
  destruct o as [s|g|v]; cbn [validStrings utf8Option]; intros Hall.
  - rewrite (utf8Subcommand_valid s Hall). reflexivity.
  - destruct g as [n d r c].
    cbn [SubcommandGroupOption.OptionName SubcommandGroupOption.Description
         SubcommandGroupOption.Required SubcommandGroupOption.Subcommands] in *.
    apply andb_prop in Hall as [Hnd Hc]. apply andb_prop in Hnd as [Hn Hd].
    rewrite (toValidUTF8_valid n Hn), (toValidUTF8_valid d Hd).
    destruct c as [l|]; [|reflexivity]. cbn [elements] in Hc.
    rewrite (map_fixed utf8SubcommandPtr _ l) with (2 := Hc); [reflexivity|].
    intros [s|] Hs; [|reflexivity]. cbn [utf8SubcommandPtr].
    rewrite (utf8Subcommand_valid s Hs). reflexivity.
  - rewrite (utf8Value_valid v Hall). reflexivity.
Qed.

Lemma utf8Command_valid (c : Command.t) :
  validCommand c = true -> utf8Command c = c.
Proof.
  destruct c as [id type app guild name desc opts nodef version].
  unfold validCommand, utf8Command.
  cbn [Command.ID Command.Type_ Command.AppID Command.GuildID Command.Name
       Command.Description Command.Options Command.NoDefaultPermission
       Command.Version].
  intros Hall. apply andb_prop in Hall as [Hnd Hc]. apply andb_prop in Hnd as [Hn Hd].
  rewrite (toValidUTF8_valid name Hn), (toValidUTF8_valid desc Hd).
  destruct opts as [l|]; [|reflexivity]. cbn [elements] in Hc.
  rewrite (map_fixed utf8Option validStrings l utf8Option_valid Hc). reflexivity.
Qed.

(* ----------------------------------------------------------------- *)
(** *** Options: round trip, unknown types, type check *)

Section Options.
Context `{Imports}.

(** C1, as the code has it.  A tree built from the ten known types, whose
    subcommands have an options slice that is not nil, whose [omitempty]
    slices (choices, channel types) are nil or not empty, whose
    identifiers, numbers and channel types pass through their own codecs
    unchanged, and whose strings are valid UTF-8, is encoded, and decoding
    the encoding gives the same tree: [Decode(Encode(tree)) == tree].  The
    decoded [UnknownCommandOption] carries the tree as its [data] and has
    no raw bytes. *)
Theorem roundtrip_known_options (o : CommandOption) :
  known o = true ->
  canonical o = true ->
  portable o = true ->
  validStrings o = true ->
  exists (j : value) (u : Decoded),
    CommandOption_Marshal o = Ok j /\
    UnknownCommandOption_UnmarshalJSON j UnknownCommandOption.zero = Ok u /\
    UnknownCommandOption_Data u = o /\
    UnknownCommandOption_Raw u = None.
Proof.
  intros Hk Hc Hp Hvalid.
  destruct (CommandOption_roundtrip o Hk Hc Hp) as (j & Henc & Hdec).
  rewrite (utf8Option_valid o Hvalid) in Hdec.
  exists j, (decodedAs o). repeat split; assumption.
Qed.

Lemma unknown_field_type_other (k : string) (x : value) (u u1 : UnknownCommandOption.t) :
  EqualFold k "type" = false ->
  unknown_field k x u = Done u1 ->
  UnknownCommandOption.OptionType u1 = UnknownCommandOption.OptionType u.
Proof.
  destruct u as [n t raw]. unfold unknown_field. intros Hk.
  destruct (EqualFold k "name"); [|rewrite Hk]; intros Hstep.
  - apply dbind_Done in Hstep as (y & _ & [= <-]). reflexivity.
  - injection Hstep as <-. reflexivity.
Qed.

Lemma unknown_field_type (k : string) (x : value) (u u1 : UnknownCommandOption.t) :
  EqualFold k "type" = true ->
  unknown_field k x u = Done u1 ->
  match x with
  | JNull => UnknownCommandOption.OptionType u1 = UnknownCommandOption.OptionType u
  | _ => readUint x = Some (UnknownCommandOption.OptionType u1)
  end.
Proof.
  destruct u as [n t raw]. unfold unknown_field. intros Hk.
  rewrite (EqualFold_exclusive k "type" "name" Hk eq_refl), Hk. intros Hstep.
  apply dbind_Done in Hstep as (y & Hy & [= <-]). cbn [UnknownCommandOption.OptionType].
  destruct x; simpl in Hy; try discriminate; try (injection Hy as ->; reflexivity).
  unfold readUint. destruct (ParseUint literal); simpl in Hy;
    [injection Hy as ->; reflexivity|discriminate Hy].
Qed.

Lemma unknown_field_name_other (k : string) (x : value) (u u1 : UnknownCommandOption.t) :
  EqualFold k "name" = false ->
  unknown_field k x u = Done u1 ->
  UnknownCommandOption.OptionName u1 = UnknownCommandOption.OptionName u.
Proof.
  destruct u as [n t raw]. unfold unknown_field. intros Hk. rewrite Hk.
  destruct (EqualFold k "type"); intros Hstep.
  - apply dbind_Done in Hstep as (y & _ & [= <-]). reflexivity.
  - injection Hstep as <-. reflexivity.
Qed.

Lemma unknown_field_name (k : string) (x : value) (u u1 : UnknownCommandOption.t) :
  EqualFold k "name" = true ->
  unknown_field k x u = Done u1 ->
  match x with
  | JNull => UnknownCommandOption.OptionName u1 = UnknownCommandOption.OptionName u
  | _ => match x with
         | JStr s => Some s
         | _ => None
         end = Some (UnknownCommandOption.OptionName u1)
  end.
Proof.
  destruct u as [n t raw]. unfold unknown_field. intros Hk. rewrite Hk. intros Hstep.
  apply dbind_Done in Hstep as (y & Hy & [= <-]). cbn [UnknownCommandOption.OptionName].
  destruct x; simpl in Hy; try discriminate; injection Hy as ->; reflexivity.
Qed.

(** The first parse goes through when every member is of the right
    kind. *)
Lemma first_parse_total (members : list (string * value)) :
  forallb headerOk members = true ->
  forall u0, exists u,
    fold_left (storeMember unknown_field) members (Done u0) = Done u.
Proof.
  induction members as [|[k x] ms IH]; cbn [forallb]; intros Hall u0.
  - exists u0. reflexivity.
  - apply andb_prop in Hall as [Hkx Hms]. cbn [fold_left storeMember dbind].
    assert (Hstep : exists u1, unknown_field k x u0 = Done u1).
    { destruct u0 as [n t raw]. unfold unknown_field. unfold headerOk in Hkx.
      destruct (EqualFold k "name").
      - destruct x; try discriminate; eexists; reflexivity.
      - destruct (EqualFold k "type"); [|eexists; reflexivity].
        destruct x; try discriminate; try (eexists; reflexivity).
        unfold readUint in Hkx. simpl.
        destruct (ParseUint literal); [eexists; reflexivity|discriminate]. }
    destruct Hstep as (u1 & ->). apply IH. exact Hms.
Qed.

(** The first parse of a wire option reads its name and its type. *)
Lemma first_parse_reads (members : list (string * value)) (u : UnknownCommandOption.t) :
  fold_left (storeMember unknown_field) members (Done UnknownCommandOption.zero) = Done u ->
  u = UnknownCommandOption.mk (wireName members) (wireType members) None.
Proof.
  intros Hfold.
  pose proof (scalar_after unknown_field "type" UnknownCommandOption.OptionType
                readUint unknown_field_type_other unknown_field_type
                members _ _ Hfold) as Htype.
  pose proof (scalar_after unknown_field "name" UnknownCommandOption.OptionName
                (fun x => match x with JStr s => Some s | _ => None end)
                unknown_field_name_other unknown_field_name
                members _ _ Hfold) as Hname.
  assert (Hraw : UnknownCommandOption.raw u = None).
  { revert Hfold.
    apply (fold_Done_invariant unknown_field
             (fun u => UnknownCommandOption.raw u = None)); [|reflexivity].
    intros k x [n t raw] u1 _ Hnil. unfold unknown_field.
    destruct (EqualFold k "name"); [|destruct (EqualFold k "type")]; intros Hstep;
      try (apply dbind_Done in Hstep as (y & _ & [= <-]); exact Hnil).
    injection Hstep as <-. exact Hnil. }
  destruct u as [n t raw]. cbn in Htype, Hname, Hraw. subst raw.
  unfold wireName, wireType.
  destruct (scalarMember "type" members) as [x|];
    [rewrite Htype|cbn in Htype; subst t];
    (destruct (scalarMember "name" members) as [y|];
     [destruct y; try discriminate; injection Hname as ->|cbn in Hname; subst n]);
    reflexivity.
Qed.

(** C2, as the code has it.  A wire option object whose [name] members are
    strings and whose [type] members are numbers a [uint] holds, and whose
    discriminant is none of the ten recognized values (0 when it has none),
    is decoded without error into an [UnknownCommandOption] that is its own
    [data], has the name and the discriminant of the object, and whose
    [Raw] is the original document.  Encoding the result writes its name
    and its type and nothing else. *)
Theorem unknown_type_keeps_raw (members : list (string * value)) :
  forallb headerOk members = true ->
  recognized (wireType members) = false ->
  exists d : Decoded,
    UnknownCommandOption_UnmarshalJSON (JObj members) UnknownCommandOption.zero = Ok d /\
    UnknownCommandOption_Raw d = Some (JObj members) /\
    UnknownCommandOption_Data d = OValue (VUnknown (header d)) /\
    UnknownCommandOption.OptionName (header d) = wireName members /\
    UnknownCommandOption.OptionType (header d) = wireType members /\
    CommandOption_Marshal (UnknownCommandOption_Data d)
      = Ok (JObj [("name", encodeString (wireName members));
                  ("type", JNum (FormatUint (wireType members)))]).
Proof.
  intros Hok Hrec.
  destruct (first_parse_total members Hok UnknownCommandOption.zero) as (u & Hfold).
  pose proof (first_parse_reads members u Hfold) as ->.
  assert (Hfirst : Unmarshal (decodeObject unknown_field (JObj members)
                                UnknownCommandOption.zero)
                   = Ok (UnknownCommandOption.mk (wireName members)
                           (wireType members) None))
    by (cbn [decodeObject]; rewrite Hfold; reflexivity).
  eexists. split; [exact (unknown_default _ _ _ Hfirst Hrec)|].
  repeat split.
Qed.


(** The elements of [opt.Options] were all made by
    [UnknownCommandOption.UnmarshalJSON]. *)
Lemma opt_Options_decoded (b : value) (s : SubcommandOption.t) (opt : subcommandOpt) :
  Unmarshal (decodeObject (subcommandOpt_field decodeUnknown) b
               (mkSubcommandOpt s 0%N None)) = Ok opt ->
  Forall (fun d => exists e, UnknownCommandOption_UnmarshalJSON e
                               UnknownCommandOption.zero = Ok d)
         (elements (opt_Options opt)).
Proof.
  intros Hfirst. apply Unmarshal_Ok in Hfirst.
  destruct b; simpl in Hfirst; try discriminate.
  - injection Hfirst as <-. constructor.
  - revert Hfirst.
    apply (fold_Done_invariant (subcommandOpt_field decodeUnknown)
             (fun o => Forall (fun d => exists e,
                          UnknownCommandOption_UnmarshalJSON e
                            UnknownCommandOption.zero = Ok d)
                         (elements (opt_Options o)))); [|constructor].
    intros k x [[n d r c] t os] o1 _ Hos. unfold subcommandOpt_field.
    repeat match goal with
           | |- context [EqualFold k ?tag] => destruct (EqualFold k tag)
           end;
      intros Hstep; try (injection Hstep as <-; exact Hos);
      apply dbind_Done in Hstep as (y & Hy & [= <-]); try exact Hos.
    cbn [opt_Options]. unfold decodeSlice in Hy.
    destruct x; try discriminate.
    + injection Hy as <-. constructor.
    + apply dbind_Done in Hy as (l & Hl & [= <-]). apply mapD_Done in Hl.
      cbn [elements]. clear -Hl.
      induction Hl as [|e d es ds He _ IH]; constructor; [|exact IH].
      exists e. unfold decodeUnknown in He.
      destruct (UnknownCommandOption_UnmarshalJSON e UnknownCommandOption.zero);
        simpl in He; congruence.
Qed.

End Options.

(* ----------------------------------------------------------------- *)
(** *** Options: sample trees and documents *)

Section Samples.
Import reference.
#[local] Existing Instance reference.imports.

Lemma roundtrip_known_options_witness :
  known (OSubcommandGroup sampleGroup) = true /\
  canonical (OSubcommandGroup sampleGroup) = true /\
  portable (OSubcommandGroup sampleGroup) = true /\
  validStrings (OSubcommandGroup sampleGroup) = true /\
  exists (j : value) (u : Decoded),
    CommandOption_Marshal (OSubcommandGroup sampleGroup) = Ok j /\
    UnknownCommandOption_UnmarshalJSON j UnknownCommandOption.zero = Ok u /\
    UnknownCommandOption_Data u = OSubcommandGroup sampleGroup /\
    UnknownCommandOption_Raw u = None.
Proof.
  repeat split; try reflexivity.
  apply (roundtrip_known_options (OSubcommandGroup sampleGroup)); reflexivity.
Defined.

(** A subcommand whose options are nil is written with [options: null]
    and read back with an options slice that is empty but not nil. *)
Lemma roundtrip_loses_nil_options :
  known (OSubcommand bareSubcommand) = true /\
  exists (j : value) (u : Decoded),
    CommandOption_Marshal (OSubcommand bareSubcommand) = Ok j /\
    UnknownCommandOption_UnmarshalJSON j UnknownCommandOption.zero = Ok u /\
    UnknownCommandOption_Data u
      = OSubcommand (SubcommandOption.mk "ban" "Ban a member" true (Some [])) /\
    UnknownCommandOption_Data u <> OSubcommand bareSubcommand.
Proof.
  split; [reflexivity|]. do 2 eexists.
  split; [reflexivity|]. split; [vm_compute; reflexivity|].
  split; [reflexivity|]. discriminate.
Qed.

Lemma unknown_type_keeps_raw_witness :
  let members := [("type", JNum "11"); ("name", JStr "file");
                  ("description", JStr "A file")] in
  forallb headerOk members = true /\
  recognized (wireType members) = false /\
  exists d : Decoded,
    UnknownCommandOption_UnmarshalJSON attachmentOption UnknownCommandOption.zero = Ok d /\
    UnknownCommandOption_Raw d = Some attachmentOption /\
    UnknownCommandOption.OptionType (header d) = 11%N.
Proof.
  cbv zeta. split; [reflexivity|]. split; [reflexivity|].
  destruct (unknown_type_keeps_raw
              [("type", JNum "11"); ("name", JStr "file"); ("description", JStr "A file")]
              eq_refl eq_refl) as (d & Hdec & Hraw & _ & _ & Htype & _).
  exists d. repeat split; assumption.
Defined.

(** An option of type 11 with a description: it is decoded, its [Raw] is
    the document, and encoding it writes the name and the type only. *)
Lemma unknown_type_not_reencoded :
  recognized 11%N = false /\
  exists (d : Decoded) (j : value),
    UnknownCommandOption_UnmarshalJSON attachmentOption UnknownCommandOption.zero = Ok d /\
    UnknownCommandOption_Raw d = Some attachmentOption /\
    CommandOption_Marshal (UnknownCommandOption_Data d) = Ok j /\
    j = JObj [("name", JStr "file"); ("type", JNum "11")] /\
    j <> attachmentOption.
Proof.
  split; [reflexivity|]. do 2 eexists.
  split; [vm_compute; reflexivity|]. split; [reflexivity|].
  split; [vm_compute; reflexivity|]. split; [reflexivity|].
  unfold attachmentOption. intros Heq. discriminate Heq.
Qed.

(** A subcommand whose elements are all values, one of them of a type
    that is not known, is decoded. *)
Lemma Subcommand_of_values_decoded :
  SubcommandOption_UnmarshalJSON flatSubcommand SubcommandOption.zero
  = Ok (SubcommandOption.mk "outer" "" false
          (Some [ VString (StringOption.mk "text" "" false None false);
                  VUnknown (UnknownCommandOption.mk "file" 11%N
                              (Some (JObj [("type", JNum "11"); ("name", JStr "file")]))) ])).
Proof. vm_compute. reflexivity. Qed.

End Samples.


(** Case analysis on the member name in [cmd_field]. *)
Ltac by_member k :=
  unfold cmd_field;
  repeat match goal with
         | |- context [EqualFold k ?tag] =>
             let E := fresh "E" in
             destruct (EqualFold k tag) eqn:E;
             [ try discriminate;
               try (match goal with
                    | Hk : EqualFold k ?tag' = true |- _ =>
                        rewrite (EqualFold_exclusive k tag tag' E eq_refl) in Hk;
                        discriminate Hk
                    end)
             | try discriminate ]
         end.

Section CommandFields.
Context `{Imports}.



Lemma cmd_field_permission_other (k : string) (x : value) (cmd cmd1 : rawCmd) :
  EqualFold k "default_permission" = false ->
  cmd_field k x cmd = Done cmd1 ->
  cmd_DefaultPermission cmd1 = cmd_DefaultPermission cmd.
Proof.
  destruct cmd as [[id type app guild name desc opts nodef version] dp].
  intros Hk. by_member k; intros Hstep;
    try (apply dbind_Done in Hstep as (y & _ & [= <-]); reflexivity).
  injection Hstep as <-. reflexivity.
Qed.

Lemma cmd_field_permission (k : string) (x : value) (cmd cmd1 : rawCmd) :
  EqualFold k "default_permission" = true ->
  cmd_field k x cmd = Done cmd1 ->
  match x with
  | JNull => cmd_DefaultPermission cmd1 = cmd_DefaultPermission cmd
  | _ => readBool x = Some (cmd_DefaultPermission cmd1)
  end.
Proof.
  destruct cmd as [[id type app guild name desc opts nodef version] dp].
  intros Hk. by_member k; intros Hstep.
  apply dbind_Done in Hstep as (y & Hy & [= <-]). cbn [cmd_DefaultPermission].
  destruct x; simpl in Hy; try discriminate; injection Hy as ->; reflexivity.
Qed.

(** What [Command.UnmarshalJSON] returns, from the struct [cmd] after the
    parse. *)
Lemma Command_UnmarshalJSON_Ok (members : list (string * value)) (c0 c : Command.t) :
  Command_UnmarshalJSON (JObj members) c0 = Ok c ->
  exists cmd,
    fold_left (storeMember cmd_field) members (Done (mkRawCmd c0 false)) = Done cmd /\
    Command.NoDefaultPermission c = negb (cmd_DefaultPermission cmd) /\
    Command.Type_ c = (if (Command.Type_ (cmd_raw cmd) =? 0)%N
                       then ChatInputCommand
                       else Command.Type_ (cmd_raw cmd)) /\
    Command.Options c = Command.Options (cmd_raw cmd).
Proof.
  unfold Command_UnmarshalJSON. cbn [decodeObject].
  destruct (fold_left _ members _) as [cmd|e cmd|e]; simpl; try discriminate.
  destruct cmd as [[id type app guild name desc opts nodef version] dp].
  intros [= <-]. eexists. split; [reflexivity|]. repeat split.
Qed.


End CommandFields.

Section Reached.
Context {S : Type} (field : string -> value -> S -> dec S).

Lemma reached_dbind {A B : Type} (P : A -> Prop) (Q : B -> Prop) (m : dec A)
    (f : A -> dec B) :
  reached P m -> (forall a, P a -> reached Q (f a)) -> reached Q (dbind m f).
Proof.
  destruct m as [a|e a|e]; simpl; intros Hm Hf; auto.
  specialize (Hf a Hm). destruct (f a); simpl in *; auto.
Qed.

Lemma fold_reached (P : S -> Prop) (members : list (string * value)) :
  (forall k x s, In (k, x) members -> P s -> reached P (field k x s)) ->
  forall acc, reached P acc -> reached P (fold_left (storeMember field) members acc).
Proof.
  induction members as [|[k x] ms IH]; intros Hkeep acc Hacc; [exact Hacc|].
  cbn [fold_left]. apply IH.
  - intros k' x' s Hin. apply Hkeep. right. exact Hin.
  - cbn [storeMember]. apply (reached_dbind P P); [exact Hacc|].
    intros a Ha. apply Hkeep; [left; reflexivity|exact Ha].
Qed.

End Reached.

Section CommandOptionsField.
Context `{Imports}.

Lemma hasMember_false (tag : string) (members : list (string * value)) (k : string)
    (x : value) :
  hasMember tag members = false -> In (k, x) members -> EqualFold k tag = false.
Proof.
  unfold hasMember. intros Hnone Hin.
  destruct (EqualFold k tag) eqn:Hk; [|reflexivity].
  assert (Hex : existsb (fun kv => EqualFold (fst kv) tag) members = true)
    by (apply existsb_exists; exists (k, x); split; [exact Hin|exact Hk]).
  congruence.
Qed.

(** A member of another name leaves [Options] as it is, also when its
    document is of the wrong kind. *)
Lemma cmd_field_options_other (k : string) (x : value) (cmd : rawCmd) (opts : CommandOptions) :
  EqualFold k "options" = false ->
  Command.Options (cmd_raw cmd) = opts ->
  reached (fun cmd1 => Command.Options (cmd_raw cmd1) = opts) (cmd_field k x cmd).
Proof.
  destruct cmd as [[id type app guild name desc os nodef version] dp].
  cbn [cmd_raw Command.Options]. intros Hk ->. by_member k;
    try (apply (reached_dbind (fun _ => True)); [|intros a _; reflexivity]);
    try reflexivity;
    match goal with
    | |- reached _ ?m => destruct m; exact I
    end.
Qed.

(** An empty [options] array stores nil. *)
Lemma cmd_field_options_empty (cmd : rawCmd) :
  Command.Options (cmd_raw cmd) = None ->
  cmd_field "options" (JArr []) cmd = Done cmd.
Proof.
  destruct cmd as [[id type app guild name desc os nodef version] dp].
  cbn [cmd_raw Command.Options]. intros ->. reflexivity.
Qed.

Lemma storeMember_options_empty (acc : dec rawCmd) :
  reached (fun cmd => Command.Options (cmd_raw cmd) = None) acc ->
  storeMember cmd_field acc ("options", JArr []) = acc.
Proof.
  destruct acc as [cmd|e cmd|e]; cbn [reached storeMember dbind]; intros Hnil;
    try rewrite (cmd_field_options_empty cmd Hnil); reflexivity.
Qed.

(** C10.  Decoding into a command without options (a new command): an
    object with [options: []] and the same object without that member
    give the same result, error or command; when the object has no other
    [options] member the command has nil [Options]; and a command with nil
    [Options] is encoded without an [options] member. *)
Theorem empty_options_as_absent (before after : list (string * value)) (c0 : Command.t) :
  Command.Options c0 = None ->
  hasMember "options" before = false ->
  Command_UnmarshalJSON (JObj (before ++ ("options", JArr []) :: after)) c0
    = Command_UnmarshalJSON (JObj (before ++ after)) c0 /\
  (hasMember "options" after = false ->
   forall c, Command_UnmarshalJSON (JObj (before ++ after)) c0 = Ok c ->
             Command.Options c = None) /\
  (forall c j, Command.Options c = None -> Command_MarshalJSON c = Ok j ->
     exists members, j = JObj members /\ hasMember "options" members = false).
Proof.
  intros Hnil Hbefore.
  assert (Hreach : forall members, hasMember "options" members = false ->
            reached (fun cmd => Command.Options (cmd_raw cmd) = None)
              (fold_left (storeMember cmd_field) members (Done (mkRawCmd c0 false)))).
  { intros members Hnone. apply fold_reached; [|exact Hnil].
    intros k x cmd Hin Hcmd. apply cmd_field_options_other; [|exact Hcmd].
    exact (hasMember_false "options" members k x Hnone Hin). }
  split; [|split].
  - unfold Command_UnmarshalJSON. cbn [decodeObject].
    rewrite !fold_left_app. cbn [fold_left].
    rewrite (storeMember_options_empty _ (Hreach before Hbefore)). reflexivity.
  - intros Hafter c Hdec.
    apply Command_UnmarshalJSON_Ok in Hdec as (cmd & Hfold & _ & _ & ->).
    assert (Hboth : hasMember "options" (before ++ after) = false)
      by (unfold hasMember in *; rewrite existsb_app, Hbefore, Hafter; reflexivity).
    specialize (Hreach _ Hboth). rewrite Hfold in Hreach. exact Hreach.
  - intros [id type app guild name desc opts nodef version] j.
    cbn [Command.Options]. intros -> Henc.
    unfold Command_MarshalJSON, omitemptyN, encodeUint in Henc.
    cbn [Command.ID Command.Type_ Command.AppID Command.GuildID Command.Name
         Command.Description Command.Options Command.NoDefaultPermission
         Command.Version omitemptySlice] in Henc.
    destruct (encodeSnowflake id); [|discriminate Henc].
    destruct (encodeSnowflake app); [|destruct (N.eqb type 0); discriminate Henc].
    destruct (N.eqb type 0); destruct (N.eqb guild 0); destruct (N.eqb version 0);
      cbn [rbind] in Henc;
      try (destruct (encodeSnowflake guild); cbn [rbind] in Henc;
           [|discriminate Henc]);
      try (destruct (encodeSnowflake version); cbn [rbind] in Henc;
           [|discriminate Henc]);
      injection Henc as <-; eexists; split; reflexivity.
Qed.

End CommandOptionsField.

(* ----------------------------------------------------------------- *)
(** *** Commands *)

Section Commands.
Context `{Imports}.

#[local] Arguments decodeSnowflake : simpl never.
#[local] Arguments CommandOptions_UnmarshalJSON : simpl never.

Lemma decodeSnowflake_portable (x : Snowflake) :
  portableID x = true ->
  exists v, encodeSnowflake x = Ok v /\ forall old, decodeSnowflake v old = Done x.
Proof.
  unfold portableID, encodeSnowflake, decodeSnowflake.
  destruct (Snowflake_MarshalJSON x) as [v|]; [|discriminate].
  destruct (Snowflake_UnmarshalJSON v) as [y|] eqn:Hdec; [|discriminate].
  intros Heq. apply N.eqb_eq in Heq. subst y.
  exists v. split; [reflexivity|]. intros old. rewrite Hdec. reflexivity.
Qed.

Lemma options_roundtrip (l : list CommandOption) :
  forallb (fun o => known o && canonical o && portable o) l = true ->
  exists vs,
    mapR CommandOption_Marshal l = Ok vs /\
    mapD decodeUnknown vs = Done (map decodedAs (map utf8Option l)).
Proof.
  induction l as [|o l IH]; cbn [forallb]; intros Hall.
  - exists []. split; reflexivity.
  - apply andb_prop in Hall as [Ho Hl]. apply andb_prop in Ho as [Ho Hp].
    apply andb_prop in Ho as [Hk Hc].
    destruct (CommandOption_roundtrip o Hk Hc Hp) as (j & Henc & Hdec).
    destruct (IH Hl) as (vs & Hencs & Hdecs).
    exists (j :: vs). rewrite mapR_cons, Henc, Hencs, mapD_cons, Hdecs.
    unfold decodeUnknown at 1. rewrite Hdec. split; reflexivity.
Qed.

Lemma CommandOptions_roundtrip (o : CommandOption) (l : list CommandOption) :
  forallb (fun o => known o && canonical o && portable o) (o :: l) = true ->
  exists vs,
    mapR CommandOption_Marshal (o :: l) = Ok vs /\
    CommandOptions_UnmarshalJSON (JArr vs) = Ok (Some (map utf8Option (o :: l))).
Proof.
  intros Hall. destruct (options_roundtrip (o :: l) Hall) as (vs & Henc & Hdec).
  exists vs. split; [exact Henc|].
  unfold CommandOptions_UnmarshalJSON, decodeSlice. rewrite Hdec.
  cbn [dbind Unmarshal len map List.length Nat.eqb data decodedAs].
  rewrite map_map. cbn [data decodedAs]. rewrite map_id. reflexivity.
Qed.

Lemma decodeUint_FormatUint (n old : N) :
  is_uint n = true -> decodeUint (JNum (FormatUint n)) old = Done n.
Proof. intros Hn. unfold decodeUint. rewrite (ParseUint_FormatUint n Hn). reflexivity. Qed.

Section Stores.
Variables (id : CommandID) (type : CommandType) (app : AppID) (guild : GuildID)
  (name desc : string) (opts : CommandOptions) (nodef : bool) (version : Snowflake)
  (dp : bool) (v : value).

Lemma store_id :
  cmd_field "id" v
    (mkRawCmd (Command.mk id type app guild name desc opts nodef version) dp)
  = (x <- decodeSnowflake v id ;; Done (mkRawCmd (Command.mk x type app guild name desc opts nodef version) dp))%dec.
Proof. reflexivity. Qed.

Lemma store_type :
  cmd_field "type" v
    (mkRawCmd (Command.mk id type app guild name desc opts nodef version) dp)
  = (x <- decodeUint v type ;; Done (mkRawCmd (Command.mk id x app guild name desc opts nodef version) dp))%dec.
Proof. reflexivity. Qed.

Lemma store_application_id :
  cmd_field "application_id" v
    (mkRawCmd (Command.mk id type app guild name desc opts nodef version) dp)
  = (x <- decodeSnowflake v app ;; Done (mkRawCmd (Command.mk id type x guild name desc opts nodef version) dp))%dec.
Proof. reflexivity. Qed.

Lemma store_guild_id :
  cmd_field "guild_id" v
    (mkRawCmd (Command.mk id type app guild name desc opts nodef version) dp)
  = (x <- decodeSnowflake v guild ;; Done (mkRawCmd (Command.mk id type app x name desc opts nodef version) dp))%dec.
Proof. reflexivity. Qed.

Lemma store_name :
  cmd_field "name" v
    (mkRawCmd (Command.mk id type app guild name desc opts nodef version) dp)
  = (x <- decodeString v name ;; Done (mkRawCmd (Command.mk id type app guild x desc opts nodef version) dp))%dec.
Proof. reflexivity. Qed.

Lemma store_description :
  cmd_field "description" v
    (mkRawCmd (Command.mk id type app guild name desc opts nodef version) dp)
  = (x <- decodeString v desc ;; Done (mkRawCmd (Command.mk id type app guild name x opts nodef version) dp))%dec.
Proof. reflexivity. Qed.

Lemma store_version :
  cmd_field "version" v
    (mkRawCmd (Command.mk id type app guild name desc opts nodef version) dp)
  = (x <- decodeSnowflake v version ;; Done (mkRawCmd (Command.mk id type app guild name desc opts nodef x) dp))%dec.
Proof. reflexivity. Qed.

Lemma store_options :
  cmd_field "options" v
    (mkRawCmd (Command.mk id type app guild name desc opts nodef version) dp)
  = (x <- callUnmarshaler (CommandOptions_UnmarshalJSON v) ;;
     Done (mkRawCmd (Command.mk id type app guild name desc x nodef version) dp))%dec.
Proof. reflexivity. Qed.

Lemma store_default_permission :
  cmd_field "default_permission" v
    (mkRawCmd (Command.mk id type app guild name desc opts nodef version) dp)
  = (x <- decodeBool v dp ;;
     Done (mkRawCmd (Command.mk id type app guild name desc opts nodef version) x))%dec.
Proof. reflexivity. Qed.

End Stores.

(** A command that passes through the codecs is encoded, and decoding the
    encoding into a new command gives it back, with its strings as they
    were written and its type set to [ChatInputCommand] when it was 0. *)
Lemma Command_roundtrip (c : Command.t) :
  portableCommand c = true ->
  exists j,
    Command_MarshalJSON c = Ok j /\
    Command_UnmarshalJSON j Command.zero = Ok (withDefaultType (utf8Command c)).
Proof.
  destruct c as [id type app guild name desc opts nodef version].
  unfold portableCommand, withDefaultType, utf8Command.
  cbn [Command.ID Command.Type_ Command.AppID Command.GuildID Command.Name
       Command.Description Command.Options Command.NoDefaultPermission
       Command.Version].
  intros Hall.
  repeat match type of Hall with
         | (_ && _)%bool = true =>
             let H1 := fresh "Hp" in apply andb_prop in Hall as [Hall H1]
         end.
  destruct (decodeSnowflake_portable id Hall) as (vid & Eid & Did).
  destruct (decodeSnowflake_portable app Hp4) as (vapp & Eapp & Dapp).
  assert (Hguild : guild = 0%N \/
            ((guild =? 0)%N = false /\
             exists v, encodeSnowflake guild = Ok v /\
                       forall old, decodeSnowflake v old = Done guild)).
  { destruct (N.eqb_spec guild 0); [left; assumption|right]. split; [reflexivity|].
    apply decodeSnowflake_portable. exact Hp3. }
  assert (Hversion : version = 0%N \/
            ((version =? 0)%N = false /\
             exists v, encodeSnowflake version = Ok v /\
                       forall old, decodeSnowflake v old = Done version)).
  { destruct (N.eqb_spec version 0); [left; assumption|right]. split; [reflexivity|].
    apply decodeSnowflake_portable. exact Hp2. }
  assert (Hopts : opts = None \/
            exists o l vs, opts = Some (o :: l) /\
              mapR CommandOption_Marshal (o :: l) = Ok vs /\
              CommandOptions_UnmarshalJSON (JArr vs)
              = Ok (Some (map utf8Option (o :: l)))).
  { destruct opts as [[|o l]|]; try discriminate; [right|left; reflexivity].
    destruct (CommandOptions_roundtrip o l Hp) as (vs & Henc & Hdec).
    exists o, l, vs. auto. }
  assert (Htype : type = 0%N \/ (type =? 0)%N = false)
    by (destruct (N.eqb_spec type 0); auto).
  unfold Command_MarshalJSON, omitemptyN, encodeUint.
  cbn [Command.ID Command.Type_ Command.AppID Command.GuildID Command.Name
       Command.Description Command.Options Command.NoDefaultPermission
       Command.Version].
  rewrite Eid, Eapp. cbn [rbind].
  destruct Hguild as [->|(Zg & vg & Eg & Dg)]; [|rewrite Zg, Eg];
    (destruct Hversion as [->|(Zv & vv & Ev & Dv)]; [|rewrite Zv, Ev]);
    (destruct Hopts as [->|(o & l & vs & -> & Eo & Do)];
     [|unfold omitemptySlice; rewrite Eo]);
    (destruct Htype as [->|Zt]; [|rewrite Zt]);
    cbn [rbind N.eqb omitemptySlice List.app];
    (eexists; split; [reflexivity|]);
    unfold Command_UnmarshalJSON, decodeObject, Command.zero;
    cbn [fold_left storeMember dbind];
    repeat (first [ rewrite store_id, Did
                  | rewrite store_type, decodeUint_FormatUint by exact Hp1
                  | rewrite store_application_id, Dapp
                  | rewrite store_guild_id, Dg
                  | rewrite store_name
                  | rewrite store_description
                  | rewrite store_options, Do
                  | rewrite store_version, Dv
                  | rewrite store_default_permission ];
            cbn [dbind decodeString decodeBool callUnmarshaler encodeString]);
    cbn [Unmarshal cmd_raw cmd_DefaultPermission N.eqb];
    rewrite ?Zt, ?negb_involutive; reflexivity.
Qed.

(** [default_permission] is the last member [Command.MarshalJSON] writes. *)
Lemma Command_MarshalJSON_members (c : Command.t) (j : value) :
  Command_MarshalJSON c = Ok j ->
  exists members,
    j = JObj (members ++ [("default_permission",
                           JBool (negb (Command.NoDefaultPermission c)))]).
Proof.
  unfold Command_MarshalJSON. cbv zeta. intros Henc.
  repeat match type of Henc with
         | rbind ?m _ = _ => destruct m; cbn [rbind] in Henc; [|discriminate Henc]
         end.
  injection Henc as <-.
  repeat first [rewrite app_comm_cons | rewrite app_assoc]. eexists. reflexivity.
Qed.

Lemma scalarMember_last (tag : string) (members : list (string * value)) (x : value) :
  EqualFold tag tag = true -> x <> JNull ->
  scalarMember tag (members ++ [(tag, x)]) = Some x.
Proof.
  intros Htag Hx. unfold scalarMember. rewrite fold_left_app. cbn [fold_left].
  unfold pickMember at 1. cbn [fst snd]. rewrite Htag.
  destruct x; try reflexivity. destruct (Hx eq_refl).
Qed.

(** The flag after decoding: the inverse of the last [default_permission]
    member that is not [null], and true when there is none. *)
Lemma NoDefaultPermission_after (members : list (string * value)) (c0 c' : Command.t) :
  Command_UnmarshalJSON (JObj members) c0 = Ok c' ->
  match scalarMember "default_permission" members with
  | Some x => exists b, readBool x = Some b /\ Command.NoDefaultPermission c' = negb b
  | None => Command.NoDefaultPermission c' = true
  end.
Proof.
  intros Hdec.
  apply Command_UnmarshalJSON_Ok in Hdec as (cmd & Hfold & Hflag & _).
  pose proof (scalar_after cmd_field "default_permission" cmd_DefaultPermission
                readBool cmd_field_permission_other cmd_field_permission
                members _ _ Hfold) as Hafter.
  destruct (scalarMember "default_permission" members) as [x|].
  - exists (cmd_DefaultPermission cmd). split; assumption.
  - cbn [cmd_DefaultPermission] in Hafter. rewrite Hflag, Hafter. reflexivity.
Qed.

(** C7.  [Command.MarshalJSON] writes [default_permission] as the inverse
    of [NoDefaultPermission]: true for a flag that is not set, false for
    one that is.  [Command.UnmarshalJSON] sets the flag to the inverse of
    the [default_permission] it reads.  So the flag of a decoded encoding
    is the flag that was encoded, and a command that passes through the
    codecs is encoded and decoded back with its flag. *)
Theorem default_permission_polarity (c : Command.t) :
  (forall j, Command_MarshalJSON c = Ok j ->
     exists members,
       j = JObj members /\
       scalarMember "default_permission" members
         = Some (JBool (negb (Command.NoDefaultPermission c)))) /\
  (forall members c0 c',
     Command_UnmarshalJSON (JObj members) c0 = Ok c' ->
     match scalarMember "default_permission" members with
     | Some x => exists b, readBool x = Some b /\ Command.NoDefaultPermission c' = negb b
     | None => Command.NoDefaultPermission c' = true
     end) /\
  (forall j c0 c',
     Command_MarshalJSON c = Ok j ->
     Command_UnmarshalJSON j c0 = Ok c' ->
     Command.NoDefaultPermission c' = Command.NoDefaultPermission c) /\
  (portableCommand c = true ->
   exists j c',
     Command_MarshalJSON c = Ok j /\
     Command_UnmarshalJSON j Command.zero = Ok c' /\
     Command.NoDefaultPermission c' = Command.NoDefaultPermission c).
Proof.
  assert (Hwritten : forall j, Command_MarshalJSON c = Ok j ->
            exists members,
              j = JObj members /\
              scalarMember "default_permission" members
                = Some (JBool (negb (Command.NoDefaultPermission c)))).
  { intros j Henc.
    destruct (Command_MarshalJSON_members c j Henc) as (members & ->).
    eexists. split; [reflexivity|].
    apply scalarMember_last; [reflexivity|discriminate]. }
  split; [exact Hwritten|]. split; [exact NoDefaultPermission_after|]. split.
  - intros j c0 c' Henc Hdec.
    destruct (Hwritten j Henc) as (members & -> & Hlast).
    pose proof (NoDefaultPermission_after members c0 c' Hdec) as Hflag.
    rewrite Hlast in Hflag. destruct Hflag as (b & [= <-] & ->).
    apply negb_involutive.
  - intros Hc. destruct (Command_roundtrip c Hc) as (j & Henc & Hdec).
    exists j, (withDefaultType (utf8Command c)). repeat split; assumption.
Qed.

End Commands.

(* ----------------------------------------------------------------- *)
(** *** Commands: sample commands and documents *)

Section CommandSamples.
Import reference.
#[local] Existing Instance reference.imports.

Lemma default_permission_polarity_witness :
  (portableCommand (sampleCommand false) = true /\
   exists j c',
     Command_MarshalJSON (sampleCommand false) = Ok j /\
     Command_UnmarshalJSON j Command.zero = Ok c' /\
     Command.NoDefaultPermission c' = false) /\
  (portableCommand (sampleCommand true) = true /\
   exists j c',
     Command_MarshalJSON (sampleCommand true) = Ok j /\
     Command_UnmarshalJSON j Command.zero = Ok c' /\
     Command.NoDefaultPermission c' = true).
Proof.
  split; (split; [reflexivity|]).
  - destruct (default_permission_polarity (sampleCommand false)) as (_ & _ & _ & Hrt).
    exact (Hrt eq_refl).
  - destruct (default_permission_polarity (sampleCommand true)) as (_ & _ & _ & Hrt).
    exact (Hrt eq_refl).
Defined.

(** What is on the wire for the two values of the flag. *)
Lemma default_permission_written :
  (exists members,
     Command_MarshalJSON (sampleCommand false) = Ok (JObj members) /\
     scalarMember "default_permission" members = Some (JBool true)) /\
  (exists members,
     Command_MarshalJSON (sampleCommand true) = Ok (JObj members) /\
     scalarMember "default_permission" members = Some (JBool false)).
Proof. split; eexists; split; vm_compute; reflexivity. Qed.


(** A type of zero is read as [ChatInputCommand], another type is kept. *)
Lemma Command_type_zero_and_user :
  (exists c,
     Command_UnmarshalJSON (JObj [("id", JStr "1"); ("type", JNum "0")]) Command.zero
       = Ok c /\ Command.Type_ c = ChatInputCommand) /\
  (exists c,
     Command_UnmarshalJSON (JObj [("id", JStr "1"); ("type", JNum "2")]) Command.zero
       = Ok c /\ Command.Type_ c = UserCommand).
Proof. split; eexists; split; vm_compute; reflexivity. Qed.

Lemma empty_options_as_absent_witness :
  let before := [("id", JStr "1")] in
  let after := [("name", JStr "ping")] in
  Command.Options Command.zero = None /\
  hasMember "options" before = false /\
  Command_UnmarshalJSON (JObj (before ++ ("options", JArr []) :: after)) Command.zero
    = Command_UnmarshalJSON (JObj (before ++ after)) Command.zero /\
  Command_UnmarshalJSON (JObj (before ++ after)) Command.zero
    = Ok (Command.mk 1%N ChatInputCommand 0%N 0%N "ping" "" None true 0%N).
Proof.
  cbv zeta. split; [reflexivity|]. split; [reflexivity|]. split.
  - exact (proj1 (empty_options_as_absent [("id", JStr "1")] [("name", JStr "ping")]
                    Command.zero eq_refl eq_refl)).
  - vm_compute. reflexivity.
Defined.

End CommandSamples.

End discord_props.

(* ================================================================= *)
(** ** The websocket connection *)

Module wsutil_props.
Import golang errors wsutil.
Local Open Scope list_scope.

Lemma take_length (n : nat) (s : string) :
  String.length (take n s) = Nat.min n (String.length s).
Proof.
  revert s; induction n as [|n IH]; intros [|c r]; simpl; auto.
Qed.

Lemma take_all (n : nat) (s : string) :
  String.length s <= n -> take n s = s.
Proof.
  revert s; induction n as [|n IH]; intros [|c r]; simpl; intros Hle;
    try reflexivity; try lia.
  f_equal; apply IH; lia.
Qed.

Lemma take_prefix (n : nat) (s : string) : String.prefix (take n s) s = true.
Proof.
  revert s; induction n as [|n IH]; intros [|c r]; simpl; auto.
  destruct (ascii_dec c c) as [_|Hne]; [apply IH | congruence].
Qed.

(** The reason [Conn.Close] passes on for an error with message [msg]. *)
Lemma reason_cases (msg : string) :
  let reason := if (125 <? String.length msg)%nat then take 125 msg else msg in
  String.length reason <= 125 /\
  String.prefix reason msg = true /\
  (String.length msg <= 125 -> reason = msg) /\
  (125 < String.length msg -> String.length reason = 125).
Proof.
  cbv zeta. destruct (Nat.ltb_spec 125 (String.length msg)) as [Hlt|Hge].
  - rewrite take_length, take_prefix. repeat split; lia.
  - repeat split; try lia.
    rewrite <- (take_all _ _ Hge) at 1. apply take_prefix.
Qed.



(** One turn of the loop on a read that is no closure: one event, and the
    loop goes on with the next read. *)
Lemma readLoop_continue (next : Incoming) (rest : list Incoming) :
  closureStatus next = None ->
  exists ev : Event,
    readLoop (next :: rest) = (ev :: fst (readLoop rest), snd (readLoop rest)) /\
    ev = match fst (readAll next) with
         | inl b => mkEvent (Some b) None
         | inr err => mkEvent None (Some (Wrap err "WS error"))
         end.
Proof.
  unfold closureStatus. intros Hc. cbn [readLoop].
  destruct (fst (readAll next)) as [b|err].
  - destruct (readLoop rest) as [evs st]. eexists; split; reflexivity.
  - destruct (CloseStatus err >? -1)%Z; [discriminate|].
    destruct (readLoop rest) as [evs st]. eexists; split; reflexivity.
Qed.

Lemma readLoop_app (pre rest : list Incoming) :
  Forall (fun x => closureStatus x = None) pre ->
  exists evs : list Event,
    readLoop pre = (evs, Reading) /\
    List.length evs = List.length pre /\
    readLoop (pre ++ rest) = (evs ++ fst (readLoop rest), snd (readLoop rest)).
Proof.
  induction 1 as [|x pre Hx Hpre (evs & Hrun & Hlen & Happ)].
  - exists []. simpl. destruct (readLoop rest); auto.
  - destruct (readLoop_continue x (pre ++ rest) Hx) as (ev' & Hstep' & Hev').
    destruct (readLoop_continue x pre Hx) as (ev & Hstep & Hev).
    assert (ev' = ev) by congruence. subst ev'.
    exists (ev :: evs). rewrite Hstep, Hrun.
    change ((x :: pre) ++ rest) with (x :: (pre ++ rest)).
    rewrite Hstep', Happ. simpl. repeat split; congruence.
Qed.

(** C6.  In [readLoop], after any number of reads that were no closure
    (each of which has produced one event, the loop still running), the
    next read produces exactly one [Event{b, nil}] when it succeeds and
    exactly one [Event{nil, error}] when it fails without being a closure,
    and in both cases the loop goes on with the reads that follow; on an
    abnormal closure it produces exactly one [Event{nil, error}] and the
    loop returns; on a normal closure it produces no event and the loop
    returns. *)
Theorem readLoop_per_frame (pre : list Incoming) (next : Incoming) (post : list Incoming) :
  Forall (fun x => closureStatus x = None) pre ->
  exists evs : list Event,
    readLoop pre = (evs, Reading) /\
    List.length evs = List.length pre /\
    match fst (readAll next) with
    | inl b =>
        readLoop (pre ++ next :: post)
          = (evs ++ mkEvent (Some b) None :: fst (readLoop post), snd (readLoop post))
    | inr err =>
        match closureStatus next with
        | None =>
            readLoop (pre ++ next :: post)
              = (evs ++ mkEvent None (Some (Wrap err "WS error")) :: fst (readLoop post),
                 snd (readLoop post))
        | Some code =>
            if (code =? StatusNormalClosure)%Z
            then readLoop (pre ++ next :: post) = (evs, Returned)
            else readLoop (pre ++ next :: post)
                   = (evs ++ [mkEvent None (Some (Wrap err "WS fatal"))], Returned)
        end
    end.
Proof.
  intros Hpre.
  destruct (readLoop_app pre (next :: post) Hpre) as (evs & Hrun & Hlen & Happ).
  exists evs. split; [exact Hrun|]. split; [exact Hlen|].
  rewrite Happ. clear Happ Hrun Hlen Hpre.
  unfold closureStatus. cbn [readLoop].
  destruct (fst (readAll next)) as [b|err].
  - destruct (readLoop post); reflexivity.
  - destruct (CloseStatus err >? -1)%Z.
    + destruct (CloseStatus err =? StatusNormalClosure)%Z; simpl;
        rewrite ?app_nil_r; reflexivity.
    + destruct (readLoop post); reflexivity.
Qed.

Lemma readLoop_per_frame_witness :
  Forall (fun x => closureStatus x = None) (firstn 3 sampleInput) /\
  readLoop sampleInput
    = ([ mkEvent (Some "A") None;
         mkEvent None (Some (Wrap (Wrap (New "zlib: invalid header")
                                     "Failed to create a zlib reader") "WS error"));
         mkEvent None (Some (Wrap (New "failed to get reader: timeout") "WS error"));
         mkEvent None (Some (Wrap (Wrap (CloseError 1006 "") "failed to get reader")
                               "WS fatal")) ],
       Returned).
Proof.
  assert (Hpre : Forall (fun x => closureStatus x = None) (firstn 3 sampleInput))
    by (repeat constructor).
  split; [exact Hpre|].
  destruct (readLoop_per_frame (firstn 3 sampleInput)
              (ReaderError (Wrap (CloseError 1006 "") "failed to get reader"))
              [NextMessage (mkMessage MessageText None (inl "E"))] Hpre)
    as (evs & Hrun & _ & Hnext).
  vm_compute in Hrun. injection Hrun as <-. exact Hnext.
Defined.

(** [Dial] on a network that connects: the socket is kept, its read limit
    is set, one read loop is started and [nil] is returned. *)
Lemma Dial_connected (network : string -> DialResult) (c : Conn) (addr : string)
    (sock : Socket) :
  network addr = Connected sock ->
  Dial network c addr
    = Returns (mkConn (Some (mkSocket (incoming sock) (closeAnswer sock)
                               (Some WSReadLimit) (closeReads sock) (closes sock)))
                 (events c) (S (readLoops c)),
               None).
Proof. intros Hnet. unfold Dial. rewrite Hnet. reflexivity. Qed.

(** [Dial] on a network that refuses: [c.Conn] is nil when [SetReadLimit]
    is called on it. *)
Lemma Dial_failed (network : string -> DialResult) (c : Conn) (addr : string)
    (err : error) :
  network addr = DialFailed err -> Dial network c addr = Panics.
Proof. intros Hnet. unfold Dial. rewrite Hnet. reflexivity. Qed.

(** C9.  When the underlying dial fails, [Dial] does not return the dial
    error: it calls [SetReadLimit] on the nil connection it was given and
    panics. *)
Theorem Dial_refused_panics :
  Dial refusingNetwork NewConn "wss://gateway.discord.gg" = Panics.
Proof. reflexivity. Qed.

End wsutil_props.

(* ================================================================= *)
(** ** The session *)

Module session_props.
Import golang errors session.
Local Open Scope list_scope.

(** What the gateway answers to its next [n] calls of [Close]. *)
Lemma Close_stopped (s : Session) :
  wstop (state s) = true ->
  Close s = Returns (mkSession (fst (Gateway_Close (gateway s))) (state s)
                       (handlers s) (stops s),
                     closeAnswer (gateway s) (S (closes (gateway s)))).
Proof. intros Hdone. unfold Close. rewrite Hdone. reflexivity. Qed.

Lemma CloseTimes_stopped (n : nat) (s : Session) :
  wstop (state s) = true ->
  exists s' : Session,
    CloseTimes n s
      = Returns (s', map (fun i => closeAnswer (gateway s) (closes (gateway s) + i))
                       (seq 1 n)) /\
    closes (gateway s') = closes (gateway s) + n /\
    closeAnswer (gateway s') = closeAnswer (gateway s) /\
    state s' = state s /\
    stops s' = stops s.
Proof.
  revert s. induction n as [|n IH]; intros s Hdone.
  - exists s. simpl. repeat split; auto with arith.
  - cbn [CloseTimes]. rewrite (Close_stopped s Hdone).
    set (s1 := mkSession _ _ _ _).
    destruct (IH s1 Hdone) as (s' & Hrun & Hcl & Hans & Hst & Hstops).
    exists s'. rewrite Hrun. subst s1. simpl in *.
    repeat split; try assumption; try lia.
    do 3 f_equal.
    + f_equal. lia.
    + rewrite <- (seq_shift n 1), map_map. apply map_ext. intros i. f_equal. lia.
Qed.

(** The first [Close] after [Open]: the stop signal is closed. *)
Lemma Close_fresh (s : Session) :
  state s = mkState (Some ChanOpen) false ->
  Close s = Returns (mkSession (fst (Gateway_Close (gateway s)))
                       (mkState (Some ChanClosed) true) (handlers s) (S (stops s)),
                     closeAnswer (gateway s) (S (closes (gateway s)))).
Proof. intros Hfresh. unfold Close. rewrite Hfresh. reflexivity. Qed.

(** C3, as the code has it.  After [Open], [n] calls of [Close] in a row
    never panic; the stop signal is closed by the first call and by no
    later one (the one-shot guard); every call, the first and the later
    ones alike, calls the gateway's [Close] and returns what it returns,
    so the gateway's [Close] has been called [n] more times at the end. *)
Theorem Close_repeated (s0 : Session) (n : nat) :
  let s := fst (Open s0) in
  exists s' : Session,
    CloseTimes n s
      = Returns (s', map (fun i => closeAnswer (gateway s) (closes (gateway s) + i))
                       (seq 1 n)) /\
    closes (gateway s') = closes (gateway s) + n /\
    stops s' = stops s + match n with O => 0 | S _ => 1 end /\
    hstop (state s') = Some match n with O => ChanOpen | S _ => ChanClosed end.
Proof.
  cbv zeta. destruct n as [|n].
  - exists (fst (Open s0)). simpl. repeat split; auto with arith.
  - set (s := fst (Open s0)).
    assert (Hfresh : state s = mkState (Some ChanOpen) false) by reflexivity.
    cbn [CloseTimes]. rewrite (Close_fresh s Hfresh).
    set (s1 := mkSession _ _ _ _).
    destruct (CloseTimes_stopped n s1 eq_refl) as (s' & Hrun & Hcl & _ & Hst & Hstops).
    exists s'. rewrite Hrun. subst s1. simpl in *.
    rewrite Hst, Hstops. simpl. repeat split; try lia.
    do 3 f_equal.
    + f_equal. lia.
    + rewrite <- (seq_shift n 1), map_map. apply map_ext. intros i. f_equal. lia.
Qed.

(** Three calls of [Close] after [Open], on a gateway that never fails:
    the gateway's [Close] is called three times, not once. *)
Lemma Close_thrice_closes_gateway_thrice :
  let s := fst (Open (NewWithGateway quietGateway)) in
  exists s' : Session,
    CloseTimes 3 s = Returns (s', [None; None; None]) /\
    stops s' = 1 /\
    closes (gateway s') = 3 /\
    closes (gateway s') <> 1.
Proof.
  cbv zeta. eexists. split; [reflexivity|]. simpl. repeat split; lia.
Qed.

End session_props.

(* ================================================================= *)
(** ** More on the websocket connection *)

Module wsutil_more.
Import golang errors wsutil.
Local Open Scope list_scope.

(** One turn of [readLoop], by what it read. *)
Lemma readLoop_cons (next : Incoming) (rest : list Incoming) :
  readLoop (next :: rest)
  = match fst (readAll next) with
    | inl b => (mkEvent (Some b) None :: fst (readLoop rest), snd (readLoop rest))
    | inr err =>
        match closureStatus next with
        | None => (mkEvent None (Some (Wrap err "WS error")) :: fst (readLoop rest),
                   snd (readLoop rest))
        | Some code =>
            if (code =? StatusNormalClosure)%Z then ([], Returned)
            else ([mkEvent None (Some (Wrap err "WS fatal"))], Returned)
        end
    end.
Proof.
  unfold closureStatus. cbn [readLoop].
  destruct (fst (readAll next)) as [b|err].
  - destruct (readLoop rest); reflexivity.
  - destruct (CloseStatus err >? -1)%Z.
    + destruct (CloseStatus err =? StatusNormalClosure)%Z; reflexivity.
    + destruct (readLoop rest); reflexivity.
Qed.

Lemma closureStatus_bytes (next : Incoming) (b : string) :
  fst (readAll next) = inl b -> closureStatus next = None.
Proof. unfold closureStatus. intros ->. reflexivity. Qed.

(** X1.  Every event [readLoop] sends has bytes or an error, never both
    and never neither: [Data] is nil exactly when [Error] is not. *)
Theorem events_have_data_or_error (input : list Incoming) :
  Forall (fun ev => Data ev = None <-> Error ev <> None) (fst (readLoop input)).
Proof.
  induction input as [|next rest IH]; [constructor|].
  rewrite readLoop_cons.
  destruct (fst (readAll next)) as [b|err].
  - constructor; [|exact IH]. simpl. split; [discriminate|]. intros Hne. destruct Hne.
    reflexivity.
  - destruct (closureStatus next) as [code|].
    + destruct (code =? StatusNormalClosure)%Z; repeat constructor; simpl;
        intros; discriminate.
    + constructor; [|exact IH]. simpl. split; [discriminate|reflexivity].
Qed.

(** X2.  [readLoop] returns exactly when it reads a closure: an error
    that is no closure, however often it comes, never ends the loop. *)
Theorem readLoop_returns_iff_closure (input : list Incoming) :
  snd (readLoop input) = Returned <->
  Exists (fun next => closureStatus next <> None) input.
Proof.
  induction input as [|next rest IH].
  - simpl. split; [discriminate|]. intros Hex. inversion Hex.
  - rewrite readLoop_cons. destruct (fst (readAll next)) as [b|err] eqn:Hread.
    + pose proof (closureStatus_bytes next b Hread) as Hnone. cbn [snd].
      rewrite IH. split.
      * intros Hex. right. exact Hex.
      * intros Hex. inversion Hex as [? ? Hhere|? ? Hlater]; subst; [|exact Hlater].
        destruct (Hhere Hnone).
    + destruct (closureStatus next) as [code|] eqn:Hcode.
      * assert (Hret : snd (if (code =? StatusNormalClosure)%Z
                            then ([], Returned)
                            else ([mkEvent None (Some (Wrap err "WS fatal"))], Returned))
                       = Returned)
          by (destruct (code =? StatusNormalClosure)%Z; reflexivity).
        rewrite Hret. split; [|reflexivity]. intros _. left. rewrite Hcode. discriminate.
      * cbn [snd]. rewrite IH. split.
        -- intros Hex. right. exact Hex.
        -- intros Hex. inversion Hex as [? ? Hhere|? ? Hlater]; subst; [|exact Hlater].
           destruct (Hhere Hcode).
Qed.

(** X3.  The bytes [readLoop] sends are the bytes of the reads that
    succeeded before the first closure, in the order they were read, each
    once; what the socket has after the first closure is never read. *)
Theorem payloads_in_order (input : list Incoming) :
  flat_map payloadSent (fst (readLoop input))
    = flat_map payloadRead (beforeClosure input) /\
  forall later, Exists (fun next => closureStatus next <> None) input ->
                readLoop (input ++ later) = readLoop input.
Proof.
  split.
  - induction input as [|next rest IH]; [reflexivity|].
    rewrite readLoop_cons. cbn [beforeClosure].
    assert (Hpay : payloadRead next = match fst (readAll next) with
                                      | inl b => [b]
                                      | inr _ => []
                                      end) by reflexivity.
    destruct (fst (readAll next)) as [b|err] eqn:Hread.
    + rewrite (closureStatus_bytes next b Hread). cbn [fst flat_map].
      rewrite Hpay, IH. reflexivity.
    + destruct (closureStatus next) as [code|].
      * destruct (code =? StatusNormalClosure)%Z; reflexivity.
      * cbn [fst flat_map]. rewrite Hpay, IH. reflexivity.
  - intros later. induction input as [|next rest IH]; intros Hex; [inversion Hex|].
    change ((next :: rest) ++ later) with (next :: (rest ++ later)).
    rewrite !readLoop_cons.
    destruct (fst (readAll next)) as [b|err] eqn:Hread.
    + rewrite IH; [reflexivity|].
      inversion Hex as [? ? Hhere|? ? Hlater]; subst; [|exact Hlater].
      destruct (Hhere (closureStatus_bytes next b Hread)).
    + destruct (closureStatus next) as [code|] eqn:Hcode; [reflexivity|].
      rewrite IH; [reflexivity|].
      inversion Hex as [? ? Hhere|? ? Hlater]; subst; [|exact Hlater].
      destruct (Hhere Hcode).
Qed.

(** X4.  Whenever [Dial] returns, it returns nil: the network connected,
    the connection holds that socket with the read limit set to
    [WSReadLimit], one more read loop is running, and a [Close] after it
    does not panic.  A dial error is never returned. *)
Theorem Dial_returns_only_connected (network : string -> DialResult) (c c' : Conn)
    (addr : string) (err : option error) :
  Dial network c addr = Returns (c', err) ->
  err = None /\
  (exists sock,
     network addr = Connected sock /\
     Conn_ c' = Some (mkSocket (incoming sock) (closeAnswer sock) (Some WSReadLimit)
                        (closeReads sock) (closes sock))) /\
  readLoops c' = S (readLoops c) /\
  events c' = events c /\
  forall e, Close c' e <> Panics.
Proof.
  unfold Dial. destruct (network addr) as [sock|e0]; cbn; [|discriminate].
  intros [= <- <-]. split; [reflexivity|]. split; [eexists; split; reflexivity|].
  split; [reflexivity|]. split; [reflexivity|].
  intros [e|]; unfold Close; cbn; discriminate.
Qed.

Lemma Dial_returns_only_connected_witness :
  let network := fun _ : string => Connected (quietSocket sampleInput) in
  exists c',
    Dial network NewConn "wss://gateway.discord.gg" = Returns (c', None) /\
    readLoops c' = 1 /\
    forall e, Close c' e <> Panics.
Proof.
  cbv zeta. eexists. split; [reflexivity|].
  destruct (Dial_returns_only_connected
              (fun _ : string => Connected (quietSocket sampleInput)) NewConn _
              "wss://gateway.discord.gg" None eq_refl)
    as (_ & _ & Hloops & _ & Hclose).
  split; [exact Hloops|exact Hclose].
Defined.

Lemma Close_dialed (c : Conn) (sock : Socket) (err : option error) :
  Conn_ c = Some sock ->
  Close c err
  = Returns (closedWith c sock (fst (closeArguments err)) (snd (closeArguments err)),
             closeAnswer sock (fst (closeArguments err)) (snd (closeArguments err))).
Proof. unfold Close. intros ->. destruct err; reflexivity. Qed.

(** X5.  [Close] has no guard of its own: on a connection that holds a
    socket, every call of a row of calls reaches the socket, which
    receives one close per call, in order, each with the status and the
    reason of its error, and the calls return what the socket answered;
    on a connection that was never dialed the first call panics. *)
Theorem Close_reaches_socket_every_time (errs : list (option error)) (c : Conn) :
  match Conn_ c with
  | None => errs = [] \/ CloseEach errs c = Panics
  | Some sock =>
      exists c' sock' rs,
        CloseEach errs c = Returns (c', rs) /\
        Conn_ c' = Some sock' /\
        closes sock' = closes sock ++ map closeArguments errs /\
        rs = map (fun err => closeAnswer sock (fst (closeArguments err))
                               (snd (closeArguments err))) errs /\
        events c' = events c /\ readLoops c' = readLoops c
  end.
Proof.
  destruct (Conn_ c) as [sock|] eqn:Hsock.
  - revert c sock Hsock. induction errs as [|err errs IH]; intros c sock Hsock.
    + exists c, sock, []. cbn [CloseEach map]. rewrite app_nil_r.
      repeat split; first [exact Hsock|reflexivity].
    + cbn [CloseEach]. rewrite (Close_dialed c sock err Hsock).
      destruct (IH (closedWith c sock (fst (closeArguments err))
                      (snd (closeArguments err))) _ eq_refl)
        as (c' & sock' & rs & -> & Hc' & Hcloses & -> & Hev & Hloops).
      exists c', sock'. eexists. split; [reflexivity|]. split; [exact Hc'|].
      cbn [closes closeAnswer map] in *. rewrite Hcloses, <- app_assoc.
      destruct (closeArguments err) as [code reason]. cbn [fst snd List.app].
      repeat split; assumption.
  - destruct errs as [|err errs]; [left; reflexivity|right].
    cbn [CloseEach]. unfold Close. rewrite Hsock. destruct err; reflexivity.
Qed.

End wsutil_more.

(* ================================================================= *)
(** ** More on the session *)

Module session_more.
Import golang errors session.
Local Open Scope list_scope.

Lemma run_app (calls later : list call) (s : Session) :
  run (calls ++ later) s
  = match run calls s with
    | Panics => Panics
    | Returns s' => run later s'
    end.
Proof.
  revert s. induction calls as [|[|] calls IH]; intros s; cbn [List.app run].
  - reflexivity.
  - apply IH.
  - destruct (Close s) as [[s' err]|]; [apply IH|reflexivity].
Qed.

(** [Close] on an armed session returns, leaves it armed with the stop
    channel closed, and calls the gateway once. *)
Lemma Close_armed (s : Session) :
  armed (state s) = true ->
  exists s' err,
    Close s = Returns (s', err) /\
    state s' = mkState (Some ChanClosed) true /\
    stops s' = stops s + (if wstop (state s) then 0 else 1) /\
    handlers s' = handlers s /\
    opens (gateway s') = opens (gateway s) /\
    closes (gateway s') = S (closes (gateway s)).
Proof.
  destruct s as [g [[[|]|] [|]] h n]; cbn; try discriminate; intros _;
    do 2 eexists; (split; [reflexivity|]); cbn; repeat split; lia.
Qed.

Lemma Open_arms (s : Session) :
  state (fst (Open s)) = mkState (Some ChanOpen) false /\
  stops (fst (Open s)) = stops s /\
  handlers (fst (Open s)) = S (handlers s) /\
  opens (gateway (fst (Open s))) = S (opens (gateway s)) /\
  closes (gateway (fst (Open s))) = closes (gateway s).
Proof. repeat split. Qed.

Lemma run_armed (calls : list call) (s : Session) :
  armed (state s) = true ->
  exists s', run calls s = Returns s' /\ armed (state s') = true.
Proof.
  revert s. induction calls as [|[|] calls IH]; intros s Harmed; cbn [run].
  - exists s. split; [reflexivity|exact Harmed].
  - apply IH. reflexivity.
  - destruct (Close_armed s Harmed) as (s' & err & -> & Hst & _).
    apply IH. rewrite Hst. reflexivity.
Qed.

(** X6.  Once [Open] has been called, no sequence of further [Open] and
    [Close] calls panics, and the session stays in a state where the stop
    channel exists and is closed exactly when the guard has run.  A
    [Close] on a session that was never opened panics: its stop channel is
    nil. *)
Theorem Close_needs_Open (calls : list call) (s0 : Session) (gw : Gateway) :
  (exists s', run (CallOpen :: calls) s0 = Returns s' /\ armed (state s') = true) /\
  run (CallClose :: calls) (NewWithGateway gw) = Panics.
Proof.
  split; [|reflexivity]. cbn [run]. apply run_armed. reflexivity.
Qed.

Lemma cycles_S (n k : nat) (s : Session) :
  run (cycles (S n) k) s = run (repeat CallClose k ++ cycles n k) (fst (Open s)).
Proof. reflexivity. Qed.

Lemma run_Closes (k : nat) (s : Session) :
  armed (state s) = true ->
  exists s',
    run (repeat CallClose k) s = Returns s' /\
    armed (state s') = true /\
    stops s' = stops s + (if wstop (state s) then 0 else match k with O => 0 | S _ => 1 end) /\
    handlers s' = handlers s /\
    opens (gateway s') = opens (gateway s) /\
    closes (gateway s') = closes (gateway s) + k.
Proof.
  revert s. induction k as [|k IH]; intros s Harmed; cbn [repeat run].
  - exists s. repeat split; try assumption; destruct (wstop (state s)); lia.
  - destruct (Close_armed s Harmed) as (s1 & err & -> & Hst & Hstops & Hh & Ho & Hc).
    destruct (IH s1) as (s' & Hrun & Harmed' & Hstops' & Hh' & Ho' & Hc');
      [rewrite Hst; reflexivity|].
    exists s'. rewrite Hst in Hstops'. cbn [wstop] in Hstops'.
    repeat split; try assumption; try lia;
      destruct (wstop (state s)); lia.
Qed.

(** X7.  [Open] re-arms the guard: in [n] rounds of one [Open] followed
    by one or more [Close] calls, the stop signal is closed once per round,
    however many times [Close] is called, while every [Close] reaches the
    gateway and every [Open] starts a handler loop. *)
Theorem reopened_session_stops_once_per_round (n k : nat) (s0 : Session) :
  exists s',
    run (cycles n (S k)) s0 = Returns s' /\
    stops s' = stops s0 + n /\
    handlers s' = handlers s0 + n /\
    opens (gateway s') = opens (gateway s0) + n /\
    closes (gateway s') = closes (gateway s0) + n * S k.
Proof.
  revert s0. induction n as [|n IH]; intros s0.
  - exists s0. cbn. repeat split; lia.
  - rewrite cycles_S, run_app.
    destruct (Open_arms s0) as (Hst & Hstops & Hh & Ho & Hc).
    destruct (run_Closes (S k) (fst (Open s0))) as (s1 & -> & _ & Hs1 & Hh1 & Ho1 & Hc1);
      [rewrite Hst; reflexivity|].
    rewrite Hst in Hs1. cbn [wstop] in Hs1.
    destruct (IH s1) as (s' & Hrun & Hs' & Hh' & Ho' & Hc').
    exists s'. repeat split; try assumption; lia.
Qed.

(** X8.  [Login] returns [ErrMFA] exactly when the password login
    succeeded without a usable token (no token, or a token with the MFA
    flag) and no MFA code was given; in that case, and when the password
    login fails or gives a token without the MFA flag, [client.TOTP] plays
    no part in the result. *)
Theorem Login_ErrMFA (NewGateway : string -> Gateway + error)
    (clientLogin : string -> string -> LoginResponse + error)
    (clientTOTP : string -> string -> LoginResponse + error)
    (email password mfa : string) :
  (Login NewGateway clientLogin clientTOTP email password mfa = inr ErrMFA <->
   exists l, clientLogin email password = inl l /\
             (Token l = "" \/ MFA l = true) /\ mfa = "") /\
  ((mfa = "" \/
    (exists err, clientLogin email password = inr err) \/
    (exists l, clientLogin email password = inl l /\ Token l <> "" /\ MFA l = false)) ->
   forall otherTOTP,
     Login NewGateway clientLogin otherTOTP email password mfa
     = Login NewGateway clientLogin clientTOTP email password mfa).
Proof.
  unfold Login, New. split.
  - destruct (clientLogin email password) as [l|err].
    + destruct (String.eqb_spec (Token l) "") as [Htok|Htok];
        destruct (MFA l) eqn:Hmfa; cbn [negb andb];
        try (destruct (String.eqb_spec mfa "") as [Hcode|Hcode];
             [split; [intros _; exists l; auto|reflexivity]
             |split;
              [destruct (clientTOTP mfa (Ticket l)) as [l2|e2];
               [destruct (NewGateway (Token l2)); discriminate|discriminate]
              |intros (l' & [= <-] & _ & Hempty); contradiction]]).
      split.
      * destruct (NewGateway (Token l)); discriminate.
      * intros (l' & [= <-] & [Hno|Hflag] & _); congruence.
    + split; [discriminate|]. intros (l & Hl & _). discriminate.
  - intros Hcase otherTOTP.
    destruct (clientLogin email password) as [l|err]; [|reflexivity].
    destruct (String.eqb_spec (Token l) "") as [Htok|Htok];
      destruct (MFA l) eqn:Hmfa; cbn [negb andb]; try reflexivity;
      (destruct (String.eqb_spec mfa "") as [Hcode|Hcode]; [reflexivity|]);
      destruct Hcase as [Hempty|[(err & Herr)|(l' & [= <-] & Hne & Hflag)]];
      congruence.
Qed.

Lemma Login_ErrMFA_witness :
  let NewGateway := fun _ : string => inl quietGateway in
  let clientLogin := fun _ _ : string => inl (mkLoginResponse true "" "ticket") in
  let clientTOTP := fun _ _ : string => inr (errors.New "unused") in
  Login NewGateway clientLogin clientTOTP "a@b.c" "secret" "" = inr ErrMFA /\
  forall otherTOTP,
    Login NewGateway clientLogin otherTOTP "a@b.c" "secret" ""
    = Login NewGateway clientLogin clientTOTP "a@b.c" "secret" "".
Proof.
  cbv zeta. split; [reflexivity|].
  exact (proj2 (Login_ErrMFA (fun _ => inl quietGateway)
                  (fun _ _ => inl (mkLoginResponse true "" "ticket"))
                  (fun _ _ => inr (errors.New "unused")) "a@b.c" "secret" "")
               (or_introl eq_refl)).
Defined.

(** X9.  A session [Login] returns is a new session on a gateway made for
    a token the service answered with, by the password login or by TOTP;
    it has not been opened, so a [Close] on it panics, and after [Open]
    it can be closed. *)
Theorem Login_session_is_unopened (NewGateway : string -> Gateway + error)
    (clientLogin : string -> string -> LoginResponse + error)
    (clientTOTP : string -> string -> LoginResponse + error)
    (email password mfa : string) (s : Session) :
  Login NewGateway clientLogin clientTOTP email password mfa = inl s ->
  (exists l gw,
     (clientLogin email password = inl l \/
      exists l1, clientLogin email password = inl l1 /\
                 clientTOTP mfa (Ticket l1) = inl l) /\
     NewGateway (Token l) = inl gw /\
     s = NewWithGateway gw) /\
  Close s = Panics /\
  exists s', run [CallOpen; CallClose] s = Returns s'.
Proof.
  intros Hlogin.
  assert (Hnew : exists l gw,
            (clientLogin email password = inl l \/
             exists l1, clientLogin email password = inl l1 /\
                        clientTOTP mfa (Ticket l1) = inl l) /\
            NewGateway (Token l) = inl gw /\ s = NewWithGateway gw).
  { unfold Login, New in Hlogin.
    destruct (clientLogin email password) as [l|err]; [|discriminate].
    destruct (negb (Token l =? "")%string && negb (MFA l)).
    - destruct (NewGateway (Token l)) as [gw|e] eqn:Hgw; [|discriminate].
      injection Hlogin as <-. exists l, gw. auto.
    - destruct (mfa =? "")%string; [discriminate|].
      destruct (clientTOTP mfa (Ticket l)) as [l2|e2] eqn:Htotp; [|discriminate].
      destruct (NewGateway (Token l2)) as [gw|e] eqn:Hgw; [|discriminate].
      injection Hlogin as <-. exists l2, gw. split; [right; exists l; auto|auto]. }
  split; [exact Hnew|]. destruct Hnew as (l & gw & _ & _ & ->).
  split; [reflexivity|]. eexists. reflexivity.
Qed.

Lemma Login_session_is_unopened_witness :
  let NewGateway := fun _ : string => inl quietGateway in
  let clientLogin := fun _ _ : string => inl (mkLoginResponse false "token" "") in
  let clientTOTP := fun _ _ : string => inr (errors.New "unused") in
  Login NewGateway clientLogin clientTOTP "a@b.c" "secret" ""
    = inl (NewWithGateway quietGateway) /\
  Close (NewWithGateway quietGateway) = Panics.
Proof.
  cbv zeta. split; [reflexivity|].
  exact (proj1 (proj2 (Login_session_is_unopened (fun _ => inl quietGateway)
                         (fun _ _ => inl (mkLoginResponse false "token" ""))
                         (fun _ _ => inr (errors.New "unused"))
                         "a@b.c" "secret" "" _ eq_refl))).
Defined.

End session_more.

(* ================================================================= *)
(** ** More on the command codec *)

Module discord_more.
Import golang json discord json_props discord_props.
Local Open Scope list_scope.

(** A member named [name] is stored into the name of the struct; a member
    of another name leaves it. *)
Ltac other_name :=
  let Hk := fresh "Hk" in
  let Hstep := fresh "Hstep" in
  intros Hk; rewrite Hk;
  repeat match goal with
         | |- context [EqualFold ?k ?tag] => destruct (EqualFold k tag)
         end;
  intros Hstep;
  first [ injection Hstep as <-; reflexivity
        | apply dbind_Done in Hstep as (? & _ & [= <-]); reflexivity ].

Ltac that_name :=
  let Hk := fresh "Hk" in
  let Hstep := fresh "Hstep" in
  let Hy := fresh "Hy" in
  intros Hk; rewrite Hk; intros Hstep;
  apply dbind_Done in Hstep as (? & Hy & [= <-]); cbn;
  match goal with
  | |- match ?x with _ => _ end => destruct x
  end;
  simpl in Hy; try discriminate; injection Hy as ->; reflexivity.

Section NameField.
Context {S : Type} (field : string -> value -> S -> dec S) (get : S -> string).

Hypothesis name_other :
  forall k x s s1, EqualFold k "name" = false -> field k x s = Done s1 -> get s1 = get s.
Hypothesis name_that :
  forall k x s s1, EqualFold k "name" = true -> field k x s = Done s1 ->
    match x with
    | JNull => get s1 = get s
    | _ => readString x = Some (get s1)
    end.

Lemma name_after (members : list (string * value)) (s0 s : S) :
  get s0 = "" ->
  Unmarshal (decodeObject field (JObj members) s0) = Ok s ->
  get s = wireName members.
Proof.
  intros Hzero Hdec. apply Unmarshal_Ok in Hdec. cbn [decodeObject] in Hdec.
  pose proof (scalar_after field "name" get readString name_other name_that
                members _ _ Hdec) as Hafter.
  unfold wireName. destruct (scalarMember "name" members) as [x|].
  - destruct x; try discriminate. injection Hafter as ->. reflexivity.
  - congruence.
Qed.

End NameField.

Section Decoding.
Context `{Imports}.

Lemma StringOption_name (members : list (string * value)) (o : StringOption.t) :
  Unmarshal (decodeObject StringOption_field (JObj members) StringOption.zero) = Ok o ->
  StringOption.OptionName o = wireName members.
Proof.
  apply (name_after StringOption_field StringOption.OptionName); [| |reflexivity].
  - intros k x [n d r c a] s1. unfold StringOption_field. other_name.
  - intros k x [n d r c a] s1. unfold StringOption_field. that_name.
Qed.

Lemma ChannelOption_name (members : list (string * value)) (o : ChannelOption.t) :
  Unmarshal (decodeObject ChannelOption_field (JObj members) ChannelOption.zero) = Ok o ->
  ChannelOption.OptionName o = wireName members.
Proof.
  apply (name_after ChannelOption_field ChannelOption.OptionName); [| |reflexivity].
  - intros k x [n d r c a] s1. unfold ChannelOption_field. other_name.
  - intros k x [n d r c a] s1. unfold ChannelOption_field. that_name.
Qed.

Lemma ValueOption_name {C : Type} (decC : value -> dec C)
    (members : list (string * value)) (o : ValueOption.t C) :
  unmarshalValueOption decC (JObj members) = Ok o ->
  ValueOption.OptionName o = wireName members.
Proof.
  unfold unmarshalValueOption.
  apply (name_after (ValueOption_field decC) ValueOption.OptionName); [| |reflexivity].
  - intros k x [n d r c] s1. unfold ValueOption_field. other_name.
  - intros k x [n d r c] s1. unfold ValueOption_field. that_name.
Qed.

Lemma SubcommandGroupOption_name (members : list (string * value))
    (g : SubcommandGroupOption.t) :
  Unmarshal (decodeObject (SubcommandGroupOption_field decodeUnknown) (JObj members)
               SubcommandGroupOption.zero) = Ok g ->
  SubcommandGroupOption.OptionName g = wireName members.
Proof.
  apply (name_after (SubcommandGroupOption_field decodeUnknown)
           SubcommandGroupOption.OptionName); [| |reflexivity].
  - intros k x [n d r c] s1. unfold SubcommandGroupOption_field. other_name.
  - intros k x [n d r c] s1. unfold SubcommandGroupOption_field. that_name.
Qed.

Lemma subcommandOpt_name (members : list (string * value)) (s0 : SubcommandOption.t)
    (opt : subcommandOpt) :
  SubcommandOption.OptionName s0 = "" ->
  Unmarshal (decodeObject (subcommandOpt_field decodeUnknown) (JObj members)
               (mkSubcommandOpt s0 0%N None)) = Ok opt ->
  SubcommandOption.OptionName (opt_raw opt) = wireName members.
Proof.
  intros Hzero.
  apply (name_after (subcommandOpt_field decodeUnknown)
           (fun opt => SubcommandOption.OptionName (opt_raw opt))); [| |exact Hzero].
  - intros k x [[n d r c] t os] s1. unfold subcommandOpt_field. other_name.
  - intros k x [[n d r c] t os] s1. unfold subcommandOpt_field. that_name.
Qed.

Lemma subcommandOpt_type_other (k : string) (x : value) (o o1 : subcommandOpt) :
  EqualFold k "type" = false ->
  subcommandOpt_field decodeUnknown k x o = Done o1 ->
  opt_Type o1 = opt_Type o.
Proof.
  destruct o as [[n d r c] t os]. intros Hk. unfold subcommandOpt_field. rewrite Hk.
  repeat match goal with
         | |- context [EqualFold k ?tag] => destruct (EqualFold k tag)
         end;
    intros Hstep;
    first [ injection Hstep as <-; reflexivity
          | apply dbind_Done in Hstep as (? & _ & [= <-]); reflexivity ].
Qed.

Lemma subcommandOpt_type (k : string) (x : value) (o o1 : subcommandOpt) :
  EqualFold k "type" = true ->
  subcommandOpt_field decodeUnknown k x o = Done o1 ->
  match x with
  | JNull => opt_Type o1 = opt_Type o
  | _ => readUint x = Some (opt_Type o1)
  end.
Proof.
  destruct o as [[n d r c] t os]. intros Hk. unfold subcommandOpt_field.
  rewrite (EqualFold_exclusive k "type" "name" Hk eq_refl),
    (EqualFold_exclusive k "type" "description" Hk eq_refl),
    (EqualFold_exclusive k "type" "required" Hk eq_refl), Hk.
  intros Hstep. apply dbind_Done in Hstep as (y & Hy & [= <-]). cbn [opt_Type].
  destruct x; simpl in Hy; try discriminate; try (injection Hy as ->; reflexivity).
  unfold readUint. destruct (ParseUint literal); simpl in Hy;
    [injection Hy as ->; reflexivity|discriminate Hy].
Qed.

(** The type the local struct of [SubcommandOption.UnmarshalJSON] holds
    after the parse is the discriminant of the object. *)
Lemma subcommandOpt_wireType (members : list (string * value)) (s0 : SubcommandOption.t)
    (opt : subcommandOpt) :
  Unmarshal (decodeObject (subcommandOpt_field decodeUnknown) (JObj members)
               (mkSubcommandOpt s0 0%N None)) = Ok opt ->
  opt_Type opt = wireType members.
Proof.
  intros Hdec. apply Unmarshal_Ok in Hdec. cbn [decodeObject] in Hdec.
  pose proof (scalar_after (subcommandOpt_field decodeUnknown) "type" opt_Type readUint
                subcommandOpt_type_other subcommandOpt_type members _ _ Hdec) as Hafter.
  unfold wireType. destruct (scalarMember "type" members) as [x|].
  - rewrite Hafter. reflexivity.
  - exact Hafter.
Qed.

(** What a successful [SubcommandOption.UnmarshalJSON] went through. *)
Lemma SubcommandOption_UnmarshalJSON_Ok (b : value) (s s' : SubcommandOption.t) :
  SubcommandOption_UnmarshalJSON b s = Ok s' ->
  exists opt ovs,
    Unmarshal (decodeObject (subcommandOpt_field decodeUnknown) b
                 (mkSubcommandOpt s 0%N None)) = Ok opt /\
    opt_Type opt = SubcommandOptionType /\
    checkOptionValues (elements (opt_Options opt)) = Ok ovs /\
    s' = SubcommandOption.mk (SubcommandOption.OptionName (opt_raw opt))
           (SubcommandOption.Description (opt_raw opt))
           (SubcommandOption.Required (opt_raw opt)) (Some ovs).
Proof.
  unfold SubcommandOption_UnmarshalJSON, SubcommandOption_UnmarshalJSON_with.
  destruct (Unmarshal _) as [opt|]; [|discriminate].
  destruct (N.eqb_spec (opt_Type opt) SubcommandOptionType) as [Htype|]; [|discriminate].
  cbn [negb]. fold (elements (opt_Options opt)).
  destruct (checkOptionValues _) as [ovs|] eqn:Hcheck; [|discriminate].
  intros [= <-]. exists opt, ovs. repeat split; assumption.
Qed.

Lemma first_parse_keeps_raw (b : value) (u0 u : UnknownCommandOption.t) :
  Unmarshal (decodeObject unknown_field b u0) = Ok u ->
  UnknownCommandOption.raw u = UnknownCommandOption.raw u0.
Proof.
  intros Hfirst. apply Unmarshal_Ok in Hfirst.
  destruct b; simpl in Hfirst; try discriminate.
  - injection Hfirst as <-. reflexivity.
  - revert Hfirst.
    apply (fold_Done_invariant unknown_field
             (fun u => UnknownCommandOption.raw u = UnknownCommandOption.raw u0));
      [|reflexivity].
    intros k x [n t raw] u1 _ Hraw. unfold unknown_field.
    destruct (EqualFold k "name"); [|destruct (EqualFold k "type")]; intros Hstep;
      try (apply dbind_Done in Hstep as (y & _ & [= <-]); exact Hraw).
    injection Hstep as <-. exact Hraw.
Qed.

(** The two ways [UnknownCommandOption.UnmarshalJSON] ends without error:
    with a new option of the type it has a case for, or, for any other
    type, with the bytes kept and the option as its own [data]. *)
Lemma UnmarshalJSON_cases (b : value) (u0 : UnknownCommandOption.t) (d : Decoded) :
  UnknownCommandOption_UnmarshalJSON b u0 = Ok d ->
  exists u,
    Unmarshal (decodeObject unknown_field b u0) = Ok u /\
    ((recognized (UnknownCommandOption.OptionType u) = true /\
      header d = u /\
      CommandOption_Type (data d) = UnknownCommandOption.OptionType u /\
      knownValue (match data d with OValue v => v | _ => VString StringOption.zero end)
        = true) \/
     (recognized (UnknownCommandOption.OptionType u) = false /\
      header d = UnknownCommandOption.mk (UnknownCommandOption.OptionName u)
                   (UnknownCommandOption.OptionType u) (Some b) /\
      data d = OValue (VUnknown (header d)))).
Proof.
  rewrite UnknownCommandOption_UnmarshalJSON_eq.
  destruct (Unmarshal (decodeObject unknown_field b u0)) as [u|]; [|discriminate].
  cbv zeta. intros Hd. exists u. split; [reflexivity|].
  assert (Hdata : forall (A : Type) (inject : A -> CommandOption) (r : result A),
             unmarshalData u inject r = Ok d ->
             exists a, data d = inject a /\ header d = u).
  { intros A inject [a|e]; simpl; [|discriminate]. intros [= <-].
    exists a. split; reflexivity. }
  revert Hd.
  repeat match goal with
         | |- context [N.eqb ?a ?b] => destruct (N.eqb_spec a b) as [Heq|?]
         end;
    intros Hd;
    try (apply Hdata in Hd as (a & Hdt & Hh); left; rewrite Hdt, Hh, Heq;
         repeat split; reflexivity).
  right. injection Hd as <-. cbn [header data]. split; [|split; reflexivity].
  unfold recognized. apply andb_false_iff. rewrite N.leb_gt, N.ltb_ge.
  unfold SubcommandOptionType, SubcommandGroupOptionType, StringOptionType,
    IntegerOptionType, BooleanOptionType, UserOptionType, ChannelOptionType,
    RoleOptionType, MentionableOptionType, NumberOptionType, maxOptionType in *.
  lia.
Qed.

(** X10.  After a successful [UnknownCommandOption.UnmarshalJSON] into an
    option without raw bytes (a new one), [Raw] is not nil exactly when
    the type is none of the ten the switch has a case for; then it is the
    document that was decoded and [Data] is the option itself, and
    otherwise [Data] is an option of one of the ten types. *)
Theorem Raw_iff_type_not_found (b : value) (u0 : UnknownCommandOption.t) (d : Decoded) :
  UnknownCommandOption.raw u0 = None ->
  UnknownCommandOption_UnmarshalJSON b u0 = Ok d ->
  (UnknownCommandOption_Raw d <> None <->
   recognized (UnknownCommandOption.OptionType (header d)) = false) /\
  (UnknownCommandOption_Raw d <> None ->
   UnknownCommandOption_Raw d = Some b /\
   UnknownCommandOption_Data d = OValue (VUnknown (header d))) /\
  (UnknownCommandOption_Raw d = None ->
   forall u, UnknownCommandOption_Data d <> OValue (VUnknown u)).
Proof.
  intros Hnil Hdec. unfold UnknownCommandOption_Raw, UnknownCommandOption_Data.
  destruct (UnmarshalJSON_cases b u0 d Hdec)
    as (u & Hfirst & [(Hrec & Hh & Htype & Hknown)|(Hrec & Hh & Hdata)]).
  - pose proof (first_parse_keeps_raw b u0 u Hfirst) as Hraw.
    rewrite Hh, Hraw, Hnil, Hrec. split; [|split].
    + split; [intros Hno; destruct (Hno eq_refl)|discriminate].
    + intros Hno. destruct (Hno eq_refl).
    + intros _ u' Hdata. rewrite Hdata in Hknown. discriminate.
  - rewrite Hdata, Hh. cbn [UnknownCommandOption.raw UnknownCommandOption.OptionType header].
    split; [|split].
    + split; [intros _; exact Hrec|discriminate].
    + intros _. split; reflexivity.
    + discriminate.
Qed.

Lemma SubcommandOption_name (members : list (string * value)) (s : SubcommandOption.t) :
  SubcommandOption_UnmarshalJSON (JObj members) SubcommandOption.zero = Ok s ->
  SubcommandOption.OptionName s = wireName members.
Proof.
  intros Hdec.
  apply SubcommandOption_UnmarshalJSON_Ok in Hdec as (opt & ovs & Hfirst & _ & _ & ->).
  cbn [SubcommandOption.OptionName].
  exact (subcommandOpt_name members SubcommandOption.zero opt eq_refl Hfirst).
Qed.

(** The header and the name of [data] after decoding an object. *)
Lemma decoded_object (members : list (string * value)) (d : Decoded) :
  UnknownCommandOption_UnmarshalJSON (JObj members) UnknownCommandOption.zero = Ok d ->
  UnknownCommandOption.OptionType (header d) = wireType members /\
  UnknownCommandOption.OptionName (header d) = wireName members /\
  CommandOption_Name (data d) = wireName members.
Proof.
  rewrite UnknownCommandOption_UnmarshalJSON_eq.
  destruct (Unmarshal (decodeObject unknown_field (JObj members)
                         UnknownCommandOption.zero)) as [u|] eqn:Hfirst; [|discriminate].
  apply Unmarshal_Ok in Hfirst. cbn [decodeObject] in Hfirst.
  apply first_parse_reads in Hfirst. subst u.
  cbv zeta. cbn [UnknownCommandOption.OptionType UnknownCommandOption.OptionName].
  assert (Hdata : forall (A : Type) (inject : A -> CommandOption) (r : result A),
             unmarshalData (UnknownCommandOption.mk (wireName members)
                              (wireType members) None) inject r = Ok d ->
             exists a, r = Ok a /\
               d = mkDecoded (UnknownCommandOption.mk (wireName members)
                                (wireType members) None) (inject a)).
  { intros A inject [a|e]; simpl; [|discriminate]. intros [= <-].
    exists a. split; reflexivity. }
  repeat match goal with
         | |- context [N.eqb ?a ?b] => destruct (N.eqb_spec a b) as [Heq|?]
         end;
    intros Hd;
    try (apply Hdata in Hd as (a & Hr & ->);
         cbn [header data UnknownCommandOption.OptionType
              UnknownCommandOption.OptionName CommandOption_Name
              CommandOptionValue_Name];
         split; [reflexivity|]; split; [reflexivity|];
         first [ exact (SubcommandOption_name _ _ Hr)
               | exact (SubcommandGroupOption_name _ _ Hr)
               | exact (StringOption_name _ _ Hr)
               | exact (ChannelOption_name _ _ Hr)
               | exact (ValueOption_name _ _ _ Hr) ]).
  injection Hd as <-. repeat split.
Qed.

(** X11.  After [UnknownCommandOption.UnmarshalJSON] into a new option,
    the [Type] and the [Name] of [Data] are the option's own [OptionType]
    and [OptionName], and these are the discriminant and the name of the
    object that was decoded; only an object or [null] is decoded without
    error, and [null] gives an unknown option of type 0 without a name. *)
Theorem Data_agrees_with_header (b : value) (d : Decoded) :
  UnknownCommandOption_UnmarshalJSON b UnknownCommandOption.zero = Ok d ->
  CommandOption_Type (UnknownCommandOption_Data d)
    = UnknownCommandOption.OptionType (header d) /\
  CommandOption_Name (UnknownCommandOption_Data d)
    = UnknownCommandOption.OptionName (header d) /\
  match b with
  | JObj members =>
      UnknownCommandOption.OptionType (header d) = wireType members /\
      UnknownCommandOption.OptionName (header d) = wireName members
  | _ =>
      b = JNull /\
      d = let u := UnknownCommandOption.mk "" 0%N (Some JNull) in
          mkDecoded u (OValue (VUnknown u))
  end.
Proof.
  intros Hdec. unfold UnknownCommandOption_Data. split.
  - destruct (UnmarshalJSON_cases b _ d Hdec)
      as (u & _ & [(_ & Hh & Htype & _)|(_ & Hh & Hdata)]).
    + rewrite Hh. exact Htype.
    + rewrite Hdata. reflexivity.
  - destruct b; try (rewrite UnknownCommandOption_UnmarshalJSON_eq in Hdec;
                     discriminate Hdec).
    + rewrite UnknownCommandOption_UnmarshalJSON_eq in Hdec.
      injection Hdec as <-. repeat split.
    + destruct (decoded_object members d Hdec) as (Htype & Hname & Hdata).
      rewrite Hdata, Hname. repeat split; assumption.
Qed.

(** The subcommands a group holds after the parse were made by
    [SubcommandOption.UnmarshalJSON]. *)
Lemma group_subcommands_made (b : value) (g : SubcommandGroupOption.t) :
  Unmarshal (decodeObject (SubcommandGroupOption_field decodeUnknown) b
               SubcommandGroupOption.zero) = Ok g ->
  Forall (fun p : ptr SubcommandOption.t =>
            match p with
            | None => True
            | Some s => SubcommandOption.Options s <> None
            end)
         (elements (SubcommandGroupOption.Subcommands g)).
Proof.
  intros Hdec. apply Unmarshal_Ok in Hdec.
  destruct b; simpl in Hdec; try discriminate.
  - injection Hdec as <-. constructor.
  - revert Hdec.
    apply (fold_Done_invariant (SubcommandGroupOption_field decodeUnknown)
             (fun g => Forall (fun p : ptr SubcommandOption.t =>
                                 match p with
                                 | None => True
                                 | Some s => SubcommandOption.Options s <> None
                                 end)
                              (elements (SubcommandGroupOption.Subcommands g))));
      [|constructor].
    intros k x [n dsc r c] g1 _ Hc. unfold SubcommandGroupOption_field.
    repeat match goal with
           | |- context [EqualFold k ?tag] => destruct (EqualFold k tag)
           end;
      intros Hstep; try (injection Hstep as <-; exact Hc);
      apply dbind_Done in Hstep as (y & Hy & [= <-]); try exact Hc.
    cbn [SubcommandGroupOption.Subcommands]. unfold decodeSlice in Hy.
    destruct x; try discriminate.
    + injection Hy as <-. constructor.
    + apply dbind_Done in Hy as (l & Hl & [= <-]). apply mapD_Done in Hl.
      cbn [elements]. clear -Hl.
      induction Hl as [|e p es ps He _ IH]; constructor; [|exact IH].
      destruct p as [s|]; [|exact I].
      unfold decodeSubcommandPtr in He.
      fold SubcommandOption_UnmarshalJSON in He.
      destruct e; try discriminate He;
        match type of He with
        | context [SubcommandOption_UnmarshalJSON ?v ?z] =>
            destruct (SubcommandOption_UnmarshalJSON v z) as [s'|] eqn:Hs;
            [|discriminate He]
        end;
        injection He as <-;
        apply SubcommandOption_UnmarshalJSON_Ok in Hs as (opt & ovs & _ & _ & _ & ->);
        discriminate.
Qed.

Lemma decoded_optionsMade (b : value) (u0 : UnknownCommandOption.t) (d : Decoded) :
  UnknownCommandOption_UnmarshalJSON b u0 = Ok d -> optionsMade (data d).
Proof.
  rewrite UnknownCommandOption_UnmarshalJSON_eq.
  destruct (Unmarshal (decodeObject unknown_field b u0)) as [u|]; [|discriminate].
  cbv zeta.
  assert (Hdata : forall (A : Type) (inject : A -> CommandOption) (r : result A),
             unmarshalData u inject r = Ok d ->
             exists a, r = Ok a /\ data d = inject a).
  { intros A inject [a|e]; simpl; [|discriminate]. intros [= <-].
    exists a. split; reflexivity. }
  repeat match goal with
         | |- context [N.eqb ?a ?b] => destruct (N.eqb_spec a b) as [Heq|?]
         end;
    intros Hd;
    try (apply Hdata in Hd as (a & Hr & ->); cbn [optionsMade]).
  - apply SubcommandOption_UnmarshalJSON_Ok in Hr as (opt & ovs & _ & _ & _ & ->).
    discriminate.
  - exact (group_subcommands_made b a Hr).
  - exact I.
  - exact I.
  - exact I.
  - exact I.
  - exact I.
  - exact I.
  - exact I.
  - exact I.
  - injection Hd as <-. exact I.
Qed.

(** What [CommandOptions.UnmarshalJSON] returns, from the slice of
    [UnknownCommandOption]s it parsed. *)
Lemma CommandOptions_UnmarshalJSON_Ok (b : value) (c : CommandOptions) :
  CommandOptions_UnmarshalJSON b = Ok c ->
  exists ds,
    c = match ds with
        | [] => None
        | _ => Some (map data ds)
        end /\
    match b with
    | JNull => ds = []
    | JArr elems =>
        Forall2 (fun e d => UnknownCommandOption_UnmarshalJSON e
                              UnknownCommandOption.zero = Ok d) elems ds
    | _ => False
    end.
Proof.
  unfold CommandOptions_UnmarshalJSON.
  destruct (Unmarshal (decodeSlice decodeUnknown b None)) as [unknowns|] eqn:Hparse;
    [|discriminate].
  apply Unmarshal_Ok in Hparse. unfold decodeSlice in Hparse.
  destruct b; try discriminate Hparse.
  - injection Hparse as <-. intros [= <-]. exists []. split; reflexivity.
  - apply dbind_Done in Hparse as (l & Hl & [= <-]). apply mapD_Done in Hl.
    intros Hc. exists l. split.
    + destruct l; cbn in Hc; injection Hc as <-; reflexivity.
    + clear -Hl. induction Hl as [|e d es ds He _ IH]; constructor; [|exact IH].
      unfold decodeUnknown in He.
      destruct (UnknownCommandOption_UnmarshalJSON e UnknownCommandOption.zero);
        simpl in He; congruence.
Qed.

(** X12.  Every tree [UnknownCommandOption.UnmarshalJSON] and
    [CommandOptions.UnmarshalJSON] build has its subcommands' [Options]
    made: not nil, also when the object has no [options] member or a
    [null] one.  So a decoded subcommand is always written back with an
    [options] array, never with [null]. *)
Theorem decoded_subcommands_have_options (b : value) :
  (forall u0 d, UnknownCommandOption_UnmarshalJSON b u0 = Ok d ->
     optionsMade (UnknownCommandOption_Data d)) /\
  (forall c, CommandOptions_UnmarshalJSON b = Ok c -> Forall optionsMade (elements c)) /\
  (forall s s', SubcommandOption_UnmarshalJSON b s = Ok s' ->
     SubcommandOption.Options s' <> None /\
     forall j, SubcommandOption_MarshalJSON s' = Ok j ->
       exists vs,
         j = JObj [("type", JNum (FormatUint SubcommandOptionType));
                   ("name", encodeString (SubcommandOption.OptionName s'));
                   ("description", encodeString (SubcommandOption.Description s'));
                   ("required", JBool (SubcommandOption.Required s'));
                   ("options", JArr vs)] /\
         List.length vs = len (SubcommandOption.Options s')).
Proof.
  split; [|split].
  - intros u0 d. apply decoded_optionsMade.
  - intros c Hdec.
    apply CommandOptions_UnmarshalJSON_Ok in Hdec as (ds & -> & Hds).
    destruct b; try contradiction.
    + subst ds. constructor.
    + assert (Hall : Forall optionsMade (map data ds)).
      { clear -Hds. induction Hds as [|e d es ds He _ IH]; constructor; [|exact IH].
        exact (decoded_optionsMade _ _ _ He). }
      destruct ds; [constructor|exact Hall].
  - intros s s' Hdec.
    apply SubcommandOption_UnmarshalJSON_Ok in Hdec as (opt & ovs & _ & _ & _ & ->).
    split; [discriminate|]. intros j. unfold SubcommandOption_MarshalJSON.
    cbn [SubcommandOption.Options SubcommandOption.OptionName
         SubcommandOption.Description SubcommandOption.Required marshalSlice len].
    destruct (mapR CommandOptionValue_Marshal ovs) as [vs|] eqn:Hvs; [|discriminate].
    cbn [rbind]. intros [= <-]. exists vs. split; [reflexivity|].
    clear -Hvs. revert vs Hvs. induction ovs as [|ov ovs IH]; intros vs.
    + intros [= <-]. reflexivity.
    + rewrite mapR_cons. destruct (CommandOptionValue_Marshal ov); [|discriminate].
      cbn [rbind]. destruct (mapR CommandOptionValue_Marshal ovs) as [vs'|];
        [|discriminate].
      cbn [rbind]. intros [= <-]. cbn [List.length]. rewrite (IH vs' eq_refl).
      reflexivity.
Qed.

(** X13.  [CommandOptions.UnmarshalJSON] gives nil for [null] and for an
    array without elements, and otherwise a slice with one option per
    element of the array, in order, each the [Data] of the element decoded
    by [UnknownCommandOption.UnmarshalJSON]; the result is never an empty
    slice that is not nil.  A document that is neither an array nor [null]
    is refused with a type error. *)
Theorem CommandOptions_nil_or_one_per_element (b : value) :
  (b = JNull \/ b = JArr [] -> CommandOptions_UnmarshalJSON b = Ok None) /\
  (forall c, CommandOptions_UnmarshalJSON b = Ok c ->
     nilOrNonEmpty c = true /\
     exists elems,
       (b = JNull /\ elems = [] \/ b = JArr elems) /\
       Forall2 (fun e o => exists d,
                  UnknownCommandOption_UnmarshalJSON e UnknownCommandOption.zero = Ok d /\
                  UnknownCommandOption_Data d = o)
               elems (elements c)) /\
  match b with
  | JNull => True
  | JArr _ => True
  | _ => CommandOptions_UnmarshalJSON b = Err (UnmarshalTypeError (kind b) "slice")
  end.
Proof.
  split; [|split].
  - intros [->| ->]; reflexivity.
  - intros c Hdec.
    apply CommandOptions_UnmarshalJSON_Ok in Hdec as (ds & -> & Hds).
    split; [destruct ds; reflexivity|].
    destruct b as [| | | |elems|]; try contradiction.
    + subst ds. exists []. split; [left; split; reflexivity|constructor].
    + exists elems. split; [right; reflexivity|].
      assert (Hall : Forall2 (fun e o => exists d,
                        UnknownCommandOption_UnmarshalJSON e UnknownCommandOption.zero
                          = Ok d /\ UnknownCommandOption_Data d = o)
                       elems (map data ds)).
      { clear -Hds. induction Hds as [|e d es ds He _ IH]; constructor; [|exact IH].
        exists d. split; [exact He|reflexivity]. }
      destruct ds; [inversion Hds; constructor|exact Hall].
  - destruct b; try exact I; reflexivity.
Qed.

Lemma unmarshalData_Err {A : Type} (u : UnknownCommandOption.t)
    (inject : A -> CommandOption) (r : result A) (e : error) :
  unmarshalData u inject r = Err e ->
  exists cause,
    e = Wrap cause ("failed to unmarshal type "
                    ++ FormatUint (UnknownCommandOption.OptionType u)).
Proof. destruct r as [a|cause]; simpl; [discriminate|]. intros [= <-]. eauto. Qed.

(** Every error of [UnknownCommandOption.UnmarshalJSON] is wrapped: the
    error of the first parse, or the error of the parse into the option of
    the type that was found. *)
Lemma UnmarshalJSON_Err (b : value) (u0 : UnknownCommandOption.t) (e : error) :
  UnknownCommandOption_UnmarshalJSON b u0 = Err e ->
  exists cause,
    e = Wrap cause "failed to unmarshal unknown" \/
    exists type, recognized type = true /\
                 e = Wrap cause ("failed to unmarshal type " ++ FormatUint type).
Proof.
  rewrite UnknownCommandOption_UnmarshalJSON_eq.
  destruct (Unmarshal (decodeObject unknown_field b u0)) as [u|cause].
  - cbv zeta.
    repeat match goal with
           | |- context [N.eqb ?a ?b] => destruct (N.eqb_spec a b) as [Heq|?]
           end;
      intros He; try discriminate He;
      apply unmarshalData_Err in He as (cause & ->); exists cause; right;
      exists (UnknownCommandOption.OptionType u);
      (split; [rewrite Heq; reflexivity|reflexivity]).
  - intros [= <-]. exists cause. left. reflexivity.
Qed.

Lemma mapD_first_Abort {A B : Type} (f : A -> dec B) (good : list A) (bad : A)
    (rest : list A) (e : error) :
  Forall (fun v => exists y, f v = Done y) good ->
  f bad = Abort e ->
  mapD f (good ++ bad :: rest) = Abort e.
Proof.
  intros Hgood Hbad. induction Hgood as [|v good (y & Hy) _ IH].
  - cbn [List.app]. rewrite mapD_cons, Hbad. reflexivity.
  - cbn [List.app]. rewrite mapD_cons, Hy, IH. reflexivity.
Qed.

(** X14.  When an element of the array does not decode,
    [CommandOptions.UnmarshalJSON] returns the error of the first such
    element as it is, whatever follows it; that error wraps its cause with
    "failed to unmarshal unknown" (the first parse) or with "failed to
    unmarshal type N" for the type N that was found. *)
Theorem CommandOptions_first_error (good : list value) (bad : value) (rest : list value)
    (e : error) :
  Forall (fun v => exists d,
            UnknownCommandOption_UnmarshalJSON v UnknownCommandOption.zero = Ok d) good ->
  UnknownCommandOption_UnmarshalJSON bad UnknownCommandOption.zero = Err e ->
  CommandOptions_UnmarshalJSON (JArr (good ++ bad :: rest)) = Err e /\
  exists cause,
    e = Wrap cause "failed to unmarshal unknown" \/
    exists type, recognized type = true /\
                 e = Wrap cause ("failed to unmarshal type " ++ FormatUint type).
Proof.
  intros Hgood Hbad. split; [|exact (UnmarshalJSON_Err _ _ _ Hbad)].
  unfold CommandOptions_UnmarshalJSON, decodeSlice.
  rewrite (mapD_first_Abort decodeUnknown good bad rest e); [reflexivity| |].
  - apply Forall_impl with (2 := Hgood). intros v (d & Hd).
    exists d. unfold decodeUnknown. rewrite Hd. reflexivity.
  - unfold decodeUnknown. rewrite Hbad. reflexivity.
Qed.

(** X15.  [SubcommandOption.UnmarshalJSON] accepts only an object whose
    discriminant is 1.  For an object that parses and has another
    discriminant, or none, and for [null], it returns the error
    "unexpected (not SubcommandOption) type 1": the number in the message
    is the receiver's own type, not the one that was received. *)
Theorem SubcommandOption_accepts_type_1_only (b : value) (s : SubcommandOption.t) :
  (forall s', SubcommandOption_UnmarshalJSON b s = Ok s' ->
     exists members, b = JObj members /\ wireType members = SubcommandOptionType) /\
  (forall members opt,
     b = JObj members ->
     Unmarshal (decodeObject (subcommandOpt_field decodeUnknown) b
                  (mkSubcommandOpt s 0%N None)) = Ok opt ->
     wireType members <> SubcommandOptionType ->
     SubcommandOption_UnmarshalJSON b s
       = Err (Errorf "unexpected (not SubcommandOption) type 1")) /\
  (b = JNull ->
   SubcommandOption_UnmarshalJSON b s
     = Err (Errorf "unexpected (not SubcommandOption) type 1")).
Proof.
  split; [|split].
  - intros s' Hdec.
    apply SubcommandOption_UnmarshalJSON_Ok in Hdec as (opt & ovs & Hfirst & Htype & _).
    destruct b; try discriminate Hfirst.
    + injection Hfirst as <-. discriminate Htype.
    + exists members. split; [reflexivity|].
      rewrite <- (subcommandOpt_wireType members s opt Hfirst). exact Htype.
  - intros members opt -> Hfirst Htype.
    rewrite <- (subcommandOpt_wireType members s opt Hfirst) in Htype.
    unfold SubcommandOption_UnmarshalJSON, SubcommandOption_UnmarshalJSON_with.
    rewrite Hfirst. destruct (N.eqb_spec (opt_Type opt) SubcommandOptionType);
      [contradiction|reflexivity].
  - intros ->. reflexivity.
Qed.

(* The field of slice type and the one member it is read from. *)








Lemma pick_none (tag : string) (rest : list (string * value)) (acc : option value) :
  hasMember tag rest = false -> fold_left (pickMember tag) rest acc = acc.
Proof.
  unfold hasMember. revert acc. induction rest as [|[k x] rest IH]; intros acc Hnone.
  - reflexivity.
  - cbn [existsb fst] in Hnone. apply orb_false_iff in Hnone as [Hk Hrest].
    cbn [fold_left]. unfold pickMember at 2. cbn [fst snd]. rewrite Hk.
    exact (IH acc Hrest).
Qed.

(** The member of a name that no later member has is the one a field of
    that name is read from. *)
Lemma scalarMember_from (tag : string) (pre : list (string * value)) (k : string)
    (x : value) (rest : list (string * value)) :
  EqualFold k tag = true -> x <> JNull -> hasMember tag rest = false ->
  scalarMember tag (pre ++ (k, x) :: rest) = Some x.
Proof.
  intros Hk Hx Hrest. unfold scalarMember. rewrite fold_left_app. cbn [fold_left].
  rewrite (pick_none tag rest _ Hrest). unfold pickMember at 1. cbn [fst snd].
  rewrite Hk. destruct x; try reflexivity. destruct (Hx eq_refl).
Qed.

Lemma header_members (type : CommandOptionType) (name : string)
    (rest : list (string * value)) :
  is_uint type = true ->
  hasMember "type" rest = false ->
  hasMember "name" rest = false ->
  wireType (("type", JNum (FormatUint type)) :: ("name", JStr name) :: rest) = type /\
  wireName (("type", JNum (FormatUint type)) :: ("name", JStr name) :: rest) = name.
Proof.
  intros Huint Htype Hname. unfold wireType, wireName. split.
  - pose proof (scalarMember_from "type" [] "type" (JNum (FormatUint type))
                  (("name", JStr name) :: rest) eq_refl ltac:(discriminate) Htype) as E.
    cbn [List.app] in E. rewrite E.
    unfold readUint. rewrite (ParseUint_FormatUint type Huint). reflexivity.
  - pose proof (scalarMember_from "name" [("type", JNum (FormatUint type))] "name"
                  (JStr name) rest eq_refl ltac:(discriminate) Hname) as E.
    cbn [List.app] in E. rewrite E. reflexivity.
Qed.

(** Every option marshaler writes the discriminant and the name, once
    each. *)
Lemma Marshal_header (o : CommandOption) (j : value) :
  listed o = true ->
  is_uint (CommandOption_Type o) = true ->
  CommandOption_Marshal o = Ok j ->
  exists members,
    j = JObj members /\
    wireType members = CommandOption_Type o /\
    wireName members = toValidUTF8 (CommandOption_Name o).
Proof.
  intros Hlisted Huint.
  assert (Hchoices : forall (C : Type) (enc : C -> result value) (c : slice C) cs,
             omitemptySlice "choices" enc c = Ok cs ->
             cs = [] \/ exists v, cs = [("choices", v)]).
  { intros C enc [[|x l]|] cs; unfold omitemptySlice.
    - intros [= <-]. left. reflexivity.
    - destruct (mapR enc (x :: l)); cbn [rbind]; [|discriminate].
      intros [= <-]. right. eexists. reflexivity.
    - intros [= <-]. left. reflexivity. }
  destruct o as [s|g|[o|o|o|o|o|o|o|o|u]]; try discriminate Hlisted;
    cbn [CommandOption_Marshal CommandOptionValue_Marshal CommandOption_Type
         CommandOptionValue_Type CommandOption_Name CommandOptionValue_Name] in *;
    unfold SubcommandOption_MarshalJSON, SubcommandGroupOption_MarshalJSON,
      StringOption_MarshalJSON, IntegerOption_MarshalJSON, BooleanOption_MarshalJSON,
      UserOption_MarshalJSON, marshalValueOption, UnknownCommandOption_Marshal;
    intros Henc;
    repeat match type of Henc with
           | rbind ?m _ = _ =>
               let E := fresh "E" in
               destruct m eqn:E; cbn [rbind] in Henc; [|discriminate Henc]
           end;
    injection Henc as <-; (eexists; split; [reflexivity|]);
    try match goal with
        | E : omitemptySlice _ _ _ = Ok _ |- _ =>
            apply Hchoices in E as [->|(v & ->)]
        end;
    cbn [List.app]; unfold encodeString;
    try (apply header_members; [exact Huint|reflexivity|reflexivity]).
  unfold wireType, wireName. split.
  - pose proof (scalarMember_from "type"
                  [("name", JStr (toValidUTF8 (UnknownCommandOption.OptionName u)))]
                  "type"
                  (JNum (FormatUint (UnknownCommandOption.OptionType u))) []
                  eq_refl ltac:(discriminate) eq_refl) as E.
    cbn [List.app] in E. rewrite E.
    unfold readUint. rewrite (ParseUint_FormatUint _ Huint). reflexivity.
  - pose proof (scalarMember_from "name" [] "name"
                  (JStr (toValidUTF8 (UnknownCommandOption.OptionName u)))
                  [("type", JNum (FormatUint (UnknownCommandOption.OptionType u)))]
                  eq_refl ltac:(discriminate) eq_refl) as E.
    cbn [List.app] in E. rewrite E. reflexivity.
Qed.

(** X16.  An option written by its marshaler and read back, whenever
    both go through, is of the same [Type], and its [Name] is the name as
    it was written: the original name with the bytes that are no valid
    UTF-8 replaced by U+FFFD, so the original name when that is valid
    UTF-8.  This holds also when the tree itself is not read back as it
    was (a nil [Options], an empty slice of choices, an unknown option's
    bytes). *)
Theorem encoding_keeps_type_and_name (o : CommandOption) (j : value) (d : Decoded) :
  listed o = true ->
  is_uint (CommandOption_Type o) = true ->
  CommandOption_Marshal o = Ok j ->
  UnknownCommandOption_UnmarshalJSON j UnknownCommandOption.zero = Ok d ->
  CommandOption_Type (UnknownCommandOption_Data d) = CommandOption_Type o /\
  CommandOption_Name (UnknownCommandOption_Data d) = toValidUTF8 (CommandOption_Name o) /\
  UnknownCommandOption.OptionType (header d) = CommandOption_Type o /\
  UnknownCommandOption.OptionName (header d) = toValidUTF8 (CommandOption_Name o) /\
  (ValidString (CommandOption_Name o) = true ->
   CommandOption_Name (UnknownCommandOption_Data d) = CommandOption_Name o /\
   UnknownCommandOption.OptionName (header d) = CommandOption_Name o).
Proof.
  intros Hlisted Huint Henc Hdec.
  destruct (Marshal_header o j Hlisted Huint Henc) as (members & -> & Htype & Hname).
  destruct (decoded_object members d Hdec) as (Hht & Hhn & Hdn).
  assert (Hdt : CommandOption_Type (data d)
                 = UnknownCommandOption.OptionType (header d)).
  { destruct (UnmarshalJSON_cases _ _ d Hdec)
      as (u & _ & [(_ & Hh & Hdt & _)|(_ & Hh & Hdata)]).
    - rewrite Hh. exact Hdt.
    - rewrite Hdata. reflexivity. }
  unfold UnknownCommandOption_Data.
  assert (Hn1 : CommandOption_Name (data d) = toValidUTF8 (CommandOption_Name o))
    by congruence.
  assert (Hn2 : UnknownCommandOption.OptionName (header d)
                = toValidUTF8 (CommandOption_Name o)) by congruence.
  split; [congruence|]. split; [exact Hn1|]. split; [congruence|].
  split; [exact Hn2|].
  intros Hvalid. rewrite Hn1, Hn2, (toValidUTF8_valid _ Hvalid). split; reflexivity.
Qed.

(** X17.  An option of a type this package does not know, written and
    read back, keeps its type and its name as it was written (the name
    itself when it is valid UTF-8); its raw bytes become the document that
    was written (name and type), and from then on writing and reading give
    the same option. *)
Theorem unknown_option_reencoded (u : UnknownCommandOption.t) :
  is_uint (UnknownCommandOption.OptionType u) = true ->
  recognized (UnknownCommandOption.OptionType u) = false ->
  ValidString (UnknownCommandOption.OptionName u) = true ->
  exists j,
    CommandOption_Marshal (OValue (VUnknown u)) = Ok j /\
    let u' := UnknownCommandOption.mk (UnknownCommandOption.OptionName u)
                (UnknownCommandOption.OptionType u) (Some j) in
    UnknownCommandOption_UnmarshalJSON j UnknownCommandOption.zero
      = Ok (mkDecoded u' (OValue (VUnknown u'))) /\
    CommandOption_Marshal (OValue (VUnknown u')) = Ok j.
Proof.
  intros Huint Hrec Hvalid. eexists. split; [reflexivity|]. cbv zeta.
  split; [|reflexivity].
  apply (unknown_default _ UnknownCommandOption.zero
           (UnknownCommandOption.mk (UnknownCommandOption.OptionName u)
              (UnknownCommandOption.OptionType u) None)); [|exact Hrec].
  unfold decodeObject, UnknownCommandOption.zero, encodeString.
  rewrite (toValidUTF8_valid _ Hvalid).
  cbn [fold_left storeMember dbind].
  change (unknown_field "name" (JStr (UnknownCommandOption.OptionName u))
            (UnknownCommandOption.mk "" 0%N None))
    with (Done (UnknownCommandOption.mk (UnknownCommandOption.OptionName u) 0%N None)).
  cbn [dbind].
  change (unknown_field "type" (JNum (FormatUint (UnknownCommandOption.OptionType u)))
            (UnknownCommandOption.mk (UnknownCommandOption.OptionName u) 0%N None))
    with (dbind (decodeUint (JNum (FormatUint (UnknownCommandOption.OptionType u))) 0%N)
            (fun x => Done (UnknownCommandOption.mk
                              (UnknownCommandOption.OptionName u) x None))).
  rewrite (decodeUint_FormatUint _ _ Huint). reflexivity.
Qed.

(** X18.  A whole command is written and read back as it was: for a
    command whose identifiers pass through their codec, whose type fits a
    [uint], whose options are built from the known types and are as the
    decoder leaves them, and whose strings (names, descriptions, choices)
    are valid UTF-8, [Command.UnmarshalJSON] of [Command.MarshalJSON]
    into a new command gives the command, with a type of 0 replaced by
    [ChatInputCommand]. *)
Theorem Command_written_and_read_back (c : Command.t) :
  portableCommand c = true ->
  forallb listed (elements (Command.Options c)) = true ->
  validCommand c = true ->
  exists j,
    Command_MarshalJSON c = Ok j /\
    Command_UnmarshalJSON j Command.zero = Ok (withDefaultType c) /\
    (Command.Type_ c <> 0%N -> Command_UnmarshalJSON j Command.zero = Ok c).
Proof.
  intros Hc _ Hvalid. destruct (Command_roundtrip c Hc) as (j & Henc & Hdec).
  rewrite (utf8Command_valid c Hvalid) in Hdec.
  exists j. split; [exact Henc|]. split; [exact Hdec|].
  intros Htype. rewrite Hdec. unfold withDefaultType.
  destruct (N.eqb_spec (Command.Type_ c) 0) as [Hzero|_]; [contradiction|].
  destruct c. reflexivity.
Qed.

(** X19.  A command that [Command.UnmarshalJSON] returned never has type
    0, whatever the document and the command it was decoded into; so
    [Command.MarshalJSON] of a decoded command always writes a [type]
    member, the number of its type. *)
Theorem decoded_Command_has_type (data : value) (c0 c : Command.t) :
  Command_UnmarshalJSON data c0 = Ok c ->
  Command.Type_ c <> 0%N /\
  forall j, Command_MarshalJSON c = Ok j ->
    exists members,
      j = JObj members /\
      scalarMember "type" members = Some (JNum (FormatUint (Command.Type_ c))).
Proof.
  intros Hdec.
  assert (Htype : Command.Type_ c <> 0%N).
  { unfold Command_UnmarshalJSON in Hdec.
    destruct (Unmarshal _) as [[[id type app guild name desc opts nodef version] dp]|];
      [|discriminate].
    cbn [cmd_raw] in Hdec. injection Hdec as <-. cbn [Command.Type_].
    destruct (N.eqb_spec type 0); [discriminate|assumption]. }
  split; [exact Htype|].
  destruct c as [id type app guild name desc opts nodef version].
  cbn [Command.Type_] in *. intros j Henc.
  unfold Command_MarshalJSON, omitemptyN, encodeUint in Henc.
  cbn [Command.ID Command.Type_ Command.AppID Command.GuildID Command.Name
       Command.Description Command.Options Command.NoDefaultPermission
       Command.Version] in Henc.
  destruct (N.eqb_spec type 0) as [|_]; [contradiction|].
  destruct (encodeSnowflake id); [|discriminate Henc]. cbn [rbind] in Henc.
  destruct (encodeSnowflake app); [|discriminate Henc]. cbn [rbind] in Henc.
  destruct (N.eqb guild 0); destruct (N.eqb version 0); cbn [rbind] in Henc;
    try (destruct (encodeSnowflake guild); cbn [rbind] in Henc; [|discriminate Henc]);
    (destruct (omitemptySlice "options" CommandOption_Marshal opts) as [os|] eqn:Hos;
     cbn [rbind] in Henc; [|discriminate Henc]);
    try (destruct (encodeSnowflake version); cbn [rbind] in Henc; [|discriminate Henc]);
    injection Henc as <-;
    (assert (Hshape : os = [] \/ exists v, os = [("options", v)])
      by (unfold omitemptySlice in Hos; destruct opts as [[|o l]|];
          [ injection Hos as <-; left; reflexivity
          | destruct (mapR CommandOption_Marshal (o :: l)); cbn [rbind] in Hos;
            [injection Hos as <-; right; eexists; reflexivity|discriminate Hos]
          | injection Hos as <-; left; reflexivity ]));
    (destruct Hshape as [->|(v & ->)]; eexists; (split; [reflexivity|]);
     cbn [List.app];
     (apply (scalarMember_from "type" [_] "type");
      [reflexivity|discriminate|reflexivity])).
Qed.

(** A member whose name matches no tag leaves the struct as it is. *)
Lemma cmd_field_no_tag (k : string) (v : value) (cmd : rawCmd) :
  matchesNone k commandTags = true -> cmd_field k v cmd = Done cmd.
Proof.
  unfold matchesNone, commandTags. cbn [forallb]. intros Hnone.
  repeat match type of Hnone with
         | (negb ?t && _)%bool = true =>
             let E := fresh "E" in
             destruct t eqn:E; [discriminate Hnone|]; cbn [negb andb] in Hnone
         end.
  destruct cmd as [[id type app guild name desc opts nodef version] dp].
  unfold cmd_field.
  repeat match goal with
         | E : EqualFold k ?tag = false |- context [EqualFold k ?tag] => rewrite E
         end.
  reflexivity.
Qed.

(** X20.  [Command.UnmarshalJSON] ignores a member whose name matches,
    under case folding, none of the nine member names of a command: the
    result, command or error, is that of the object without the member.
    The field [NoDefaultPermission] has no member name of its own. *)
Theorem Command_ignores_other_members (k : string) (v : value)
    (before after : list (string * value)) (c0 : Command.t) :
  matchesNone k commandTags = true ->
  Command_UnmarshalJSON (JObj (before ++ (k, v) :: after)) c0
    = Command_UnmarshalJSON (JObj (before ++ after)) c0.
Proof.
  intros Hnone. unfold Command_UnmarshalJSON. cbn [decodeObject].
  rewrite !fold_left_app. cbn [fold_left].
  assert (Hskip : forall acc, storeMember cmd_field acc (k, v) = acc).
  { intros [cmd|e cmd|e]; cbn [storeMember dbind];
      try rewrite (cmd_field_no_tag k v cmd Hnone); reflexivity. }
  rewrite Hskip. reflexivity.
Qed.

End Decoding.

(* ----------------------------------------------------------------- *)
(** *** Sample documents *)

Section MoreSamples.
Import reference.
#[local] Existing Instance reference.imports.



(** A name that is no valid UTF-8 is not read back: the byte 255 is
    written, and read back, as U+FFFD. *)
Lemma roundtrip_replaces_invalid_utf8 :
  let o := VBoolean (ValueOption.mk (String "255" "") "" false None) in
  knownValue o = true /\ canonicalValue o = true /\ portableValue o = true /\
  validValue o = false /\
  exists j d,
    CommandOptionValue_Marshal o = Ok j /\
    UnknownCommandOption_UnmarshalJSON j UnknownCommandOption.zero = Ok d /\
    UnknownCommandOption_Data d
      = OValue (VBoolean (ValueOption.mk (String "239" (String "191" (String "189" "")))
                            "" false None)).
Proof.
  cbv zeta. repeat (split; [reflexivity|]).
  eexists. eexists. split; [vm_compute; reflexivity|].
  split; [vm_compute; reflexivity|reflexivity].
Qed.

Lemma Raw_iff_type_not_found_witness :
  let u := UnknownCommandOption.mk "file" 11%N (Some attachmentOption) in
  let d := mkDecoded u (OValue (VUnknown u)) in
  UnknownCommandOption.raw UnknownCommandOption.zero = None /\
  UnknownCommandOption_UnmarshalJSON attachmentOption UnknownCommandOption.zero = Ok d /\
  (UnknownCommandOption_Raw d <> None <->
   recognized (UnknownCommandOption.OptionType (header d)) = false).
Proof.
  cbv zeta. split; [reflexivity|].
  assert (Hdec : UnknownCommandOption_UnmarshalJSON attachmentOption
                   UnknownCommandOption.zero
                 = Ok (mkDecoded
                         (UnknownCommandOption.mk "file" 11%N (Some attachmentOption))
                         (OValue (VUnknown (UnknownCommandOption.mk "file" 11%N
                                              (Some attachmentOption))))))
    by (vm_compute; reflexivity).
  split; [exact Hdec|].
  exact (proj1 (Raw_iff_type_not_found attachmentOption UnknownCommandOption.zero _
                  eq_refl Hdec)).
Defined.

Lemma Data_agrees_with_header_witness :
  UnknownCommandOption_UnmarshalJSON silentOption UnknownCommandOption.zero
    = Ok silentDecoded /\
  CommandOption_Type (UnknownCommandOption_Data silentDecoded) = BooleanOptionType /\
  CommandOption_Name (UnknownCommandOption_Data silentDecoded) = "silent".
Proof.
  assert (Hdec : UnknownCommandOption_UnmarshalJSON silentOption
                   UnknownCommandOption.zero = Ok silentDecoded)
    by (vm_compute; reflexivity).
  split; [exact Hdec|].
  destruct (Data_agrees_with_header silentOption silentDecoded Hdec)
    as (Htype & Hname & _).
  split; [exact Htype|exact Hname].
Defined.

Lemma decoded_subcommands_have_options_witness :
  let doc := JObj [("type", JNum "1"); ("name", JStr "ban")] in
  let s := SubcommandOption.mk "ban" "" false (Some []) in
  SubcommandOption_UnmarshalJSON doc SubcommandOption.zero = Ok s /\
  SubcommandOption.Options s <> None.
Proof.
  cbv zeta.
  assert (Hdec : SubcommandOption_UnmarshalJSON
                   (JObj [("type", JNum "1"); ("name", JStr "ban")])
                   SubcommandOption.zero
                 = Ok (SubcommandOption.mk "ban" "" false (Some [])))
    by (vm_compute; reflexivity).
  split; [exact Hdec|].
  exact (proj1 (proj2 (proj2 (decoded_subcommands_have_options _)) _ _ Hdec)).
Defined.

Lemma CommandOptions_nil_or_one_per_element_witness :
  CommandOptions_UnmarshalJSON (JArr []) = Ok None /\
  CommandOptions_UnmarshalJSON (JObj [])
    = Err (UnmarshalTypeError "object" "slice").
Proof.
  split.
  - exact (proj1 (CommandOptions_nil_or_one_per_element (JArr [])) (or_intror eq_refl)).
  - exact (proj2 (proj2 (CommandOptions_nil_or_one_per_element (JObj [])))).
Defined.

Lemma CommandOptions_first_error_witness :
  CommandOptions_UnmarshalJSON (JArr [silentOption; JStr "x"; JNull])
    = Err (Wrap (UnmarshalTypeError "string" "struct") "failed to unmarshal unknown").
Proof.
  refine (proj1 (CommandOptions_first_error [silentOption] (JStr "x") [JNull] _ _ _)).
  - constructor; [|constructor]. exists silentDecoded. vm_compute. reflexivity.
  - vm_compute. reflexivity.
Defined.

Lemma SubcommandOption_accepts_type_1_only_witness :
  let doc := JObj [("type", JNum "3"); ("name", JStr "text")] in
  wireType [("type", JNum "3"); ("name", JStr "text")] <> SubcommandOptionType /\
  SubcommandOption_UnmarshalJSON doc SubcommandOption.zero
    = Err (Errorf "unexpected (not SubcommandOption) type 1").
Proof.
  cbv zeta. split; [vm_compute; discriminate|].
  refine (proj1 (proj2 (SubcommandOption_accepts_type_1_only _ _))
            [("type", JNum "3"); ("name", JStr "text")]
            (mkSubcommandOpt (SubcommandOption.mk "text" "" false None) 3%N None)
            eq_refl _ _).
  - vm_compute. reflexivity.
  - vm_compute. discriminate.
Defined.

Lemma encoding_keeps_type_and_name_witness :
  let o := OValue (VString reasonOption) in
  let j := JObj [("type", JNum "3"); ("name", JStr "reason");
                 ("description", JStr "Why"); ("required", JBool false);
                 ("autocomplete", JBool true)] in
  let d := mkDecoded (UnknownCommandOption.mk "reason" StringOptionType None)
             (OValue (VString (StringOption.mk "reason" "Why" false None true))) in
  listed o = true /\
  is_uint (CommandOption_Type o) = true /\
  CommandOption_Marshal o = Ok j /\
  UnknownCommandOption_UnmarshalJSON j UnknownCommandOption.zero = Ok d /\
  ValidString (CommandOption_Name o) = true /\
  UnknownCommandOption_Data d <> o /\
  CommandOption_Type (UnknownCommandOption_Data d) = CommandOption_Type o /\
  CommandOption_Name (UnknownCommandOption_Data d) = CommandOption_Name o.
Proof.
  cbv zeta.
  assert (Hdec : UnknownCommandOption_UnmarshalJSON
                   (JObj [("type", JNum "3"); ("name", JStr "reason");
                          ("description", JStr "Why"); ("required", JBool false);
                          ("autocomplete", JBool true)])
                   UnknownCommandOption.zero
                 = Ok (mkDecoded
                         (UnknownCommandOption.mk "reason" StringOptionType None)
                         (OValue (VString (StringOption.mk "reason" "Why" false None
                                             true)))))
    by (vm_compute; reflexivity).
  split; [reflexivity|]. split; [reflexivity|]. split; [reflexivity|].
  split; [exact Hdec|]. split; [reflexivity|]. split; [discriminate|].
  destruct (encoding_keeps_type_and_name (OValue (VString reasonOption)) _ _
              eq_refl eq_refl eq_refl Hdec) as (Htype & _ & _ & _ & Hname).
  split; [exact Htype|exact (proj1 (Hname eq_refl))].
Defined.

Lemma unknown_option_reencoded_witness :
  let u := UnknownCommandOption.mk "file" 11%N (Some attachmentOption) in
  let j := JObj [("name", JStr "file"); ("type", JNum "11")] in
  let u' := UnknownCommandOption.mk "file" 11%N (Some j) in
  is_uint (UnknownCommandOption.OptionType u) = true /\
  recognized (UnknownCommandOption.OptionType u) = false /\
  ValidString (UnknownCommandOption.OptionName u) = true /\
  CommandOption_Marshal (OValue (VUnknown u)) = Ok j /\
  UnknownCommandOption_UnmarshalJSON j UnknownCommandOption.zero
    = Ok (mkDecoded u' (OValue (VUnknown u'))).
Proof.
  cbv zeta. split; [reflexivity|]. split; [reflexivity|]. split; [reflexivity|].
  destruct (unknown_option_reencoded
              (UnknownCommandOption.mk "file" 11%N (Some attachmentOption))
              eq_refl eq_refl eq_refl) as (j & Henc & Hdec & _).
  injection Henc as <-. split; [reflexivity|exact Hdec].
Defined.

Lemma Command_written_and_read_back_witness :
  portableCommand plainCommand = true /\
  forallb listed (elements (Command.Options plainCommand)) = true /\
  validCommand plainCommand = true /\
  exists j,
    Command_MarshalJSON plainCommand = Ok j /\
    Command_UnmarshalJSON j Command.zero = Ok plainCommand.
Proof.
  assert (Hp : portableCommand plainCommand = true) by (vm_compute; reflexivity).
  assert (Hl : forallb listed (elements (Command.Options plainCommand)) = true)
    by reflexivity.
  split; [exact Hp|]. split; [exact Hl|]. split; [reflexivity|].
  destruct (Command_written_and_read_back plainCommand Hp Hl eq_refl)
    as (j & Henc & _ & Hdec).
  exists j. split; [exact Henc|]. apply Hdec. discriminate.
Defined.

Lemma decoded_Command_has_type_witness :
  let c := Command.mk 1%N ChatInputCommand 0%N 0%N "" "" None true 0%N in
  Command_UnmarshalJSON (JObj [("id", JStr "1"); ("type", JNum "0")]) Command.zero
    = Ok c /\
  Command.Type_ c <> 0%N.
Proof.
  cbv zeta.
  assert (Hdec : Command_UnmarshalJSON (JObj [("id", JStr "1"); ("type", JNum "0")])
                   Command.zero
                 = Ok (Command.mk 1%N ChatInputCommand 0%N 0%N "" "" None true 0%N))
    by (vm_compute; reflexivity).
  split; [exact Hdec|].
  exact (proj1 (decoded_Command_has_type _ _ _ Hdec)).
Defined.

Lemma Command_ignores_other_members_witness :
  matchesNone "NoDefaultPermission" commandTags = true /\
  Command_UnmarshalJSON
    (JObj [("id", JStr "1"); ("NoDefaultPermission", JBool true); ("name", JStr "ping")])
    Command.zero
  = Command_UnmarshalJSON (JObj [("id", JStr "1"); ("name", JStr "ping")]) Command.zero.
Proof.
  split; [reflexivity|].
  exact (Command_ignores_other_members "NoDefaultPermission" (JBool true)
           [("id", JStr "1")] [("name", JStr "ping")] Command.zero eq_refl).
Defined.

End MoreSamples.

End discord_more.
